(** * MuleShield-AI: the network-graph layout and filtering engine

    A shallow embedding of [processGraphData], the callback of the Network
    Graph page that turns a graph payload and the filter state into the
    nodes and edges handed to the rendering surface.  Two versions of the
    page exist in the repository: the clustered radial layout
    (module [Clustered]) and the earlier grid layout with random jitter
    (module [Grid]).

    Conventions of the embedding:
    - a node or edge identifier is kept as the string [id.toString()] yields,
      since the page never uses an identifier in another form;
    - [cluster_id] is [option Z], [None] standing for [undefined];
    - JavaScript numbers that are counts, indices and cluster ids are [Z];
      risk scores and amounts are [Q]; coordinates are real numbers, with
      [None] standing for a value that is not finite (the outcome of a
      division by zero);
    - objects used as dictionaries are [gmap]s, except [clusterGroups],
      whose enumeration order matters and which is an insertion-ordered
      association list read through [Js.objectEntries]; a plain object
      keyed by node ids is the finite map only at the ids that name no
      property of [Object.prototype] ([Js.ordinaryKey]), and what depends
      on such an object is stated for those ids;
    - arithmetic on coordinates and amounts is exact, where the program
      rounds to a double: a bound that rounding can reach is stated
      without strictness. *)

From Stdlib Require Import ZArith QArith Reals Lra Lia List String Ascii.
From Stdlib Require Import DecimalString DecimalZ DecimalPos.
From stdpp Require Import base gmap strings list fin_maps.

#[local] Open Scope string_scope.
#[local] Open Scope Z_scope.
#[local] Open Scope list_scope.

(** ** JavaScript primitives *)

Module Js.

(** [String(n)] for an integer [n], in plain decimal digits.  JavaScript
    prints a number in this form, digit for digit, as long as the number
    holds the integer exactly, which it does up to [2 ^ 53 - 1] in absolute
    value; beyond that the digits are those of the nearest double, and from
    [10 ^ 21] on the form has an exponent.  What is stated of the digits a
    number is read back from carries the bound [safeInteger]. *)
Definition toString (n : Z) : string :=
  NilZero.string_of_int (Z.to_int n).

(** [Number.isSafeInteger(n)] for an integer [n]. *)
Definition safeInteger (n : Z) : Prop := Z.abs n <= 2 ^ 53 - 1.

(** The names of the properties of [Object.prototype].  A plain object
    [{}] used as a dictionary inherits them: reading one of these keys
    before it is set gives a function or an object instead of [undefined],
    and an assignment to [__proto__] sets no property.  At every other key
    such an object behaves as a finite map. *)
Definition objectPrototypeKeys : list string :=
  ["constructor"; "__proto__"; "hasOwnProperty"; "isPrototypeOf";
   "propertyIsEnumerable"; "toLocaleString"; "toString"; "valueOf";
   "__defineGetter__"; "__defineSetter__"; "__lookupGetter__";
   "__lookupSetter__"].

(** A key at which a plain object behaves as a finite map. *)
Definition ordinaryKey (k : string) : Prop := k ∉ objectPrototypeKeys.

(** [Number(s)] on the strings the page applies it to: a run of decimal
    digits is its value and the empty string is [0]; any other string is
    [NaN], here [None]. *)
Definition Number (s : string) : option Z :=
  Z.of_uint <$> NilEmpty.uint_of_string s.

(** [s.split(sep)] for a one-character separator. *)
Fixpoint split (sep : ascii) (s : string) : list string :=
  match s with
  | EmptyString => [EmptyString]
  | String c s' =>
      if Ascii.eqb c sep then EmptyString :: split sep s'
      else match split sep s' with
           | [] => [String c EmptyString]
           | seg :: segs => String c seg :: segs
           end
  end.

(** [xs.join(sep)]. *)
Fixpoint join (sep : string) (xs : list string) : string :=
  match xs with
  | [] => EmptyString
  | [x] => x
  | x :: xs' => String.append x (String.append sep (join sep xs'))
  end.

Definition isWhiteSpace (c : ascii) : bool :=
  let n := nat_of_ascii c in
  (Nat.eqb n 32 || (Nat.leb 9 n && Nat.leb n 13))%bool.

Fixpoint trimStart (s : string) : string :=
  match s with
  | String c s' => if isWhiteSpace c then trimStart s' else s
  | EmptyString => EmptyString
  end.

Definition digitVal (c : ascii) : option Z :=
  let n := Z.of_nat (nat_of_ascii c) in
  if (48 <=? n) && (n <=? 57) then Some (n - 48)
  else if (97 <=? n) && (n <=? 122) then Some (n - 87)
  else if (65 <=? n) && (n <=? 90) then Some (n - 55)
  else None.

(** The value of the longest prefix of [s] made of digits of the radix,
    [acc] being the value read so far ([None]: no digit yet). *)
Fixpoint digitsPrefix (radix : Z) (s : string) (acc : option Z) : option Z :=
  match s with
  | EmptyString => acc
  | String c s' =>
      match digitVal c with
      | Some d =>
          if d <? radix
          then digitsPrefix radix s' (Some (default 0 acc * radix + d))
          else acc
      | None => acc
      end
  end.

(** [parseInt(s)] with no radix argument: leading white space, a sign,
    an optional [0x] and the longest run of digits; [None] is [NaN]. *)
Definition parseInt (s : string) : option Z :=
  let s := trimStart s in
  let '(sign, s) :=
    match s with
    | String "-" s' => (-1, s')
    | String "+" s' => (1, s')
    | _ => (1, s)
    end in
  let '(radix, s) :=
    match s with
    | String "0" (String "x" s') => (16, s')
    | String "0" (String "X" s') => (16, s')
    | _ => (10, s)
    end in
  Z.mul sign <$> digitsPrefix radix s None.

(** [a === b] between a value that is a number or [undefined] and a
    number that may be [NaN]. *)
Definition strictEq (a b : option Z) : bool :=
  match a, b with
  | Some x, Some y => x =? y
  | _, _ => false
  end.

(** Truthiness of a string. *)
Definition truthy (s : string) : bool := negb (String.eqb s "").

(** [xs.sort(cmp)]: the sort is stable, so its result is the one of this
    insertion sort, where an element stays ahead of the later elements
    it does not compare greater than. *)
Fixpoint sortInsert {A} (cmp : A → A → Z) (x : A) (l : list A) : list A :=
  match l with
  | [] => [x]
  | y :: l' => if cmp x y <=? 0 then x :: y :: l' else y :: sortInsert cmp x l'
  end.

Definition sort {A} (cmp : A → A → Z) (l : list A) : list A :=
  foldr (sortInsert cmp) [] l.

(** Keys that an object enumerates first, in ascending numeric order. *)
Definition isArrayIndex (k : Z) : bool := (0 <=? k) && (k <? 2 ^ 32 - 1).

(** [Object.entries(o)] for an object whose keys are the decimal forms
    of integers, given as the association list of its properties in
    insertion order. *)
Definition objectEntries {A} (o : list (Z * A)) : list (Z * A) :=
  sort (λ a b, fst a - fst b) (List.filter (λ kv, isArrayIndex (fst kv)) o)
    ++ List.filter (λ kv, negb (isArrayIndex (fst kv))) o.

(** [a / b] on integers, as a real number; not finite when [b] is [0]. *)
Definition div (a b : Z) : option R :=
  if b =? 0 then None else Some (IZR a / IZR b)%R.

End Js.

(** ** Data model: the payload, the filter state and the page state *)

(** A node of the payload after normalisation.  [node_id] is the string form
    of [id]; [cluster_id] is [None] when the property is [undefined]. *)
Record Node := {
  node_id : string;
  node_name : option string;
  risk_score : Q;
  mule_suspected : bool;
  cluster_id : option Z;
}.

Record Edge := {
  source : string;
  target : string;
  suspicious : bool;
  amount : option Q;
  weight : option Q;
}.

(** The payload; [None] is a collection that is missing. *)
Record GraphData := {
  nodes : option (list Node);
  edges : option (list Edge);
}.

(** The [filters] state; [cluster] is the value of the select element,
    the empty string meaning no cluster filter. *)
Record Filters := {
  showMuleOnly : bool;
  minRiskScore : Q;
  cluster : string;
}.

(** The part of the [patterns] state the callback reads:
    [patterns?.circular?.count], [None] when any link is missing. *)
Record Patterns := { circular_count : option Z }.

(** The other state the callback closes over. *)
Record Env := {
  highlightId : option string;
  patterns : option Patterns;
}.

Record NodeData := {
  nd_node : Node;
  nd_label : string;
  nd_highlighted : bool;
  nd_degree : option Z;
  nd_clusterColor : option string;
}.

Record FlowNode := {
  fn_id : string;
  fn_type : string;
  fn_position : option (R * R);
  fn_data : NodeData;
  fn_draggable : option bool;
  fn_zIndex : option Z;
}.

Record EdgeStyle := {
  stroke : option string;
  strokeWidth : Q;
  opacity : option Q;
  strokeDasharray : option string;
}.

Inductive EdgeData :=
| RawEdge (isHighRisk isPartOfCircular : bool) (amount : option Q)
          (isIntraCluster : bool)
| ClusterConnector (clusters : Z * Z)
| NoData.

Record FlowEdge := {
  fe_id : string;
  fe_source : string;
  fe_target : string;
  fe_type : option string;
  fe_animated : bool;
  fe_style : EdgeStyle;
  fe_markerColor : option string;
  fe_data : EdgeData;
  fe_zIndex : option Z;
}.

(** What [setNodes] and [setEdges] hold. *)
Record View := {
  view_nodes : list FlowNode;
  view_edges : list FlowEdge;
}.

Definition initialView : View := {| view_nodes := []; view_edges := [] |}.

(** The node filter, shared by the two versions of the page. *)
Definition nodeFilter (filters : Filters) (node : Node) : bool :=
  if showMuleOnly filters && negb (mule_suspected node) then false
  else if Qlt_le_dec (risk_score node) (minRiskScore filters) then false
  else if Js.truthy (cluster filters)
          && negb (Js.strictEq (cluster_id node) (Js.parseInt (cluster filters)))
       then false
  else true.

(** [node.name || `Account ${node.id}`] *)
Definition nodeLabel (node : Node) : string :=
  match node_name node with
  | Some n => if Js.truthy n then n else String.append "Account " (node_id node)
  | None => String.append "Account " (node_id node)
  end.

(** Truthiness of [highlightId && node.id.toString() === highlightId]. *)
Definition isHighlighted (env : Env) (node : Node) : bool :=
  match highlightId env with
  | Some h => Js.truthy h && String.eqb (node_id node) h
  | None => false
  end.

(** ** The clustered radial layout *)

Module Clustered.

Definition filteredNodes (filters : Filters) (nodes : list Node) : list Node :=
  List.filter (nodeFilter filters) nodes.

Definition nodeIds (fnodes : list Node) : gset string :=
  list_to_set (map node_id fnodes).

Definition filteredEdges (ids : gset string) (edges : list Edge) : list Edge :=
  List.filter
    (λ edge, bool_decide (source edge ∈ ids) && bool_decide (target edge ∈ ids))
    edges.

(** [clusterGroups[clusterId].push(node)], creating the group when the
    key is new; the list keeps the keys in insertion order. *)
Fixpoint pushNode (clusterId : Z) (node : Node) (groups : list (Z * list Node))
  : list (Z * list Node) :=
  match groups with
  | [] => [(clusterId, [node])]
  | (k, ns) :: rest =>
      if k =? clusterId then (k, ns ++ [node]) :: rest
      else (k, ns) :: pushNode clusterId node rest
  end.

Definition groupKey (node : Node) : Z := default (-1) (cluster_id node).

Definition clusterGroups (fnodes : list Node) : list (Z * list Node) :=
  foldl (λ groups node, pushNode (groupKey node) node groups) [] fnodes.

Definition clusterColors : list string :=
  ["#ef4444"; "#3b82f6"; "#10b981"; "#f59e0b"; "#8b5cf6";
   "#ec4899"; "#06b6d4"; "#84cc16"; "#f97316"; "#6366f1"].

(** [clusterColors[i % clusterColors.length]]; [undefined] when [i] is
    negative. *)
Definition colorAt (i : Z) : option string :=
  let r := Z.rem i 10 in
  if r <? 0 then None else clusterColors !! Z.to_nat r.

(** [connectionCount], a plain object keyed by node ids, as the finite map
    it is at the keys that are [Js.ordinaryKey]s; what is stated of the
    count of a node carries that condition on the node's id. *)
Definition connectionCount (fedges : list Edge) : gmap string Z :=
  foldl (λ cc edge,
           let src := source edge in
           let tgt := target edge in
           let cc := <[src := default 0 (cc !! src) + 1]> cc in
           <[tgt := default 0 (cc !! tgt) + 1]> cc)
        ∅ fedges.

(** [connectionCount[id] || 0], for an id that is a [Js.ordinaryKey]. *)
Definition degree (cc : gmap string Z) (id : string) : Z :=
  default 0 (cc !! id).

Definition clusterRadius (clusterSize : Z) : R :=
  Rmax (150 + sqrt (IZR clusterSize) * 45) 200.

Definition clusterCenter (numClusters clusterIdx clusterSize : Z)
  : option (R * R) :=
  let clusterDistance := (500 + clusterRadius clusterSize)%R in
  frac ← Js.div clusterIdx (Z.max numClusters 1);
  let clusterAngle := (frac * PI * 2 - PI / 2)%R in
  Some ((600 + clusterDistance * cos clusterAngle)%R,
        (600 + clusterDistance * sin clusterAngle)%R).

(** [Math.floor((idx - 1) / 8) + 1] *)
Definition ring (idx : Z) : Z := (idx - 1) / 8 + 1.

(** [(idx - 1) % 8], the remainder taking the sign of the dividend. *)
Definition posInRing (idx : Z) : Z := Z.rem (idx - 1) 8.

Definition nodesInRing (clusterSize idx : Z) : Z :=
  Z.min 8 (clusterSize - 1 - (ring idx - 1) * 8).

Definition angleOffset (idx : Z) : R :=
  (IZR (Z.rem (ring idx) 2) * PI / 8)%R.

(** The body of [sortedNodes.forEach((node, idx) => ...)] up to [x], [y]. *)
Definition nodePosition (center : R * R) (clusterSize idx : Z)
  : option (R * R) :=
  if (idx =? 0) && (clusterSize >? 1) then Some center
  else
    let ringRadius := ring idx * 60 in
    frac ← Js.div (posInRing idx) (nodesInRing clusterSize idx);
    let angle := (frac * PI * 2 + angleOffset idx)%R in
    Some ((fst center + IZR ringRadius * cos angle)%R,
          (snd center + IZR ringRadius * sin angle)%R).

Definition zIndex (node : Node) : Z :=
  if Qle_bool 70 (risk_score node) then 100
  else if Qle_bool 40 (risk_score node) then 50 else 10.

Definition byDegreeDesc (cc : gmap string Z) (a b : Node) : Z :=
  degree cc (node_id b) - degree cc (node_id a).

Definition sortedNodes (cc : gmap string Z) (clusterNodes : list Node)
  : list Node :=
  Js.sort (byDegreeDesc cc) clusterNodes.

(** One turn of [Object.entries(clusterGroups).forEach]: the nodes pushed
    to [flowNodes] for one cluster. *)
Definition layoutCluster (env : Env) (cc : gmap string Z)
    (numClusters clusterIdx : Z) (clusterNodes : list Node) : list FlowNode :=
  let clusterSize := Z.of_nat (length clusterNodes) in
  let center := clusterCenter numClusters clusterIdx clusterSize in
  let clusterColor := colorAt clusterIdx in
  imap (λ idx node,
          {| fn_id := node_id node;
             fn_type := "account";
             fn_position :=
               c ← center; nodePosition c clusterSize (Z.of_nat idx);
             fn_data :=
               {| nd_node := node;
                  nd_label := nodeLabel node;
                  nd_highlighted := isHighlighted env node;
                  nd_degree := Some (degree cc (node_id node));
                  nd_clusterColor := clusterColor |};
             fn_draggable := Some true;
             fn_zIndex := Some (zIndex node) |})
       (sortedNodes cc clusterNodes).

Definition flowNodes (env : Env) (cc : gmap string Z)
    (groups : list (Z * list Node)) : list FlowNode :=
  let entries := Js.objectEntries groups in
  let numClusters := Z.of_nat (length entries) in
  concat (imap (λ clusterIdx entry,
                  layoutCluster env cc numClusters (Z.of_nat clusterIdx)
                                (snd entry))
               entries).

Record ClusterMeta := {
  cm_center : option (R * R);
  cm_radius : R;
  cm_color : option string;
  cm_size : Z;
  cm_id : Z;
}.

(** [clusterMetadata], the entry written for each cluster. *)
Definition clusterMetadata (groups : list (Z * list Node))
  : list (Z * ClusterMeta) :=
  let entries := Js.objectEntries groups in
  let numClusters := Z.of_nat (length entries) in
  imap (λ clusterIdx entry,
          let clusterSize := Z.of_nat (length (snd entry)) in
          (fst entry,
           {| cm_center :=
                clusterCenter numClusters (Z.of_nat clusterIdx) clusterSize;
              cm_radius := clusterRadius clusterSize;
              cm_color := colorAt (Z.of_nat clusterIdx);
              cm_size := clusterSize;
              cm_id := fst entry |}))
       entries.

(** [nodeClusterMap[n.id] = n.data.cluster_id] over [flowNodes]: a plain
    object keyed by node ids, as the finite map it is at the keys that are
    [Js.ordinaryKey]s. *)
Definition nodeClusterMap (fnodes : list FlowNode) : gmap string (option Z) :=
  foldl (λ m n, <[fn_id n := cluster_id (nd_node (fn_data n))]> m) ∅ fnodes.

(** [nodeClusterMap[id]]: [undefined] for an absent key as for a node
    whose [cluster_id] is [undefined]. *)
Definition clusterOf (ncm : gmap string (option Z)) (id : string) : option Z :=
  match ncm !! id with
  | Some c => c
  | None => None
  end.

(** [patterns?.circular?.count > 0] *)
Definition isPartOfCircular (env : Env) : bool :=
  match patterns env with
  | Some p => match circular_count p with Some c => c >? 0 | None => false end
  | None => false
  end.

(** [srcCluster !== undefined && srcCluster === tgtCluster] *)
Definition isIntraCluster (srcCluster tgtCluster : option Z) : bool :=
  match srcCluster, tgtCluster with
  | Some a, Some b => a =? b
  | _, _ => false
  end.

Definition edgeStyle (isHighRisk isCircular isIntra : bool)
    (srcCluster : option Z) : EdgeStyle :=
  if isHighRisk then
    {| stroke := Some "#ef4444"; strokeWidth := 5 # 2;
       opacity := Some (9 # 10); strokeDasharray := None |}
  else if isCircular then
    {| stroke := Some "#f59e0b"; strokeWidth := 2;
       opacity := Some (7 # 10); strokeDasharray := None |}
  else if isIntra then
    {| stroke := colorAt (default 0 srcCluster); strokeWidth := 6 # 5;
       opacity := Some (1 # 2); strokeDasharray := None |}
  else
    {| stroke := Some "#64748b"; strokeWidth := 6 # 5;
       opacity := Some (2 # 5); strokeDasharray := None |}.

Definition flowEdge (env : Env) (ncm : gmap string (option Z))
    (index : nat) (edge : Edge) : FlowEdge :=
  let isCircular := isPartOfCircular env in
  let isHighRisk := suspicious edge in
  let srcCluster := clusterOf ncm (source edge) in
  let tgtCluster := clusterOf ncm (target edge) in
  let isIntra := isIntraCluster srcCluster tgtCluster in
  let style := edgeStyle isHighRisk isCircular isIntra srcCluster in
  {| fe_id := String.append "e" (Js.toString (Z.of_nat index));
     fe_source := source edge;
     fe_target := target edge;
     fe_type := Some (if isIntra then "default" else "smoothstep");
     fe_animated := isHighRisk;
     fe_style := style;
     fe_markerColor := stroke style;
     fe_data := RawEdge isHighRisk isCircular (amount edge) isIntra;
     fe_zIndex := None |}.

Definition flowEdges (env : Env) (ncm : gmap string (option Z))
    (fedges : list Edge) : list FlowEdge :=
  imap (flowEdge env ncm) fedges.

(** [clusterNodes.reduce((best, node) => ..., clusterNodes[0])] *)
Definition centerNode (cc : gmap string Z) (first : Node)
    (clusterNodes : list Node) : Node :=
  foldl (λ best node,
           let countA := degree cc (node_id best) in
           let countB := degree cc (node_id node) in
           if countB >? countA then node else best)
        first clusterNodes.

Definition clusterCenters (cc : gmap string Z) (groups : list (Z * list Node))
  : gmap Z string :=
  foldl (λ centers entry,
           match snd entry with
           | [] => centers
           | first :: _ =>
               <[fst entry := node_id (centerNode cc first (snd entry))]> centers
           end)
        ∅ (Js.objectEntries groups).

(** [[srcCluster, tgtCluster].sort((a, b) => a - b).join('-')] *)
Definition pairKey (srcCluster tgtCluster : Z) : string :=
  Js.join "-" (map Js.toString (Js.sort (λ a b, a - b) [srcCluster; tgtCluster])).

(** [Set.prototype.add] on a set of strings kept in insertion order. *)
Definition setAdd (x : string) (s : list string) : list string :=
  if bool_decide (x ∈ s) then s else s ++ [x].

Definition connectedClusters (ncm : gmap string (option Z))
    (fedges : list Edge) : list string :=
  foldl (λ connected edge,
           match clusterOf ncm (source edge), clusterOf ncm (target edge) with
           | Some srcCluster, Some tgtCluster =>
               if negb (srcCluster =? tgtCluster)
               then setAdd (pairKey srcCluster tgtCluster) connected
               else connected
           | _, _ => connected
           end)
        [] fedges.

(** [const [c1, c2] = pair.split('-').map(Number)]; [None] is a
    component that is [undefined] or [NaN]. *)
Definition pairClusters (pair : string) : option Z * option Z :=
  let cs := map Js.Number (Js.split "-" pair) in
  (mjoin (cs !! 0%nat), mjoin (cs !! 1%nat)).

(** The edges one pair adds to [clusterConnectorEdges]. *)
Definition connectorEdge (centers : gmap Z string) (pair : string)
  : list FlowEdge :=
  match pairClusters pair with
  | (Some c1, Some c2) =>
      match centers !! c1, centers !! c2 with
      | Some center1, Some center2 =>
          if Js.truthy center1 && Js.truthy center2 then
            [ {| fe_id :=
                   String.append "cluster-conn-"
                     (String.append (Js.toString c1)
                        (String.append "-" (Js.toString c2)));
                 fe_source := center1;
                 fe_target := center2;
                 fe_type := Some "straight";
                 fe_animated := true;
                 fe_style :=
                   {| stroke := Some "#a855f7"; strokeWidth := 4;
                      opacity := Some (7 # 10);
                      strokeDasharray := Some "10,5" |};
                 fe_markerColor := Some "#a855f7";
                 fe_data := ClusterConnector (c1, c2);
                 fe_zIndex := Some 200 |} ]
          else []
      | _, _ => []
      end
  | _ => []
  end.

Definition clusterConnectorEdges (centers : gmap Z string)
    (connected : list string) : list FlowEdge :=
  concat (map (connectorEdge centers) connected).

(** The intermediate values of one run, for a payload with both
    collections present. *)
Section Run.
Variables (env : Env) (filters : Filters).
Variables (ns : list Node) (es : list Edge).

Definition visibleNodes : list Node := filteredNodes filters ns.
Definition visibleEdges : list Edge := filteredEdges (nodeIds visibleNodes) es.
Definition groups : list (Z * list Node) := clusterGroups visibleNodes.
Definition counts : gmap string Z := connectionCount visibleEdges.
Definition layoutNodes : list FlowNode := flowNodes env counts groups.
Definition layoutEdges : list FlowEdge :=
  flowEdges env (nodeClusterMap layoutNodes) visibleEdges.
Definition connectors : list FlowEdge :=
  clusterConnectorEdges (clusterCenters counts groups)
    (connectedClusters (nodeClusterMap layoutNodes) visibleEdges).

Definition layout : View :=
  {| view_nodes := layoutNodes; view_edges := layoutEdges ++ connectors |}.
End Run.

(** [processGraphData(data)]: the page state after the call. *)
Definition processGraphData (env : Env) (filters : Filters)
    (data : option GraphData) (view : View) : View :=
  match data with
  | Some d =>
      match nodes d, edges d with
      | Some ns, Some es => layout env filters ns es
      | _, _ => view
      end
  | None => view
  end.

End Clustered.

(** ** The grid layout with jitter *)

Module Grid.

(** A computation that may call [Math.random()]: it reads the sequence of
    the values the generator returns, from a cursor that it advances. *)
Definition Rand (A : Type) : Type := (nat → R) → nat → A * nat.

Definition ret {A} (a : A) : Rand A := λ _ cur, (a, cur).

Definition bind {A B} (m : Rand A) (f : A → Rand B) : Rand B :=
  λ rnd cur, let '(a, cur') := m rnd cur in f a rnd cur'.

Definition mathRandom : Rand R := λ rnd cur, (rnd cur, S cur).

#[local] Notation "'let*' x := m 'in' f" := (bind m (λ x, f))
  (at level 10, x name, m at level 100, f at level 200).

(** [xs.map((x, index) => f(index, x))], the calls made in order. *)
Fixpoint mapIndexed {A B} (f : nat → A → Rand B) (index : nat) (xs : list A)
  : Rand (list B) :=
  match xs with
  | [] => ret []
  | x :: xs' =>
      let* y := f index x in
      let* ys := mapIndexed f (S index) xs' in
      ret (y :: ys)
  end.

Definition gridX (index : nat) : R := IZR (Z.rem (Z.of_nat index) 8 * 220).
Definition gridY (index : nat) : R := IZR (Z.of_nat index / 8 * 180).

(** The node of the grid page.  The coordinates are computed in exact
    arithmetic; the doubles of the program are these values rounded, so a
    bound that holds strictly here can be reached there, and the bounds on
    the coordinates are stated without strictness. *)
Definition flowNode (env : Env) (index : nat) (node : Node) : Rand FlowNode :=
  let* rx := mathRandom in
  let* ry := mathRandom in
  ret {| fn_id := node_id node;
         fn_type := "account";
         fn_position := Some ((gridX index + rx * 50)%R, (gridY index + ry * 50)%R);
         fn_data :=
           {| nd_node := node;
              nd_label := nodeLabel node;
              nd_highlighted := isHighlighted env node;
              nd_degree := None;
              nd_clusterColor := None |};
         fn_draggable := None;
         fn_zIndex := None |}.

(** [Math.min(edge.weight || 1, 4)] *)
Definition edgeWidth (edge : Edge) : Q :=
  let w := match weight edge with
           | Some w => if Qeq_bool w 0 then 1%Q else w
           | None => 1%Q
           end in
  if Qle_bool w 4 then w else 4%Q.

(** The edge of the grid page, without its [label], the amount formatted
    for display. *)
Definition flowEdge (index : nat) (edge : Edge) : FlowEdge :=
  let color := if suspicious edge then "#ef4444" else "#94a3b8" in
  {| fe_id := String.append "e" (Js.toString (Z.of_nat index));
     fe_source := source edge;
     fe_target := target edge;
     fe_type := None;
     fe_animated := suspicious edge;
     fe_style := {| stroke := Some color; strokeWidth := edgeWidth edge;
                    opacity := None; strokeDasharray := None |};
     fe_markerColor := Some color;
     fe_data := NoData;
     fe_zIndex := None |}.

Definition flowNodes (env : Env) (filters : Filters) (ns : list Node)
  : Rand (list FlowNode) :=
  mapIndexed (flowNode env) 0 (List.filter (nodeFilter filters) ns).

Definition flowEdges (fnodes : list FlowNode) (es : list Edge) : list FlowEdge :=
  let nodeIds : gset string := list_to_set (map fn_id fnodes) in
  imap flowEdge
    (List.filter
       (λ edge, bool_decide (source edge ∈ nodeIds)
                && bool_decide (target edge ∈ nodeIds))
       es).

(** [processGraphData(data)]: the page state after the call. *)
Definition processGraphData (env : Env) (filters : Filters)
    (data : option GraphData) (view : View) : Rand View :=
  match data with
  | Some d =>
      match nodes d, edges d with
      | Some ns, Some es =>
          let* fnodes := flowNodes env filters ns in
          ret {| view_nodes := fnodes; view_edges := flowEdges fnodes es |}
      | _, _ => ret view
      end
  | None => ret view
  end.

End Grid.

(** ** Notions the properties are stated with *)

(** Numbers of edges of [es] leaving [id], entering [id], touching [id] at
    either end, and looping on [id]. *)
Definition edgesFrom (id : string) (es : list Edge) : nat :=
  length (List.filter (λ e, bool_decide (source e = id)) es).

Definition edgesInto (id : string) (es : list Edge) : nat :=
  length (List.filter (λ e, bool_decide (target e = id)) es).

Definition edgesTouching (id : string) (es : list Edge) : nat :=
  length (List.filter
            (λ e, bool_decide (source e = id) || bool_decide (target e = id)) es).

Definition selfLoopsAt (id : string) (es : list Edge) : nat :=
  length (List.filter
            (λ e, bool_decide (source e = id) && bool_decide (target e = id)) es).

Definition mkNode (id : string) (score : Q) (flagged : bool) (c : option Z)
  : Node :=
  {| node_id := id; node_name := None; risk_score := score;
     mule_suspected := flagged; cluster_id := c |}.

Definition mkEdge (src tgt : string) : Edge :=
  {| source := src; target := tgt; suspicious := false;
     amount := None; weight := None |}.

Definition noFilter : Filters :=
  {| showMuleOnly := false; minRiskScore := 0; cluster := "" |}.

Definition noEnv : Env := {| highlightId := None; patterns := None |}.

(** No node of the list has an id that names a property of
    [Object.prototype]. *)
Definition ordinaryIds (l : list Node) : Prop :=
  Forall (λ n, Js.ordinaryKey (node_id n)) l.

#[global] Instance ordinaryKey_dec (k : string) : Decision (Js.ordinaryKey k).
Proof. unfold Js.ordinaryKey. apply _. Defined.

#[global] Instance ordinaryIds_dec (l : list Node) : Decision (ordinaryIds l).
Proof. unfold ordinaryIds. apply _. Defined.

(** The category of an edge of the output, in the priority order
    suspicious, intra-cluster, inter-cluster; connectors are a category of
    their own.  The grid layout only tells suspicious edges apart. *)
Inductive EdgeCategory :=
| Suspicious | IntraCluster | InterCluster | Connector | Plain.

Definition edgeCategory (e : FlowEdge) : EdgeCategory :=
  match fe_data e with
  | RawEdge isHighRisk _ _ isIntraCluster =>
      if isHighRisk then Suspicious
      else if isIntraCluster then IntraCluster else InterCluster
  | ClusterConnector _ => Connector
  | NoData => if fe_animated e then Suspicious else Plain
  end.

(** What the determinism property compares of a node and of an edge. *)
Definition placement (fn : FlowNode) : string * option (R * R) :=
  (fn_id fn, fn_position fn).

Definition classified (e : FlowEdge) : string * string * string * EdgeCategory :=
  (fe_id e, fe_source e, fe_target e, edgeCategory e).

(** The clusters [a < b] are joined by a visible edge: one end of the edge
    is the id of a visible node of cluster [a], the other the id of a
    visible node of cluster [b]. *)
Definition crossing (visible : list Node) (ve : list Edge) (a b : Z) : Prop :=
  a < b
  ∧ ∃ e n m, e ∈ ve ∧ n ∈ visible ∧ m ∈ visible
             ∧ cluster_id n = Some a ∧ cluster_id m = Some b
             ∧ ((node_id n = source e ∧ node_id m = target e)
                ∨ (node_id n = target e ∧ node_id m = source e)).

(** [hub] is the node the layout puts at the centre of cluster [c]: the
    first of the cluster's members sorted by descending degree. *)
Definition hubOf (cc : gmap string Z) (groups : list (Z * list Node))
    (c : Z) (hub : Node) : Prop :=
  ∃ members, (c, members) ∈ groups
             ∧ head (Clustered.sortedNodes cc members) = Some hub.

(** [h] is the earliest element of [l] among those of greatest key. *)
Definition firstMax {A} (key : A → Z) (h : A) (l : list A) : Prop :=
  ∃ pre post, l = pre ++ h :: post
              ∧ Forall (λ m, key m < key h) pre
              ∧ Forall (λ m, key m <= key h) post.

(** The comparator of a sort by descending key. *)
Definition descending {A} (key : A → Z) (a b : A) : Z := key b - key a.

(** The scan that keeps the running best unless a later element is
    strictly greater. *)
Definition scanMax {A} (key : A → Z) (first : A) (l : list A) : A :=
  foldl (λ best x, if key x >? key best then x else best) first l.

(** The string has no dash. *)
Fixpoint noDash (s : string) : bool :=
  match s with
  | EmptyString => true
  | String c s' => negb (Ascii.eqb c "-") && noDash s'
  end.

(** How a pair key of [connectedClusters] and the connector edge made for
    it are related. *)
Definition connectorOf (visible : list Node) (ve : list Edge)
    (cc : gmap string Z) (grps : list (Z * list Node))
    (s : string) (ce : FlowEdge) : Prop :=
  ∃ a b hubA hubB,
    crossing visible ve a b ∧ 0 <= a
    ∧ s = Clustered.pairKey a b
    ∧ fe_data ce = ClusterConnector (a, b)
    ∧ hubOf cc grps a hubA ∧ hubOf cc grps b hubB
    ∧ fe_source ce = node_id hubA ∧ fe_target ce = node_id hubB.

(** ** The page around the callback

    The rest of the embedding covers what the page does around
    [processGraphData]: the memos and handlers of the page component
    (module [Page]), the node component (module [AccountNode]), the plain
    network view (module [CleanNetwork]), the canvas with its zoom and its
    cluster memo (module [GraphCanvas]), the timeline (module [Timeline]) and
    the fetch that normalises the response (module [Fetch]).  The
    conventions are the ones above; a computation that calls [Math.random()]
    is a [Grid.Rand]. *)

Module Page.

(** [new Set(xs)], as the list of its elements in insertion order. *)
Definition newSet {A} `{EqDecision A} (xs : list A) : list A :=
  foldl (λ s x, if bool_decide (x ∈ s) then s else s ++ [x]) [] xs.

(** The [clusters] memo: the cluster ids of the payload that are not
    [undefined], each once, in ascending order. *)
Definition clusters (fullData : option GraphData) : list Z :=
  match fullData with
  | Some d =>
      match nodes d with
      | Some ns => Js.sort (λ a b, a - b) (newSet (omap cluster_id ns))
      | None => []
      end
  | None => []
  end.

(** [fullData?.nodes?.filter(n => n.cluster_id === clusterId).length || 0],
    the count shown in the legend beside a cluster. *)
Definition clusterNodeCount (fullData : option GraphData) (clusterId : Z) : nat :=
  match fullData with
  | Some d =>
      match nodes d with
      | Some ns =>
          length (List.filter
                    (λ n, Js.strictEq (cluster_id n) (Some clusterId)) ns)
      | None => 0%nat
      end
  | None => 0%nat
  end.

(** The change handler of the cluster select:
    [setFilters(prev => ({ ...prev, cluster: e.target.value }))].  The value
    of the option made for cluster [c] is [c] turned into a string, the
    value of the first option is the empty string. *)
Definition onClusterChange (value : string) (prev : Filters) : Filters :=
  {| showMuleOnly := showMuleOnly prev;
     minRiskScore := minRiskScore prev;
     cluster := value |}.

(** The effect that lays the graph out again when the filters or the data
    change: [if (fullData) processGraphData(fullData)]. *)
Definition relayout (env : Env) (filters : Filters)
    (fullData : option GraphData) (view : View) : View :=
  match fullData with
  | Some d => Clustered.processGraphData env filters (Some d) view
  | None => view
  end.

(** The [stats] memo of the grid page. *)
Record Stats := {
  totalNodes : nat;
  totalEdges : nat;
  muleAccounts : nat;
  highRiskAccounts : nat;
  clusterCount : nat;
}.

Definition stats (fullData : option GraphData) : option Stats :=
  match fullData with
  | None => None
  | Some d =>
      Some {| totalNodes := length (default [] (nodes d));
              totalEdges := length (default [] (edges d));
              muleAccounts :=
                length (List.filter mule_suspected (default [] (nodes d)));
              highRiskAccounts :=
                length (List.filter (λ n, Qle_bool 70 (risk_score n))
                                    (default [] (nodes d)));
              clusterCount := length (clusters fullData) |}
  end.

End Page.

(** ** The node component of the clustered page *)

Module AccountNode.

(** [data.degree || 0] *)
Definition degree (data : NodeData) : Z := default 0 (nd_degree data).

Record RiskGradient := { from : string; to : string; glow : string }.

Definition getRiskGradient (riskScore : Q) : RiskGradient :=
  if Qle_bool 70 riskScore then
    {| from := "#991b1b"; to := "#ef4444"; glow := "#ef4444" |}
  else if Qle_bool 40 riskScore then
    {| from := "#92400e"; to := "#f59e0b"; glow := "#f59e0b" |}
  else
    {| from := "#065f46"; to := "#10b981"; glow := "#10b981" |}.

Definition colors (data : NodeData) : RiskGradient :=
  getRiskGradient (risk_score (nd_node data)).

(** [Math.min(baseSize + degree * 4, 90)] *)
Definition nodeSize (data : NodeData) : Z :=
  let baseSize := 50 in
  Z.min (baseSize + degree data * 4) 90.

Record PaletteEntry := { bg : string; light : string; name : string }.

Definition clusterPalette : list PaletteEntry :=
  [ {| bg := "#ef4444"; light := "#fef2f2"; name := "Red" |};
    {| bg := "#3b82f6"; light := "#eff6ff"; name := "Blue" |};
    {| bg := "#10b981"; light := "#ecfdf5"; name := "Green" |};
    {| bg := "#f59e0b"; light := "#fffbeb"; name := "Amber" |};
    {| bg := "#8b5cf6"; light := "#f5f3ff"; name := "Purple" |};
    {| bg := "#ec4899"; light := "#fdf2f8"; name := "Pink" |};
    {| bg := "#06b6d4"; light := "#ecfeff"; name := "Cyan" |};
    {| bg := "#84cc16"; light := "#f7fee7"; name := "Lime" |} ].

(** [clusterPalette[(data.cluster_id || 0) % clusterPalette.length]];
    [None] is [undefined], on which the component's reading of [cluster.bg]
    throws. *)
Definition cluster (data : NodeData) : option PaletteEntry :=
  let i := Z.rem (default 0 (cluster_id (nd_node data))) 8 in
  if i <? 0 then None else clusterPalette !! Z.to_nat i.

End AccountNode.

(** ** The plain network view *)

Module CleanNetwork.

(** [{ ...node, type: 'cleanNetwork', data: { ...node.data } }] *)
Definition cleanNode (node : FlowNode) : FlowNode :=
  {| fn_id := fn_id node;
     fn_type := "cleanNetwork";
     fn_position := fn_position node;
     fn_data := fn_data node;
     fn_draggable := fn_draggable node;
     fn_zIndex := fn_zIndex node |}.

Definition cleanNodes (originalNodes : list FlowNode) : list FlowNode :=
  map cleanNode originalNodes.

(** Truthiness of [edge.data?.isHighRisk]: only the data of a payload edge
    has the property. *)
Definition isHighRisk (data : EdgeData) : bool :=
  match data with
  | RawEdge isHighRisk _ _ _ => isHighRisk
  | ClusterConnector _ => false
  | NoData => false
  end.

Definition cleanEdge (edge : FlowEdge) : FlowEdge :=
  let isSuspicious := isHighRisk (fe_data edge) || fe_animated edge in
  {| fe_id := fe_id edge;
     fe_source := fe_source edge;
     fe_target := fe_target edge;
     fe_type := Some "default";
     fe_animated := false;
     fe_style :=
       {| stroke := Some (if isSuspicious then "#ef4444" else "#10b981");
          strokeWidth := if isSuspicious then 2 else 3 # 2;
          opacity := Some (4 # 5);
          strokeDasharray := None |};
     fe_markerColor := Some (if isSuspicious then "#ef4444" else "#10b981");
     fe_data := fe_data edge;
     fe_zIndex := fe_zIndex edge |}.

Definition cleanEdges (originalEdges : list FlowEdge) : list FlowEdge :=
  map cleanEdge originalEdges.

End CleanNetwork.

(** ** The canvas of the clustered page *)

Module GraphCanvas.

(** The viewport of the canvas.  Where it is a piece of state, [None] is
    a viewport with a value that is not finite. *)
Record Viewport := { vp_x : R; vp_y : R; vp_zoom : R }.

(** [n.data?.cluster_id?.toString() === clusterId?.toString()] for the
    string [clusterId] that a navigation button passes. *)
Definition inCluster (clusterId : string) (n : FlowNode) : bool :=
  match cluster_id (nd_node (fn_data n)) with
  | Some c => String.eqb (Js.toString c) clusterId
  | None => false
  end.

(** [Math.min(...xs)] and [Math.max(...xs)]; without arguments they are
    infinite, here [None]. *)
Definition mathMin (xs : list R) : option R :=
  match xs with
  | [] => None
  | x :: xs' => Some (foldl Rmin x xs')
  end.

Definition mathMax (xs : list R) : option R :=
  match xs with
  | [] => None
  | x :: xs' => Some (foldl Rmax x xs')
  end.

(** [handleZoomToCluster(clusterId)], as the viewport after the call. *)
Definition handleZoomToCluster (nodes : list FlowNode) (clusterId : string)
    (viewport : option Viewport) : option Viewport :=
  let clusterNodes := List.filter (inCluster clusterId) nodes in
  if (length clusterNodes =? 0)%nat then viewport
  else
    positions ← mapM fn_position clusterNodes;
    let xs := map fst positions in
    let ys := map snd positions in
    minX ← mathMin xs; maxX ← mathMax xs;
    minY ← mathMin ys; maxY ← mathMax ys;
    let centerX := ((minX + maxX) / 2)%R in
    let centerY := ((minY + maxY) / 2)%R in
    let spread := Rmax (maxX - minX) (maxY - minY) in
    let zoom :=
      if Req_dec_T (spread + 200) 0 then (3 / 2)%R
      else Rmin (3 / 2) (800 / (spread + 200)) in
    Some {| vp_x := (- centerX * zoom + 400)%R;
            vp_y := (- centerY * zoom + 300)%R;
            vp_zoom := zoom |}.

(** An entry of the [clusters] object of the [clusterMetadata] memo; a
    value that is not finite, or a radius not yet set, is [None]. *)
Record ClusterInfo := {
  ci_nodes : list FlowNode;
  ci_centerX : option R;
  ci_centerY : option R;
  ci_color : string;
  ci_radius : option R;
}.

(** [node.data?.cluster_id !== undefined ? node.data.cluster_id : -1] *)
Definition clusterKey (node : FlowNode) : Z :=
  default (-1) (cluster_id (nd_node (fn_data node))).

(** [nodes.reduce((sum, n) => sum + n.position.x, 0) / nodes.length] *)
Definition average (vs : list (option R)) : option R :=
  xs ← mapM Datatypes.id vs;
  if (length xs =? 0)%nat then None
  else Some (foldl Rplus 0 xs / INR (length xs))%R.

Definition xOf (n : FlowNode) : option R := fst <$> fn_position n.
Definition yOf (n : FlowNode) : option R := snd <$> fn_position n.

(** The entry of a cluster after [node] is pushed to it. *)
Definition pushed (node : FlowNode) (c : ClusterInfo) : ClusterInfo :=
  let members := ci_nodes c ++ [node] in
  {| ci_nodes := members;
     ci_centerX := average (map xOf members);
     ci_centerY := average (map yOf members);
     ci_color := ci_color c;
     ci_radius := ci_radius c |}.

(** [node.data?.clusterColor || '#6366f1'] *)
Definition colorOf (node : FlowNode) : string :=
  match nd_clusterColor (fn_data node) with
  | Some c => if Js.truthy c then c else "#6366f1"
  | None => "#6366f1"
  end.

Definition created (node : FlowNode) : ClusterInfo :=
  {| ci_nodes := [];
     ci_centerX := xOf node;
     ci_centerY := yOf node;
     ci_color := colorOf node;
     ci_radius := None |}.

(** One turn of [nodes.forEach]; the list keeps the keys of the object in
    insertion order. *)
Fixpoint addNode (clusterId : Z) (node : FlowNode)
    (clusters : list (Z * ClusterInfo)) : list (Z * ClusterInfo) :=
  match clusters with
  | [] => [(clusterId, pushed node (created node))]
  | (k, c) :: rest =>
      if k =? clusterId then (k, pushed node c) :: rest
      else (k, c) :: addNode clusterId node rest
  end.

(** [Math.sqrt(Math.pow(x - centerX, 2) + Math.pow(y - centerY, 2))] *)
Definition dist (p : R * R) (centerX centerY : R) : R :=
  sqrt ((fst p - centerX) ^ 2 + (snd p - centerY) ^ 2).

(** The radius set by the second pass. *)
Definition withRadius (c : ClusterInfo) : ClusterInfo :=
  {| ci_nodes := ci_nodes c;
     ci_centerX := ci_centerX c;
     ci_centerY := ci_centerY c;
     ci_color := ci_color c;
     ci_radius :=
       centerX ← ci_centerX c; centerY ← ci_centerY c;
       positions ← mapM fn_position (ci_nodes c);
       let maxDist :=
         foldl (λ maxDist p, Rmax maxDist (dist p centerX centerY))
               0%R positions in
       Some (Rmax (maxDist + 50) 100) |}.

Definition clusterMetadata (nodes : list FlowNode) : list (Z * ClusterInfo) :=
  let clusters :=
    foldl (λ clusters node, addNode (clusterKey node) node clusters) [] nodes in
  map (λ kc, (fst kc, withRadius (snd kc))) clusters.

(** The cluster ids of the quick navigation buttons:
    [Object.keys(clusterMetadata).filter(id => id !== '-1').slice(0, 6)]. *)
Definition navigationKeys (nodes : list FlowNode) : list string :=
  take 6
    (List.filter (λ id, negb (String.eqb id "-1"))
       (map (λ kc, Js.toString (fst kc))
            (Js.objectEntries (clusterMetadata nodes)))).

End GraphCanvas.

(** ** The timeline view *)

Module Timeline.

#[local] Notation "'let*' x := m 'in' f" := (Grid.bind m (λ x, f))
  (at level 10, x name, m at level 100, f at level 200).

(** A point of the chart, without its [date], the timestamp formatted for
    display.  [tp_timestamp] is in milliseconds. *)
Record Point := {
  tp_timestamp : Z;
  tp_amount : R;
  tp_risk : Q;
  tp_name : string;
  tp_cluster : option Z;
}.

Record Series := {
  normal : list Point;
  suspicious : list Point;
  mule : list Point;
}.

Definition noSeries : Series := {| normal := []; suspicious := []; mule := [] |}.

(** [Math.floor(x)] *)
Definition floor (x : R) : Z := Int_part x.

(** The point made for [node], [now] being [now.getTime()].  The amount is
    computed in exact arithmetic; the double of the program is this value
    rounded, so its bounds are stated without strictness and for the risk
    scores whose product with 700 a double holds exactly. *)
Definition point (now : Z) (node : Node) : Grid.Rand Point :=
  let* r := Grid.mathRandom in
  let daysAgo := floor (r * 30) in
  let timestamp := now - daysAgo * 24 * 60 * 60 * 1000 in
  let* r' := Grid.mathRandom in
  Grid.ret {| tp_timestamp := timestamp;
              tp_amount := (Q2R (risk_score node) * 700 + r' * 5000)%R;
              tp_risk := risk_score node;
              tp_name := nodeLabel node;
              tp_cluster := cluster_id node |}.

(** One turn of [data.nodes.forEach]. *)
Definition step (now : Z) (s : Series) (node : Node) : Grid.Rand Series :=
  let* p := point now node in
  Grid.ret
    (if mule_suspected node then
       {| normal := normal s; suspicious := suspicious s;
          mule := mule s ++ [p] |}
     else if Qle_bool 50 (risk_score node) then
       {| normal := normal s; suspicious := suspicious s ++ [p];
          mule := mule s |}
     else
       {| normal := normal s ++ [p]; suspicious := suspicious s;
          mule := mule s |}).

(** [xs.forEach(x => ...)] over a state, the calls made in order. *)
Fixpoint forEach {A S} (f : S → A → Grid.Rand S) (s : S) (xs : list A)
  : Grid.Rand S :=
  match xs with
  | [] => Grid.ret s
  | x :: xs' => let* s' := f s x in forEach f s' xs'
  end.

Definition timelineData (now : Z) (data : option GraphData)
  : Grid.Rand Series :=
  match data with
  | Some d =>
      match nodes d with
      | Some ns => forEach (step now) noSeries ns
      | None => Grid.ret noSeries
      end
  | None => Grid.ret noSeries
  end.

End Timeline.

(** ** Fetching the graph *)

Module Fetch.

(** A node of the response, with the properties that the layout reads.
    [None] is a property that is missing or [null]; the id is in its string
    form. *)
Record RawNode := {
  rn_id : string;
  rn_name : option string;
  rn_label : option string;
  rn_risk_score : option Q;
  rn_mule_suspected : option bool;
  rn_cluster_id : option Z;
}.

(** An entry of [mule_accounts].  [ma_id] is [account.id?.toString()];
    [ma_cluster_id] is a number or [undefined]. *)
Record MuleAccount := {
  ma_id : option string;
  ma_account_holder_name : option string;
  ma_composite_risk_score : option Q;
  ma_mule_suspected : option bool;
  ma_cluster_id : option Z;
}.

Record Graph := {
  g_nodes : option (list RawNode);
  g_edges : option (list Edge);
}.

(** [response.data]: [own] holds the [nodes] and [edges] of the payload
    itself. *)
Record Payload := {
  graph_data : option Graph;
  own : Graph;
  mule_accounts : option (list MuleAccount);
}.

(** [{}] *)
Definition noPayload : Payload :=
  {| graph_data := None;
     own := {| g_nodes := None; g_edges := None |};
     mule_accounts := None |}.

(** [new Map(muleAccounts.map(account => [account.id?.toString(), account]))],
    read with the string form of a node id: an account without id is never
    found. *)
Definition muleById (muleAccounts : list MuleAccount)
  : gmap string MuleAccount :=
  foldl (λ m account,
           match ma_id account with
           | Some k => <[k := account]> m
           | None => m
           end)
        ∅ muleAccounts.

(** The operand of [||] when it is a string that is not empty. *)
Definition truthyString (s : option string) : option string :=
  match s with
  | Some x => if Js.truthy x then Some x else None
  | None => None
  end.

Definition normalizeNode (muleById : gmap string MuleAccount) (node : RawNode)
  : Node :=
  let account := muleById !! rn_id node in
  {| node_id := rn_id node;
     node_name :=
       Some (default (String.append "Account " (rn_id node))
               (truthyString (rn_name node)
                ∪ truthyString (account ≫= ma_account_holder_name)
                ∪ truthyString (rn_label node)));
     risk_score :=
       default 0%Q (rn_risk_score node ∪ (account ≫= ma_composite_risk_score));
     mule_suspected :=
       default false (rn_mule_suspected node ∪ (account ≫= ma_mule_suspected));
     cluster_id := rn_cluster_id node ∪ (account ≫= ma_cluster_id) |}.

(** [payload.graph_data || payload] *)
Definition graphData (payload : Payload) : Graph :=
  default (own payload) (graph_data payload).

Definition normalizedData (payload : Payload) : GraphData :=
  let m := muleById (default [] (mule_accounts payload)) in
  {| nodes := Some (map (normalizeNode m)
                        (default [] (g_nodes (graphData payload))));
     edges := Some (default [] (g_edges (graphData payload))) |}.

(** What the call of the API comes to: it throws, or it gives a response
    whose [data] may be missing. *)
Inductive ApiResult :=
| Rejected
| Resolved (data : option Payload).

(** The part of the page state that the fetch writes and the layout
    reads; the geographic data, the cluster pairs and the loading flag are
    left out. *)
Record PageState := {
  fullData : option GraphData;
  view : View;
}.

(** [fetchGraphData()]: the state after the call. *)
Definition fetchGraphData (env : Env) (filters : Filters) (result : ApiResult)
    (st : PageState) : PageState :=
  match result with
  | Rejected => st
  | Resolved data =>
      let payload := default noPayload data in
      let normalized := normalizedData payload in
      {| fullData := Some normalized;
         view := Clustered.processGraphData env filters (Some normalized)
                   (view st) |}
  end.

End Fetch.

(** ** Further notions *)

(** The list is strictly ascending. *)
Fixpoint ascending (l : list Z) : Prop :=
  match l with
  | [] => True
  | x :: l' => Forall (λ y, x < y) l' ∧ ascending l'
  end.

(** No element of the list is greater than an earlier one. *)
Fixpoint nonIncreasing (l : list Z) : Prop :=
  match l with
  | [] => True
  | x :: l' => Forall (λ y, y <= x) l' ∧ nonIncreasing l'
  end.

(** The value of a run of decimal digits read after [acc]. *)
Fixpoint digitsValue (d : Decimal.uint) (acc : Z) : Z :=
  match d with
  | Decimal.Nil => acc
  | Decimal.D0 l => digitsValue l (acc * 10 + 0)
  | Decimal.D1 l => digitsValue l (acc * 10 + 1)
  | Decimal.D2 l => digitsValue l (acc * 10 + 2)
  | Decimal.D3 l => digitsValue l (acc * 10 + 3)
  | Decimal.D4 l => digitsValue l (acc * 10 + 4)
  | Decimal.D5 l => digitsValue l (acc * 10 + 5)
  | Decimal.D6 l => digitsValue l (acc * 10 + 6)
  | Decimal.D7 l => digitsValue l (acc * 10 + 7)
  | Decimal.D8 l => digitsValue l (acc * 10 + 8)
  | Decimal.D9 l => digitsValue l (acc * 10 + 9)
  end.

(** The sum of a list of integers. *)
Definition sumZ (l : list Z) : Z := foldr Z.add 0 l.

(** A node of the canvas at the point [(x, y)], for examples. *)
Definition nodeAt (node : Node) (x y : R) : FlowNode :=
  {| fn_id := node_id node;
     fn_type := "account";
     fn_position := Some (x, y);
     fn_data := {| nd_node := node;
                   nd_label := nodeLabel node;
                   nd_highlighted := false;
                   nd_degree := None;
                   nd_clusterColor := None |};
     fn_draggable := Some true;
     fn_zIndex := None |}.

(** The bucket of the timeline that a node falls in. *)
Inductive Bucket := MuleBucket | SuspiciousBucket | NormalBucket.

Definition bucketOf (node : Node) : Bucket :=
  if mule_suspected node then MuleBucket
  else if Qle_bool 50 (risk_score node) then SuspiciousBucket
  else NormalBucket.

#[global] Instance Bucket_eq_dec : EqDecision Bucket.
Proof. solve_decision. Defined.

(** What a point of the timeline takes from its node. *)
Definition pointOf (node : Node) : string * Q * option Z :=
  (nodeLabel node, risk_score node, cluster_id node).

Definition pointKey (p : Timeline.Point) : string * Q * option Z :=
  (Timeline.tp_name p, Timeline.tp_risk p, Timeline.tp_cluster p).

(** The nodes of the timeline with the points made for them, when the
    generator is read from [cur] on. *)
Definition timelinePoints (now : Z) (rnd : nat → R) (cur : nat)
    (ns : list Node) : list (Node * Timeline.Point) :=
  imap (λ j n, (n, fst (Timeline.point now n rnd (cur + 2 * j)%nat))) ns.

Definition inBucket (b : Bucket) (nps : list (Node * Timeline.Point))
  : list Timeline.Point :=
  map snd (List.filter (λ np, bool_decide (bucketOf (fst np) = b)) nps).

(** The mule account of the response that carries the id [id]: the last
    one of the list, when several do. *)
Definition accountOf (accounts : list Fetch.MuleAccount) (id : string)
  : option Fetch.MuleAccount :=
  last (List.filter (λ a, bool_decide (Fetch.ma_id a = Some id)) accounts).

(** * Properties *)

(** ** Sanity checks of the primitives *)

Example toString_neg : Js.toString (-12) = "-12".
Proof. reflexivity. Qed.

Example split_neg_pair : Js.split "-" "-1-2" = [""; "1"; "2"].
Proof. reflexivity. Qed.

Example number_empty : Js.Number "" = Some 0.
Proof. reflexivity. Qed.

Example parseInt_examples :
  Js.parseInt "12" = Some 12 ∧ Js.parseInt "-1" = Some (-1) ∧
  Js.parseInt "" = None ∧ Js.parseInt " 7px" = Some 7 ∧
  Js.parseInt "0x1f" = Some 31.
Proof. repeat split; reflexivity. Qed.

Example sort_stable :
  Js.sort (λ a b : Z * Z, fst b - fst a) [(1, 0); (2, 1); (1, 2); (2, 3)]
  = [(2, 1); (2, 3); (1, 0); (1, 2)].
Proof. reflexivity. Qed.

Example objectEntries_order :
  Js.objectEntries [(-1, "u"); (5, "a"); (-3, "b"); (2, "c")]
  = [(2, "c"); (5, "a"); (-1, "u"); (-3, "b")].
Proof. reflexivity. Qed.

(** ** Generic list facts *)

Lemma elem_of_List_filter {A} (f : A → bool) (l : list A) (x : A) :
  x ∈ List.filter f l ↔ x ∈ l ∧ f x = true.
Proof. rewrite !list_elem_of_In. apply filter_In. Qed.

Lemma sublist_List_filter {A} (f : A → bool) (l : list A) :
  sublist (List.filter f l) l.
Proof.
  induction l as [|x l IH]; simpl; [constructor|].
  destruct (f x); by constructor.
Qed.

Lemma truthy_spec (s : string) : Js.truthy s = true ↔ s ≠ "".
Proof.
  unfold Js.truthy. destruct (String.eqb_spec s ""); simpl; split; congruence.
Qed.

Lemma strictEq_spec (a b : option Z) :
  Js.strictEq a b = true ↔ ∃ c, a = Some c ∧ b = Some c.
Proof.
  destruct a as [x|], b as [y|]; simpl;
    try (split; [discriminate | intros (c & ? & ?); discriminate]).
  rewrite Z.eqb_eq. split.
  - intros ->. eauto.
  - intros (c & ? & ?). congruence.
Qed.

(** ** The filter *)

Lemma nodeFilter_spec (filters : Filters) (node : Node) :
  nodeFilter filters node = true ↔
    (showMuleOnly filters = true → mule_suspected node = true)
    ∧ (minRiskScore filters <= risk_score node)%Q
    ∧ (cluster filters ≠ "" →
       ∃ c, Js.parseInt (cluster filters) = Some c ∧ cluster_id node = Some c).
Proof.
  unfold nodeFilter.
  destruct (showMuleOnly filters) eqn:Hs, (mule_suspected node) eqn:Hm; simpl.
  all: destruct (Qlt_le_dec (risk_score node) (minRiskScore filters)) as [Hlt|Hle].
  all: destruct (Js.truthy (cluster filters)) eqn:Ht; simpl.
  all: try destruct (Js.strictEq _ _) eqn:He; simpl.
  all: try apply truthy_spec in Ht.
  all: try apply strictEq_spec in He.
  all: try (assert (Hemp : cluster filters = "")
              by (destruct (decide (cluster filters = "")) as [|Hn];
                  [done | apply truthy_spec in Hn; congruence])).
  all: split; try discriminate; try done.
  all: try (intros (H1 & H2 & H3); try (by specialize (H1 eq_refl));
            try (by apply Qlt_not_le in Hlt)).
  all: try (intros _; repeat split; try done; try congruence).
  all: try (destruct He as (c & ? & ?); intros _; by exists c).
  all: try (destruct (H3 Ht) as (c & ? & ?);
            assert (Js.strictEq (cluster_id node) (Js.parseInt (cluster filters)) = true)
              by (apply strictEq_spec; eauto); congruence).
Qed.

(** C2. Every visible node meets the three conditions of the filter and
    every node of the payload that meets them is visible, in payload
    order; with [minRiskScore = 70], nodes scoring 10, 75 and 90 leave
    exactly the two scoring 75 and 90; the visible edges are the payload's
    edges whose two endpoints are ids of visible nodes, in payload order. *)
Theorem filter_correct (filters : Filters) (ns : list Node) (es : list Edge) :
  let vn := Clustered.visibleNodes filters ns in
  let ve := Clustered.visibleEdges filters ns es in
  (∀ n, n ∈ vn ↔
        n ∈ ns
        ∧ (minRiskScore filters <= risk_score n)%Q
        ∧ (showMuleOnly filters = true → mule_suspected n = true)
        ∧ (cluster filters ≠ "" →
           ∃ c, Js.parseInt (cluster filters) = Some c ∧ cluster_id n = Some c))
  ∧ sublist vn ns
  ∧ (∀ a b c,
       (risk_score a == 10)%Q → (risk_score b == 75)%Q → (risk_score c == 90)%Q →
       Clustered.visibleNodes
         {| showMuleOnly := false; minRiskScore := 70; cluster := "" |} [a; b; c]
       = [b; c])
  ∧ (∀ e, e ∈ ve ↔
        e ∈ es
        ∧ (∃ n, n ∈ vn ∧ node_id n = source e)
        ∧ (∃ n, n ∈ vn ∧ node_id n = target e))
  ∧ sublist ve es.
Proof.
  intros vn ve. split; [|split; [|split; [|split]]].
  - intros n. unfold vn, Clustered.visibleNodes, Clustered.filteredNodes.
    rewrite elem_of_List_filter, nodeFilter_spec. tauto.
  - apply sublist_List_filter.
  - intros a b c Ha Hb Hc. unfold Clustered.visibleNodes, Clustered.filteredNodes.
    simpl. unfold nodeFilter; simpl.
    destruct (Qlt_le_dec (risk_score a) 70) as [_|H]; [|rewrite Ha in H; by compute in H].
    destruct (Qlt_le_dec (risk_score b) 70) as [H|_]; [rewrite Hb in H; by compute in H|].
    destruct (Qlt_le_dec (risk_score c) 70) as [H|_]; [rewrite Hc in H; by compute in H|].
    done.
  - intros e. unfold ve, Clustered.visibleEdges, Clustered.filteredEdges.
    rewrite elem_of_List_filter, andb_true_iff, !bool_decide_eq_true.
    unfold Clustered.nodeIds. rewrite !elem_of_list_to_set, !list_elem_of_fmap.
    fold vn. split.
    + intros (? & (n1 & ? & ?) & (n2 & ? & ?)). eauto 10.
    + intros (? & (n1 & ? & ?) & (n2 & ? & ?)). eauto 10.
  - apply sublist_List_filter.
Qed.

(** ** Degrees *)

Lemma degree_step (cc : gmap string Z) (e : Edge) (id : string) :
  let cc1 := <[source e := default 0 (cc !! source e) + 1]> cc in
  Clustered.degree (<[target e := default 0 (cc1 !! target e) + 1]> cc1) id
  = Clustered.degree cc id
    + (if bool_decide (source e = id) then 1 else 0)
    + (if bool_decide (target e = id) then 1 else 0).
Proof.
  intros cc1. unfold Clustered.degree, cc1.
  destruct (decide (source e = id)) as [Hs|Hs],
           (decide (target e = id)) as [Ht|Ht].
  - rewrite Ht, Hs, !lookup_insert_eq.
    rewrite !bool_decide_eq_true_2 by done. simpl. lia.
  - rewrite Hs, (lookup_insert_ne _ (target e)), !lookup_insert_eq by done.
    rewrite bool_decide_eq_true_2, bool_decide_eq_false_2 by done. simpl. lia.
  - rewrite Ht, lookup_insert_eq, (lookup_insert_ne _ (source e)) by done.
    rewrite bool_decide_eq_false_2, bool_decide_eq_true_2 by done. simpl. lia.
  - rewrite !lookup_insert_ne by done.
    rewrite !bool_decide_eq_false_2 by done. simpl. lia.
Qed.

Lemma degree_foldl (es : list Edge) (cc : gmap string Z) (id : string) :
  Clustered.degree
    (foldl (λ cc edge,
              let src := source edge in
              let tgt := target edge in
              let cc := <[src := default 0 (cc !! src) + 1]> cc in
              <[tgt := default 0 (cc !! tgt) + 1]> cc) cc es) id
  = Clustered.degree cc id + Z.of_nat (edgesFrom id es) + Z.of_nat (edgesInto id es).
Proof.
  revert cc. induction es as [|e es IH]; intros cc.
  - unfold edgesFrom, edgesInto. simpl. lia.
  - simpl foldl. rewrite IH. cbv zeta. rewrite degree_step.
    unfold edgesFrom, edgesInto. simpl.
    repeat case_bool_decide; simpl; lia.
Qed.

Lemma touching_loops (id : string) (es : list Edge) :
  (edgesFrom id es + edgesInto id es = edgesTouching id es + selfLoopsAt id es)%nat.
Proof.
  unfold edgesFrom, edgesInto, edgesTouching, selfLoopsAt.
  induction es as [|e es IH]; simpl; [done|].
  repeat case_bool_decide; simpl; lia.
Qed.

(** ** The stable sort and the two hub computations *)

Section FirstMax.
Context {A : Type} (key : A → Z).

Lemma firstMax_unique (h h' : A) (l : list A) :
  firstMax key h l → firstMax key h' l → h = h'.
Proof.
  intros (pre & post & -> & Hpre & Hpost) (pre' & post' & Heq & Hpre' & Hpost').
  destruct (Nat.lt_trichotomy (length pre) (length pre')) as [Hlt|[Hlen|Hlt]].
  - (* h lies in pre' *)
    assert (Hh : (pre ++ h :: post) !! length pre = Some h)
      by (by rewrite list_lookup_middle).
    rewrite Heq, lookup_app_l in Hh by done.
    apply list_elem_of_lookup_2 in Hh.
    rewrite Forall_forall in Hpre'. apply Hpre' in Hh.
    assert (Hh' : (pre' ++ h' :: post') !! length pre' = Some h')
      by (by rewrite list_lookup_middle).
    rewrite <- Heq in Hh'.
    rewrite lookup_app_r, lookup_cons_ne_0 in Hh' by lia.
    apply list_elem_of_lookup_2 in Hh'.
    rewrite Forall_forall in Hpost. apply Hpost in Hh'. lia.
  - assert (Hh : (pre ++ h :: post) !! length pre = Some h)
      by (by rewrite list_lookup_middle).
    rewrite Heq, Hlen, list_lookup_middle in Hh by done. congruence.
  - assert (Hh' : (pre' ++ h' :: post') !! length pre' = Some h')
      by (by rewrite list_lookup_middle).
    rewrite <- Heq, lookup_app_l in Hh' by done.
    apply list_elem_of_lookup_2 in Hh'.
    rewrite Forall_forall in Hpre. apply Hpre in Hh'.
    assert (Hh : (pre ++ h :: post) !! length pre = Some h)
      by (by rewrite list_lookup_middle).
    rewrite Heq in Hh.
    rewrite lookup_app_r, lookup_cons_ne_0 in Hh by lia.
    apply list_elem_of_lookup_2 in Hh.
    rewrite Forall_forall in Hpost'. apply Hpost' in Hh. lia.
Qed.

Lemma firstMax_elem (h : A) (l : list A) : firstMax key h l → h ∈ l.
Proof. intros (pre & post & -> & _). set_solver. Qed.

Lemma firstMax_max (h : A) (l : list A) :
  firstMax key h l → Forall (λ m, key m <= key h) l.
Proof.
  intros (pre & post & -> & Hpre & Hpost).
  apply Forall_app. split.
  - eapply Forall_impl; [exact Hpre|]. simpl. intros. lia.
  - constructor; [lia | done].
Qed.

Lemma sortInsert_head (x : A) (l : list A) :
  head (Js.sortInsert (descending key) x l)
  = Some (match head l with
          | None => x
          | Some y => if key y <=? key x then x else y
          end).
Proof.
  destruct l as [|y l]; simpl; [done|]. unfold descending.
  destruct (key y - key x <=? 0) eqn:H1, (key y <=? key x) eqn:H2; simpl; try done; lia.
Qed.

Lemma sortInsert_Permutation (cmp : A → A → Z) (x : A) (l : list A) :
  Js.sortInsert cmp x l ≡ₚ x :: l.
Proof.
  induction l as [|y l IH]; simpl; [done|].
  destruct (cmp x y <=? 0); [done|].
  rewrite IH. apply perm_swap.
Qed.

Lemma sort_Permutation (cmp : A → A → Z) (l : list A) : Js.sort cmp l ≡ₚ l.
Proof.
  induction l as [|x l IH]; simpl; [done|].
  rewrite sortInsert_Permutation. by rewrite IH.
Qed.

Lemma sort_length (cmp : A → A → Z) (l : list A) :
  length (Js.sort cmp l) = length l.
Proof. apply Permutation_length, sort_Permutation. Qed.

(** The first element of the stable (descending key) sort. *)
Lemma sort_head_firstMax (l : list A) :
  l ≠ [] → ∃ h, head (Js.sort (descending key) l) = Some h ∧ firstMax key h l.
Proof.
  induction l as [|x l IH]; [done|]. intros _.
  simpl. rewrite sortInsert_head.
  destruct l as [|y l].
  - simpl. exists x. split; [done|]. exists [], []. by repeat constructor.
  - destruct IH as (h & Hh & pre & post & Heq & Hpre & Hpost); [done|].
    simpl in Hh|-*. rewrite Hh.
    destruct (key h <=? key x) eqn:Hc.
    + exists x. split; [done|]. exists [], (y :: l).
      split; [done|]. split; [constructor|].
      rewrite Heq. apply Forall_app. split.
      * eapply Forall_impl; [exact Hpre|]. simpl. intros. lia.
      * constructor; [lia|]. eapply Forall_impl; [exact Hpost|]. simpl. intros. lia.
    + exists h. split; [done|]. exists (x :: pre), post.
      split; [by rewrite Heq|]. split; [|done].
      constructor; [lia | done].
Qed.

Lemma scanMax_firstMax (first : A) (l : list A) :
  firstMax key (scanMax key first l) (first :: l).
Proof.
  unfold scanMax. induction l as [|z l IH] using rev_ind.
  - simpl. exists [], []. by repeat constructor.
  - rewrite foldl_app. simpl.
    destruct IH as (pre & post & Heq & Hpre & Hpost).
    set (r := foldl _ first l) in *.
    destruct (key z >? key r) eqn:Hc.
    + exists (first :: l), []. split; [done|]. split; [|constructor].
      rewrite Heq. apply Forall_app. split.
      * eapply Forall_impl; [exact Hpre|]. simpl. intros. lia.
      * constructor; [lia|]. eapply Forall_impl; [exact Hpost|]. simpl. intros. lia.
    + exists pre, (post ++ [z]). split.
      * rewrite app_comm_cons, Heq. by rewrite <- app_assoc.
      * split; [done|]. apply Forall_app. split; [done|].
        constructor; [lia | constructor].
Qed.

Lemma scanMax_self (first : A) (l : list A) :
  scanMax key first (first :: l) = scanMax key first l.
Proof.
  unfold scanMax. simpl.
  by replace (key first >? key first) with false by lia.
Qed.

End FirstMax.

(** ** Grouping by cluster *)

Lemma Permutation_concat {A} (ls ls' : list (list A)) :
  ls ≡ₚ ls' → concat ls ≡ₚ concat ls'.
Proof.
  induction 1 as [|l ls ls' _ IH|l1 l2 ls|ls1 ls2 ls3 _ IH1 _ IH2]; simpl.
  - done.
  - by rewrite IH.
  - rewrite !app_assoc. f_equiv. apply Permutation_app_comm.
  - by rewrite IH1.
Qed.

Lemma List_filter_split_Permutation {A} (f : A → bool) (l : list A) :
  List.filter f l ++ List.filter (λ x, negb (f x)) l ≡ₚ l.
Proof.
  induction l as [|x l IH]; simpl; [done|].
  destruct (f x); simpl.
  - by rewrite IH.
  - rewrite <- Permutation_middle. by rewrite IH.
Qed.

Lemma objectEntries_Permutation {A} (o : list (Z * A)) : Js.objectEntries o ≡ₚ o.
Proof.
  unfold Js.objectEntries. rewrite sort_Permutation.
  apply List_filter_split_Permutation.
Qed.

Lemma pushNode_concat (k : Z) (n : Node) (g : list (Z * list Node)) :
  concat (map snd (Clustered.pushNode k n g)) ≡ₚ n :: concat (map snd g).
Proof.
  induction g as [|[k' ms] g IH]; simpl; [done|].
  destruct (k' =? k); simpl.
  - rewrite <- app_assoc. simpl. by rewrite <- Permutation_middle.
  - rewrite IH. by rewrite <- Permutation_middle.
Qed.

Lemma clusterGroups_Permutation (l : list Node) :
  concat (map snd (Clustered.clusterGroups l)) ≡ₚ l.
Proof.
  unfold Clustered.clusterGroups.
  induction l as [|n l IH] using rev_ind; [done|].
  rewrite foldl_app. simpl. rewrite pushNode_concat, IH.
  by rewrite <- Permutation_cons_append.
Qed.

(** ** Positions are finite *)

Lemma nodesInRing_bounds (clusterSize idx : Z) :
  0 <= idx < clusterSize → ¬ (idx = 0 ∧ clusterSize > 1) →
  1 <= Clustered.nodesInRing clusterSize idx <= 8.
Proof.
  intros Hidx Hhub. unfold Clustered.nodesInRing, Clustered.ring.
  destruct (decide (idx = 0)) as [->|Hne].
  - assert (clusterSize = 1) as -> by lia. by compute.
  - pose proof (Z.div_mod (idx - 1) 8 ltac:(lia)) as Hdm.
    pose proof (Z.mod_pos_bound (idx - 1) 8 ltac:(lia)) as Hmod.
    lia.
Qed.

Lemma clusterCenter_finite (numClusters clusterIdx clusterSize : Z) :
  ∃ c, Clustered.clusterCenter numClusters clusterIdx clusterSize = Some c.
Proof.
  unfold Clustered.clusterCenter, Js.div.
  destruct (Z.max numClusters 1 =? 0) eqn:H; [lia|]. simpl. eauto.
Qed.

Lemma nodePosition_finite (center : R * R) (clusterSize idx : Z) :
  0 <= idx < clusterSize →
  ∃ x y, Clustered.nodePosition center clusterSize idx = Some (x, y).
Proof.
  intros Hidx. unfold Clustered.nodePosition.
  destruct ((idx =? 0) && (clusterSize >? 1)) eqn:Hhub.
  - destruct center as [cx cy]. eauto.
  - unfold Js.div.
    pose proof (nodesInRing_bounds clusterSize idx Hidx) as Hb.
    destruct (Clustered.nodesInRing clusterSize idx =? 0) eqn:H0; simpl; [|eauto].
    apply andb_false_iff in Hhub. lia.
Qed.

Lemma layoutCluster_lookup env cc numClusters clusterIdx ms (i : nat) fn :
  Clustered.layoutCluster env cc numClusters clusterIdx ms !! i = Some fn →
  ∃ node, Clustered.sortedNodes cc ms !! i = Some node
          ∧ fn_id fn = node_id node
          ∧ nd_node (fn_data fn) = node
          ∧ nd_degree (fn_data fn) = Some (Clustered.degree cc (node_id node))
          ∧ fn_position fn =
              (c ← Clustered.clusterCenter numClusters clusterIdx
                     (Z.of_nat (length ms));
               Clustered.nodePosition c (Z.of_nat (length ms)) (Z.of_nat i)).
Proof.
  unfold Clustered.layoutCluster. rewrite list_lookup_imap.
  destruct (Clustered.sortedNodes cc ms !! i) as [node|]; simpl; [|done].
  intros [= <-]. by exists node.
Qed.

Lemma layoutCluster_nodes env cc numClusters clusterIdx ms :
  map (λ fn, nd_node (fn_data fn))
      (Clustered.layoutCluster env cc numClusters clusterIdx ms)
  = Clustered.sortedNodes cc ms.
Proof.
  unfold Clustered.layoutCluster.
  change (map ?f ?l) with (f <$> l). rewrite fmap_imap.
  unfold compose. simpl.
  rewrite (imap_const (λ x, x)). apply list_fmap_id.
Qed.

Lemma layoutCluster_finite env cc numClusters clusterIdx ms :
  Forall (λ fn, ∃ x y, fn_position fn = Some (x, y))
         (Clustered.layoutCluster env cc numClusters clusterIdx ms).
Proof.
  apply Forall_lookup. intros i fn Hfn.
  apply layoutCluster_lookup in Hfn as (node & Hnode & _ & _ & _ & ->).
  apply lookup_lt_Some in Hnode.
  unfold Clustered.sortedNodes in Hnode. rewrite sort_length in Hnode.
  destruct (clusterCenter_finite numClusters clusterIdx (Z.of_nat (length ms)))
    as [c ->]. simpl.
  apply nodePosition_finite. lia.
Qed.

Lemma flowNodes_nodes env cc (g : list (Z * list Node)) :
  map (λ fn, nd_node (fn_data fn)) (Clustered.flowNodes env cc g)
  ≡ₚ concat (map snd g).
Proof.
  unfold Clustered.flowNodes.
  set (K := Z.of_nat (length (Js.objectEntries g))). clearbody K.
  rewrite <- (Permutation_concat _ _
               (Permutation_map snd (objectEntries_Permutation g))).
  generalize (Js.objectEntries g) as entries. intros entries.
  generalize 0%nat as base.
  assert (Hgen : ∀ base,
    map (λ fn, nd_node (fn_data fn))
        (concat (imap (λ clusterIdx entry,
                         Clustered.layoutCluster env cc K
                           (Z.of_nat (base + clusterIdx)) (snd entry)) entries))
    ≡ₚ concat (map snd entries)).
  { induction entries as [|[k ms] entries IH]; intros base; simpl; [done|].
    rewrite map_app, layoutCluster_nodes.
    unfold Clustered.sortedNodes. rewrite sort_Permutation. f_equiv.
    rewrite <- (IH (S base)).
    erewrite imap_ext; [reflexivity|].
    intros i x _. simpl. do 2 f_equal. lia. }
  intros base. apply (Hgen 0%nat).
Qed.

Lemma flowNodes_Forall env cc (g : list (Z * list Node)) (P : FlowNode → Prop) :
  (∀ K k ms, Forall P (Clustered.layoutCluster env cc K k ms)) →
  Forall P (Clustered.flowNodes env cc g).
Proof.
  intros H. unfold Clustered.flowNodes. apply Forall_concat, Forall_lookup.
  intros i l Hl. apply list_lookup_imap_Some in Hl as (y & _ & ->). apply H.
Qed.

Lemma layoutCluster_ids env cc K k ms :
  Forall (λ fn, fn_id fn = node_id (nd_node (fn_data fn)))
         (Clustered.layoutCluster env cc K k ms).
Proof.
  apply Forall_lookup. intros i fn Hfn.
  apply layoutCluster_lookup in Hfn as (node & _ & -> & -> & _). done.
Qed.

Lemma flowNodes_ids env cc (g : list (Z * list Node)) :
  map fn_id (Clustered.flowNodes env cc g)
  = map node_id (map (λ fn, nd_node (fn_data fn)) (Clustered.flowNodes env cc g)).
Proof.
  rewrite map_map. apply map_ext_Forall.
  apply flowNodes_Forall. intros. apply layoutCluster_ids.
Qed.

(** C1. The nodes of the layout are the visible nodes, each as often as it
    is visible: the ids of the position map are the ids of the visible
    nodes, each exactly once when the visible ids are distinct.  Every
    position is a pair of finite numbers, and where the ring arithmetic
    runs (any index of a cluster but the centre slot of a cluster of two or
    more) the divisor [nodesInRing] lies between 1 and 8. *)
Theorem positions_complete_finite (env : Env) (filters : Filters)
    (ns : list Node) (es : list Edge) :
  let out := Clustered.layoutNodes env filters ns es in
  let visible := Clustered.visibleNodes filters ns in
  map (λ fn, nd_node (fn_data fn)) out ≡ₚ visible
  ∧ map fn_id out ≡ₚ map node_id visible
  ∧ (NoDup (map node_id visible) →
     NoDup (map fn_id out)
     ∧ ∀ n, n ∈ visible → length (List.filter (λ fn, String.eqb (fn_id fn) (node_id n)) out) = 1%nat)
  ∧ Forall (λ fn, ∃ x y, fn_position fn = Some (x, y)) out
  ∧ (∀ clusterSize idx,
       0 <= idx < clusterSize → ¬ (idx = 0 ∧ clusterSize > 1) →
       1 <= Clustered.nodesInRing clusterSize idx <= 8).
Proof.
  intros out visible.
  assert (Hnodes : map (λ fn, nd_node (fn_data fn)) out ≡ₚ visible).
  { unfold out, Clustered.layoutNodes. rewrite flowNodes_nodes.
    apply clusterGroups_Permutation. }
  assert (Hids : map fn_id out ≡ₚ map node_id visible).
  { unfold out, Clustered.layoutNodes. rewrite flowNodes_ids.
    apply Permutation_map. exact Hnodes. }
  split; [done|]. split; [done|]. split; [|split].
  - intros Hnd. split.
    + by rewrite Hids.
    + intros n Hn.
      assert (Hcount : ∀ l : list string, NoDup l → node_id n ∈ l →
                length (List.filter (λ i, String.eqb i (node_id n)) l) = 1%nat).
      { clear. induction l as [|i l IH]; intros Hnd Hin; [by apply elem_of_nil in Hin|].
        apply NoDup_cons in Hnd as [Hni Hnd]. simpl.
        destruct (String.eqb_spec i (node_id n)) as [->|Hne]; simpl.
        - f_equal. apply length_zero_iff_nil.
          destruct (List.filter _ l) as [|j l'] eqn:Hf; [done|].
          assert (Hj : j ∈ List.filter (λ i, String.eqb i (node_id n)) l)
            by (rewrite Hf; left).
          apply elem_of_List_filter in Hj as [Hj Heq].
          apply String.eqb_eq in Heq. by subst.
        - apply IH; [done|]. apply elem_of_cons in Hin as [?|?]; [congruence | done]. }
      assert (Hlen : ∀ (l : list FlowNode),
                length (List.filter (λ fn, String.eqb (fn_id fn) (node_id n)) l)
                = length (List.filter (λ i, String.eqb i (node_id n)) (map fn_id l))).
      { clear. induction l as [|fn l IH]; simpl; [done|].
        destruct (String.eqb _ _); simpl; by rewrite IH. }
      rewrite Hlen. apply Hcount.
      * by rewrite Hids.
      * rewrite Hids. by apply (list_elem_of_fmap_2 node_id).
  - apply flowNodes_Forall. intros. apply layoutCluster_finite.
  - apply nodesInRing_bounds.
Qed.

(** ** Degrees of the visible nodes *)

(** C7, as the code has it. For a node id that names no property of
    [Object.prototype], the degree of the node is the number of
    visible-edge endpoints at the node: the visible edges that leave it plus
    those that enter it.  This is the number of visible edges touching the
    node plus the number of visible self-loops on it, so a self-loop adds two
    and, where the node has no self-loop, the degree is the number of
    visible edges touching it.  Whatever the edges, self-loops included,
    every node of the layout has a finite position, and it carries this
    degree when its id names no property of [Object.prototype]. *)
Theorem degree_counts_endpoints (env : Env) (filters : Filters) (ns : list Node)
    (es : list Edge) (id : string) :
  Js.ordinaryKey id →
  let ve := Clustered.visibleEdges filters ns es in
  let cc := Clustered.counts filters ns es in
  let d := Clustered.degree cc id in
  d = Z.of_nat (edgesFrom id ve) + Z.of_nat (edgesInto id ve)
  ∧ d = Z.of_nat (edgesTouching id ve) + Z.of_nat (selfLoopsAt id ve)
  ∧ (selfLoopsAt id ve = 0%nat → d = Z.of_nat (edgesTouching id ve))
  ∧ Forall (λ fn, (∃ x y, fn_position fn = Some (x, y))
                  ∧ (Js.ordinaryKey (fn_id fn) →
                     nd_degree (fn_data fn)
                     = Some (Clustered.degree cc (fn_id fn))))
           (Clustered.layoutNodes env filters ns es).
Proof.
  intros _ ve cc d.
  assert (Hd : d = Z.of_nat (edgesFrom id ve) + Z.of_nat (edgesInto id ve)).
  { unfold d, cc, Clustered.counts, Clustered.connectionCount. fold ve.
    rewrite degree_foldl. unfold Clustered.degree. rewrite lookup_empty. simpl. lia. }
  pose proof (touching_loops id ve) as Ht.
  split; [done|]. split; [lia|]. split; [intros H0; lia|].
  apply flowNodes_Forall. intros K k ms. apply Forall_lookup. intros i fn Hfn.
  split.
  - pose proof (layoutCluster_finite env (Clustered.counts filters ns es) K k ms) as Hfin.
    rewrite Forall_lookup in Hfin. by apply (Hfin i).
  - intros _.
    apply layoutCluster_lookup in Hfn as (node & _ & -> & _ & -> & _). done.
Qed.

(** C7, at a node with one edge to another node and a self-loop. *)
Lemma degree_counts_endpoints_witness :
  let ns := [mkNode "a" 0 false (Some 0); mkNode "b" 0 false (Some 0)] in
  let es := [mkEdge "a" "b"; mkEdge "a" "a"] in
  let ve := Clustered.visibleEdges noFilter ns es in
  Js.ordinaryKey "a"
  ∧ Clustered.degree (Clustered.counts noFilter ns es) "a"
    = Z.of_nat (edgesTouching "a" ve) + Z.of_nat (selfLoopsAt "a" ve).
Proof.
  intros ns es ve.
  assert (Ha : Js.ordinaryKey "a")
    by (apply (bool_decide_unpack _); vm_compute; exact I).
  split; [exact Ha|].
  destruct (degree_counts_endpoints noEnv noFilter ns es "a" Ha)
    as (_ & H & _).
  exact H.
Defined.

(** C7, counterexample: a single node with a self-loop.  One visible edge
    touches the node, and its degree is 2. *)
Lemma selfloop_counted_twice :
  let a := mkNode "a" 0 false (Some 0) in
  let es := [mkEdge "a" "a"] in
  Clustered.visibleNodes noFilter [a] = [a]
  ∧ Clustered.visibleEdges noFilter [a] es = es
  ∧ edgesTouching "a" (Clustered.visibleEdges noFilter [a] es) = 1%nat
  ∧ Clustered.degree (Clustered.counts noFilter [a] es) "a" = 2
  ∧ map (λ fn, nd_degree (fn_data fn)) (Clustered.layoutNodes noEnv noFilter [a] es)
    = [Some 2].
Proof. repeat split; reflexivity. Qed.

(** ** The groups are the clusters of the visible nodes *)

Lemma pushNode_keys (k : Z) (n : Node) (g : list (Z * list Node)) :
  map fst (Clustered.pushNode k n g)
  = if bool_decide (k ∈ map fst g) then map fst g else map fst g ++ [k].
Proof.
  induction g as [|[k' ms] g IH].
  - done.
  - cbn [Clustered.pushNode map fst].
    destruct (Z.eqb_spec k' k) as [->|Hne]; cbn [map fst].
    + rewrite bool_decide_eq_true_2; [done | left].
    + rewrite IH. destruct (decide (k ∈ map fst g)) as [Hin|Hin].
      * rewrite !bool_decide_eq_true_2; [done | by right | done].
      * rewrite !bool_decide_eq_false_2; [done | | done].
        rewrite not_elem_of_cons. split; [congruence | done].
Qed.

Lemma pushNode_elem (k : Z) (n : Node) (g : list (Z * list Node)) k' ms' :
  NoDup (map fst g) → (k', ms') ∈ Clustered.pushNode k n g →
  (k' ≠ k ∧ (k', ms') ∈ g)
  ∨ (k' = k ∧ ((∃ ms, (k, ms) ∈ g ∧ ms' = ms ++ [n])
               ∨ ((k ∉ map fst g) ∧ ms' = [n]))).
Proof.
  induction g as [|[k0 ms0] g IH]; simpl; intros Hnd Hin.
  - apply list_elem_of_singleton in Hin as [= -> ->].
    right. split; [done|]. right. split; [apply not_elem_of_nil | done].
  - apply NoDup_cons in Hnd as [Hk0 Hnd].
    destruct (Z.eqb_spec k0 k) as [->|Hne].
    + apply elem_of_cons in Hin as [[= -> ->]|Hin].
      * right. split; [done|]. left. exists ms0. split; [left | done].
      * left. split; [|by right]. intros ->. apply Hk0.
        by apply (list_elem_of_fmap_2 fst) in Hin.
    + apply elem_of_cons in Hin as [[= -> ->]|Hin].
      * left. split; [done | left].
      * destruct (IH Hnd Hin) as [[? ?]|[-> [(ms & ? & ->)|[? ->]]]].
        -- left. split; [done | by right].
        -- right. split; [done|]. left. exists ms. split; [by right | done].
        -- right. split; [done|]. right. split; [|done].
           rewrite not_elem_of_cons. split; [congruence | done].
Qed.

Lemma List_filter_app {A} (f : A → bool) (l1 l2 : list A) :
  List.filter f (l1 ++ l2) = List.filter f l1 ++ List.filter f l2.
Proof. apply List.filter_app. Qed.

Lemma List_filter_nil {A} (f : A → bool) (l : list A) :
  (∀ x, x ∈ l → f x = false) → List.filter f l = [].
Proof.
  induction l as [|x l IH]; intros H; simpl; [done|].
  rewrite (H x) by left. apply IH. intros y Hy. apply H. by right.
Qed.

Lemma clusterGroups_inv (l : list Node) :
  let g := Clustered.clusterGroups l in
  NoDup (map fst g)
  ∧ (∀ n, n ∈ l → Clustered.groupKey n ∈ map fst g)
  ∧ (∀ k ms, (k, ms) ∈ g →
       ms ≠ [] ∧ ms = List.filter (λ n, Clustered.groupKey n =? k) l).
Proof.
  unfold Clustered.clusterGroups.
  induction l as [|n l (Hnd & Hcov & Hgrp)] using rev_ind.
  - simpl. split; [constructor|]. split; intros ? Hin.
    + by apply elem_of_nil in Hin.
    + intros Hin'. by apply elem_of_nil in Hin'.
  - rewrite foldl_app. simpl.
    set (g := foldl _ [] l) in *. set (k := Clustered.groupKey n).
    assert (Hkeys := pushNode_keys k n g).
    split; [|split].
    + rewrite Hkeys. case_bool_decide as Hin; [done|].
      apply NoDup_app. split; [done|]. split; [|apply NoDup_singleton].
      intros x Hx Hx'. apply list_elem_of_singleton in Hx'. by subst.
    + intros n' Hn'. rewrite Hkeys.
      apply elem_of_app in Hn' as [Hn'|Hn'].
      * case_bool_decide; [by apply Hcov|]. apply elem_of_app. left. by apply Hcov.
      * apply list_elem_of_singleton in Hn' as ->. fold k.
        case_bool_decide; [done|]. apply elem_of_app. right. left.
    + intros k' ms' Hin. rewrite List_filter_app. simpl. fold k.
      apply pushNode_elem in Hin; [|done].
      destruct Hin as [[Hne Hin]|[-> [(ms & Hin & ->)|[Hnin ->]]]].
      * destruct (Hgrp _ _ Hin) as [? ->]. split; [done|].
        destruct (Z.eqb_spec k k'); [congruence|]. by rewrite app_nil_r.
      * destruct (Hgrp _ _ Hin) as [? <-]. rewrite Z.eqb_refl.
        split; [|done]. by destruct ms.
      * rewrite Z.eqb_refl. split; [done|].
        rewrite List_filter_nil; [done|].
        intros x Hx. apply Z.eqb_neq. intros Heq. apply Hnin.
        rewrite <- Heq. by apply Hcov.
Qed.

Lemma objectEntries_elem {A} (o : list (Z * A)) (kv : Z * A) :
  kv ∈ Js.objectEntries o ↔ kv ∈ o.
Proof. by rewrite objectEntries_Permutation. Qed.

Lemma objectEntries_keys_NoDup {A} (o : list (Z * A)) :
  NoDup (map fst o) → NoDup (map fst (Js.objectEntries o)).
Proof.
  intros H. by rewrite (Permutation_map fst (objectEntries_Permutation o)).
Qed.

(** The clusters the layout enumerates: every entry is the non-empty list
    of the visible nodes of one group key, in payload order. *)
Lemma entries_spec (l : list Node) (k : Z) (ms : list Node) :
  (k, ms) ∈ Js.objectEntries (Clustered.clusterGroups l) →
  ms ≠ [] ∧ ms = List.filter (λ n, Clustered.groupKey n =? k) l.
Proof.
  rewrite objectEntries_elem. apply clusterGroups_inv.
Qed.

(** ** The centre slot and the rings *)

Lemma ring_ge_1 (idx : Z) : 1 <= idx → 1 <= Clustered.ring idx.
Proof.
  intros H. unfold Clustered.ring.
  pose proof (Z.div_pos (idx - 1) 8 ltac:(lia) ltac:(lia)). lia.
Qed.

(** The first slot of a cluster is its centre, for a cluster of two or
    more by the explicit case and for a cluster of one because ring 0 has
    radius 0. *)
Lemma nodePosition_first (center : R * R) (clusterSize : Z) :
  1 <= clusterSize → Clustered.nodePosition center clusterSize 0 = Some center.
Proof.
  intros Hsize. unfold Clustered.nodePosition.
  destruct (clusterSize >? 1) eqn:Hc; simpl; [done|].
  assert (clusterSize = 1) as -> by lia.
  unfold Js.div. simpl. destruct center as [cx cy]. simpl.
  change (Clustered.ring 0 * 60) with 0.
  f_equal. f_equal; lra.
Qed.

(** Every later slot lies on a ring of radius at least 60, away from the
    centre. *)
Lemma nodePosition_later (center p : R * R) (clusterSize idx : Z) :
  1 <= idx →
  Clustered.nodePosition center clusterSize idx = Some p → p ≠ center.
Proof.
  intros Hidx. unfold Clustered.nodePosition.
  destruct (idx =? 0) eqn:H0; [lia|]. simpl.
  destruct (Js.div _ _) as [frac|]; simpl; [|done].
  intros [= <-]. destruct center as [cx cy]. simpl. intros [= Hx Hy].
  pose proof (ring_ge_1 idx Hidx) as Hring.
  set (a := (frac * PI * 2 + Clustered.angleOffset idx)%R) in *.
  assert (Hr : (IZR (Clustered.ring idx * 60) <> 0)%R).
  { apply not_0_IZR. lia. }
  assert (Hcos : cos a = 0%R).
  { apply (Rmult_eq_reg_l (IZR (Clustered.ring idx * 60))); [lra | done]. }
  assert (Hsin : sin a = 0%R).
  { apply (Rmult_eq_reg_l (IZR (Clustered.ring idx * 60))); [lra | done]. }
  pose proof (sin2_cos2 a) as H1. unfold Rsqr in H1. rewrite Hcos, Hsin in H1. lra.
Qed.

Lemma concat_imap_lookup {A B} (f : nat → A → list B) (l : list A) (k : nat) x :
  l !! k = Some x →
  ∃ before after, concat (imap f l) = before ++ f k x ++ after.
Proof.
  intros Hk.
  exists (concat (imap f (take k l))),
         (concat (imap (λ n, f (k + S n)%nat) (drop (S k) l))).
  rewrite <- (take_drop_middle l k x Hk) at 1.
  rewrite imap_app, concat_app. simpl.
  rewrite length_take_le by (apply lookup_lt_Some in Hk; lia).
  by rewrite Nat.add_0_r.
Qed.

(** What the layout does with one cluster: its nodes are a block of
    [flowNodes], led by the first element of the sorted members, which is
    at the centre recorded in [clusterMetadata]; no other node of the block
    is at that centre. *)
Lemma cluster_block env cc (g : list (Z * list Node)) (k : nat) (cid : Z)
    (members : list Node) :
  Js.objectEntries g !! k = Some (cid, members) → members ≠ [] →
  ∃ hubFn rest before after center meta hub,
    Clustered.flowNodes env cc g = before ++ (hubFn :: rest) ++ after
    ∧ map (λ fn, nd_node (fn_data fn)) (hubFn :: rest)
      = Clustered.sortedNodes cc members
    ∧ head (Clustered.sortedNodes cc members) = Some hub
    ∧ nd_node (fn_data hubFn) = hub ∧ fn_id hubFn = node_id hub
    ∧ Clustered.clusterMetadata g !! k = Some (cid, meta)
    ∧ Clustered.cm_center meta = Some center
    ∧ fn_position hubFn = Some center
    ∧ Forall (λ fn, fn_position fn ≠ Some center) rest.
Proof.
  intros Hk Hne.
  set (K := Z.of_nat (length (Js.objectEntries g))).
  destruct (concat_imap_lookup
              (λ clusterIdx entry,
                 Clustered.layoutCluster env cc K (Z.of_nat clusterIdx) (snd entry))
              _ _ _ Hk) as (before & after & Hcat).
  simpl in Hcat.
  destruct (clusterCenter_finite K (Z.of_nat k) (Z.of_nat (length members)))
    as [center Hcenter].
  assert (Hlen : length (Clustered.sortedNodes cc members) = length members)
    by apply sort_length.
  destruct (Clustered.layoutCluster env cc K (Z.of_nat k) members)
    as [|hubFn rest] eqn:Hblock.
  { apply (f_equal length) in Hblock. unfold Clustered.layoutCluster in Hblock.
    rewrite length_imap, Hlen in Hblock. by destruct members. }
  assert (H0 : Clustered.layoutCluster env cc K (Z.of_nat k) members !! 0%nat
               = Some hubFn) by (by rewrite Hblock).
  apply layoutCluster_lookup in H0 as (hub & Hhub & Hid & Hnode & _ & Hpos).
  exists hubFn, rest, before, after, center,
    {| Clustered.cm_center := Some center;
       Clustered.cm_radius := Clustered.clusterRadius (Z.of_nat (length members));
       Clustered.cm_color := Clustered.colorAt (Z.of_nat k);
       Clustered.cm_size := Z.of_nat (length members);
       Clustered.cm_id := cid |}, hub.
  split; [exact Hcat|]. split; [by rewrite <- Hblock, layoutCluster_nodes|].
  split; [by destruct (Clustered.sortedNodes cc members)|].
  split; [done|]. split; [done|]. split.
  { unfold Clustered.clusterMetadata. rewrite list_lookup_imap, Hk. simpl.
    fold K. by rewrite Hcenter. }
  split; [done|]. split.
  { rewrite Hpos, Hcenter. simpl. apply nodePosition_first.
    destruct members; [done | simpl; lia]. }
  apply Forall_lookup. intros i fn Hfn.
  assert (Hi : Clustered.layoutCluster env cc K (Z.of_nat k) members !! S i
               = Some fn) by (by rewrite Hblock).
  apply layoutCluster_lookup in Hi as (node & _ & _ & _ & _ & Hp).
  rewrite Hp, Hcenter. simpl.
  destruct (Clustered.nodePosition _ _ _) as [p|] eqn:Hnp; [|done].
  apply nodePosition_later in Hnp; [|lia]. congruence.
Qed.

Lemma clusterCenters_lookup (cc : gmap string Z) (g : list (Z * list Node))
    (cid : Z) (first : Node) (rest : list Node) :
  NoDup (map fst g) →
  (cid, first :: rest) ∈ Js.objectEntries g →
  Clustered.clusterCenters cc g !! cid
  = Some (node_id (Clustered.centerNode cc first (first :: rest))).
Proof.
  intros Hnd. apply objectEntries_keys_NoDup in Hnd. revert Hnd.
  unfold Clustered.clusterCenters.
  generalize (Js.objectEntries g) as entries. clear g.
  induction entries as [|[k ms] entries IH] using rev_ind; intros Hnd Hin.
  - by apply elem_of_nil in Hin.
  - rewrite foldl_app. simpl.
    rewrite map_app in Hnd. apply NoDup_app in Hnd as (Hnd & Hdisj & _).
    apply elem_of_app in Hin as [Hin|Hin].
    + assert (cid ≠ k).
      { intros ->. apply (Hdisj k); [|left].
        by apply (list_elem_of_fmap_2 fst) in Hin. }
      destruct ms; [by apply IH|]. rewrite lookup_insert_ne by done. by apply IH.
    + apply list_elem_of_singleton in Hin as [= <- <-].
      by rewrite lookup_insert_eq.
Qed.

Lemma centerNode_scanMax (cc : gmap string Z) (first : Node) (l : list Node) :
  Clustered.centerNode cc first l
  = scanMax (λ n, Clustered.degree cc (node_id n)) first l.
Proof. reflexivity. Qed.

Lemma sortedNodes_head (cc : gmap string Z) (members : list Node) :
  members ≠ [] →
  ∃ hub, head (Clustered.sortedNodes cc members) = Some hub
         ∧ firstMax (λ n, Clustered.degree cc (node_id n)) hub members.
Proof. apply (sort_head_firstMax (λ n, Clustered.degree cc (node_id n))). Qed.

(** ** Hubs *)



(** C8. A cluster with exactly one visible node: the node is at the centre
    recorded for its cluster. *)
Theorem singleton_cluster_at_center (env : Env) (filters : Filters)
    (ns : list Node) (es : list Edge) (k : nat) (cid : Z) (n : Node) :
  Js.objectEntries (Clustered.groups filters ns) !! k = Some (cid, [n]) →
  List.filter (λ m, Clustered.groupKey m =? cid) (Clustered.visibleNodes filters ns)
  = [n]
  ∧ ∃ fn before after center meta,
      Clustered.layoutNodes env filters ns es = before ++ fn :: after
      ∧ nd_node (fn_data fn) = n ∧ fn_id fn = node_id n
      ∧ Clustered.clusterMetadata (Clustered.groups filters ns) !! k
        = Some (cid, meta)
      ∧ Clustered.cm_center meta = Some center
      ∧ fn_position fn = Some center.
Proof.
  intros Hk.
  destruct (entries_spec (Clustered.visibleNodes filters ns) cid [n])
    as [Hne Hmem].
  { eapply list_elem_of_lookup_2. exact Hk. }
  split; [done|].
  destruct (cluster_block env (Clustered.counts filters ns es) _ _ _ _ Hk Hne)
    as (hubFn & rest & before & after & center & meta & hub
        & Hcat & Hnodes & Hhead & Hhub & Hid & Hmeta & Hcenter & Hpos & _).
  simpl in Hnodes, Hhead. injection Hhead as <-.
  destruct rest; [|done].
  exists hubFn, before, after, center, meta. by rewrite Hid.
Qed.

(** C8, at a payload of two clusters of one node each. *)
Lemma singleton_cluster_at_center_witness :
  let a := mkNode "a" 0 false (Some 0) in
  let u := mkNode "u" 0 false None in
  Js.objectEntries (Clustered.groups noFilter [u; a]) !! 1%nat = Some (-1, [u])
  ∧ ∃ fn center meta,
      fn ∈ Clustered.layoutNodes noEnv noFilter [u; a] []
      ∧ nd_node (fn_data fn) = u
      ∧ Clustered.clusterMetadata (Clustered.groups noFilter [u; a]) !! 1%nat
        = Some (-1, meta)
      ∧ Clustered.cm_center meta = Some center
      ∧ fn_position fn = Some center.
Proof.
  intros a u.
  assert (Hk : Js.objectEntries (Clustered.groups noFilter [u; a]) !! 1%nat
               = Some (-1, [u])) by reflexivity.
  split; [exact Hk|].
  destruct (singleton_cluster_at_center noEnv noFilter [u; a] [] 1%nat (-1) u Hk)
    as (_ & fn & before & after & center & meta & H1 & H2 & _ & H3 & H4 & H5).
  exists fn, center, meta. rewrite H1. split; [|auto].
  apply elem_of_app. right. left.
Defined.



(** ** The scenario of three nodes in one cluster *)

Lemma nodePosition_3_1 (cx cy : R) :
  Clustered.nodePosition (cx, cy) 3 1
  = Some (cx + 60 * cos (PI / 8), cy + 60 * sin (PI / 8))%R.
Proof.
  unfold Clustered.nodePosition, Js.div, Clustered.angleOffset.
  change (Clustered.ring 1) with 1. change (Clustered.posInRing 1) with 0.
  change (Clustered.nodesInRing 3 1) with 2. simpl.
  change (1 * 60) with 60. change (1 `rem` 2) with 1.
  replace (0 / 2 * PI * 2 + 1 * PI / 8)%R with (PI / 8)%R by lra.
  done.
Qed.

Lemma nodePosition_3_2 (cx cy : R) :
  Clustered.nodePosition (cx, cy) 3 2
  = Some (cx + 60 * cos (PI + PI / 8), cy + 60 * sin (PI + PI / 8))%R.
Proof.
  unfold Clustered.nodePosition, Js.div, Clustered.angleOffset.
  change (Clustered.ring 2) with 1. change (Clustered.posInRing 2) with 1.
  change (Clustered.nodesInRing 3 2) with 2. simpl.
  change (1 * 60) with 60. change (1 `rem` 2) with 1.
  replace (1 / 2 * PI * 2 + 1 * PI / 8)%R with (PI + PI / 8)%R by lra.
  done.
Qed.

Lemma layoutCluster_three env cc (l : list Node) (a b c : Node) (cx cy : R) :
  Clustered.sortedNodes cc l = [a; b; c] →
  Clustered.clusterCenter 1 0 3 = Some (cx, cy) →
  map (λ fn, (nd_node (fn_data fn), fn_position fn))
      (Clustered.layoutCluster env cc 1 0 l)
  = [(a, Some (cx, cy));
     (b, Some (cx + 60 * cos (PI / 8), cy + 60 * sin (PI / 8))%R);
     (c, Some (cx + 60 * cos (PI + PI / 8), cy + 60 * sin (PI + PI / 8))%R)].
Proof.
  intros Hsorted Hcenter.
  assert (Hlen : length l = 3%nat).
  { rewrite <- (sort_length (Clustered.byDegreeDesc cc) l).
    unfold Clustered.sortedNodes in Hsorted. by rewrite Hsorted. }
  unfold Clustered.layoutCluster. rewrite Hsorted, Hlen.
  change (Z.of_nat 3) with 3. rewrite Hcenter.
  cbn [imap map fn_data nd_node fn_position mbind option_bind compose].
  change (Z.of_nat 0) with 0. change (Z.of_nat 1) with 1. change (Z.of_nat 2) with 2.
  rewrite nodePosition_3_1, nodePosition_3_2, nodePosition_first by lia.
  done.
Qed.

Lemma three_node_layout (env : Env) (filters : Filters) (ns : list Node)
    (es : list Edge) (a b c : Node) :
  Clustered.visibleNodes filters ns = [a; b; c]
  ∨ Clustered.visibleNodes filters ns = [b; a; c]
  ∨ Clustered.visibleNodes filters ns = [b; c; a] →
  cluster_id a = Some 0 → cluster_id b = Some 0 → cluster_id c = Some 0 →
  let deg := λ n, Clustered.degree (Clustered.counts filters ns es) (node_id n) in
  deg a = 2 → deg b = 1 → deg c = 1 →
  ∃ cx cy meta,
    Clustered.clusterMetadata (Clustered.groups filters ns) = [(0, meta)]
    ∧ Clustered.cm_center meta = Some (cx, cy)
    ∧ map (λ fn, (nd_node (fn_data fn), fn_position fn))
          (Clustered.layoutNodes env filters ns es)
      = [(a, Some (cx, cy));
         (b, Some (cx + 60 * cos (PI / 8), cy + 60 * sin (PI / 8))%R);
         (c, Some (cx + 60 * cos (PI + PI / 8), cy + 60 * sin (PI + PI / 8))%R)].
Proof.
  intros Hvis Ha Hb Hc deg Hda Hdb Hdc. unfold deg in *.
  destruct (clusterCenter_finite 1 0 3) as [[cx cy] Hcenter].
  exists cx, cy.
  unfold Clustered.layoutNodes, Clustered.groups.
  set (cc := Clustered.counts filters ns es) in *.
  assert (Hgroups : ∃ l, Clustered.visibleNodes filters ns = l ∧ length l = 3%nat
            ∧ Clustered.clusterGroups l = [(0, l)]
            ∧ Clustered.sortedNodes cc l = [a; b; c]).
  { unfold Clustered.clusterGroups, Clustered.groupKey, Clustered.sortedNodes,
      Clustered.byDegreeDesc, Js.sort.
    destruct Hvis as [->|[->| ->]]; eexists; (split; [reflexivity|]);
      (split; [reflexivity|]); (split; [simpl; by rewrite Ha, Hb, Hc|]);
      repeat (first [rewrite Hda | rewrite Hdb | rewrite Hdc
                    | progress cbn -[Clustered.degree]
                    | match goal with
                      | |- context [?x - ?y <=? 0] =>
                          let v := eval vm_compute in (x - y <=? 0) in
                          progress change (x - y <=? 0) with v
                      end]); done. }
  destruct Hgroups as (l & -> & Hlen & -> & Hsorted).
  change (Js.objectEntries [(0, l)]) with [(0, l)].
  unfold Clustered.clusterMetadata, Clustered.flowNodes.
  change (Js.objectEntries [(0, l)]) with [(0, l)].
  cbn [imap length fst snd concat]. rewrite Hlen.
  change (Z.of_nat 3) with 3. change (Z.of_nat 1) with 1. change (Z.of_nat 0) with 0.
  eexists. split; [reflexivity|]. split; [exact Hcenter|].
  rewrite app_nil_r. by apply layoutCluster_three.
Qed.

(** C6, as the code has it. Three visible nodes, all in cluster 0, where
    [a] has degree 2, [b] and [c] degree 1, and [b] precedes [c] in the
    payload: the layout lists [a], [b], [c] in this order; [a] is at the
    centre of cluster 0; [b] and [c] are on ring 1, of radius 60, at the
    angles [PI / 8] and [PI + PI / 8], half a turn apart, ring 1 carrying
    the offset [PI / 8] of the odd rings. *)
Theorem scenario_hub_and_ring (env : Env) (filters : Filters) (ns : list Node)
    (es : list Edge) (a b c : Node) :
  Clustered.visibleNodes filters ns = [a; b; c]
  ∨ Clustered.visibleNodes filters ns = [b; a; c]
  ∨ Clustered.visibleNodes filters ns = [b; c; a] →
  cluster_id a = Some 0 → cluster_id b = Some 0 → cluster_id c = Some 0 →
  let deg := λ n, Clustered.degree (Clustered.counts filters ns es) (node_id n) in
  deg a = 2 → deg b = 1 → deg c = 1 →
  ∃ cx cy meta,
    Clustered.clusterMetadata (Clustered.groups filters ns) = [(0, meta)]
    ∧ Clustered.cm_center meta = Some (cx, cy)
    ∧ map (λ fn, (nd_node (fn_data fn), fn_position fn))
          (Clustered.layoutNodes env filters ns es)
      = [(a, Some (cx, cy));
         (b, Some (cx + 60 * cos (PI / 8), cy + 60 * sin (PI / 8))%R);
         (c, Some (cx + 60 * cos (PI + PI / 8), cy + 60 * sin (PI + PI / 8))%R)].
Proof. apply three_node_layout. Qed.

(** C6, at the payload [b], [a], [c] with the edges [a -> b] and [c -> a]. *)
Lemma scenario_hub_and_ring_witness :
  let a := mkNode "a" 0 false (Some 0) in
  let b := mkNode "b" 0 false (Some 0) in
  let c := mkNode "c" 0 false (Some 0) in
  let ns := [b; a; c] in
  let es := [mkEdge "a" "b"; mkEdge "c" "a"] in
  Clustered.visibleNodes noFilter ns = [b; a; c]
  ∧ ∃ cx cy,
      map (λ fn, (nd_node (fn_data fn), fn_position fn))
          (Clustered.layoutNodes noEnv noFilter ns es)
      = [(a, Some (cx, cy));
         (b, Some (cx + 60 * cos (PI / 8), cy + 60 * sin (PI / 8))%R);
         (c, Some (cx + 60 * cos (PI + PI / 8), cy + 60 * sin (PI + PI / 8))%R)].
Proof.
  intros a b c ns es. split; [reflexivity|].
  destruct (scenario_hub_and_ring noEnv noFilter ns es a b c)
    as (cx & cy & meta & _ & _ & H); try reflexivity.
  - right. left. reflexivity.
  - by exists cx, cy.
Defined.

Lemma sin_PI8_pos : (0 < sin (PI / 8))%R.
Proof. pose proof PI_RGT_0. apply sin_gt_0; lra. Qed.

(** C6, counterexample: in the scenario, with [a], [b], [c] in payload
    order and the edges [a -> b] and [a -> c], [b] is not at angle 0 and [c]
    is not at angle [PI] of ring 1. *)
Lemma ring_one_is_offset :
  let a := mkNode "a" 0 false (Some 0) in
  let b := mkNode "b" 0 false (Some 0) in
  let c := mkNode "c" 0 false (Some 0) in
  let ns := [a; b; c] in
  let es := [mkEdge "a" "b"; mkEdge "a" "c"] in
  Clustered.visibleNodes noFilter ns = ns
  ∧ map (λ n, Clustered.degree (Clustered.counts noFilter ns es) (node_id n)) ns
    = [2; 1; 1]
  ∧ ∃ cx cy pb pc,
      map (λ fn, (fn_id fn, fn_position fn))
          (Clustered.layoutNodes noEnv noFilter ns es)
      = [("a", Some (cx, cy)); ("b", Some pb); ("c", Some pc)]
      ∧ pb ≠ (cx + 60 * cos 0, cy + 60 * sin 0)%R
      ∧ pc ≠ (cx + 60 * cos PI, cy + 60 * sin PI)%R.
Proof.
  intros a b c ns es. split; [reflexivity|]. split; [reflexivity|].
  destruct (three_node_layout noEnv noFilter ns es a b c)
    as (cx & cy & meta & _ & _ & H); try reflexivity.
  { left. reflexivity. }
  exists cx, cy. eexists. eexists. split.
  - assert (Hid : Forall (λ fn, fn_id fn = node_id (nd_node (fn_data fn)))
                         (Clustered.layoutNodes noEnv noFilter ns es)).
    { apply flowNodes_Forall. intros. apply layoutCluster_ids. }
    destruct (Clustered.layoutNodes noEnv noFilter ns es)
      as [|f1 [|f2 [|f3 [|f4 l]]]]; try discriminate.
    simpl in H. injection H as H1 H1' H2 H2' H3 H3'.
    apply Forall_cons in Hid as [I1 Hid].
    apply Forall_cons in Hid as [I2 Hid].
    apply Forall_cons in Hid as [I3 _].
    simpl. rewrite I1, I2, I3, H1, H2, H3, H1', H2', H3'. reflexivity.
  - pose proof sin_PI8_pos as Hs. split.
    + intros [= _ Hy]. rewrite sin_0 in Hy. lra.
    + intros [= _ Hy].
      rewrite sin_PI, (Rplus_comm PI (PI / 8)), neg_sin in Hy. lra.
Qed.

(** ** Determinism *)

Lemma map_concat_imap {A B C} (f : B → C) (g : nat → A → list B) (l : list A) :
  map f (concat (imap g l)) = concat (imap (λ i x, map f (g i x)) l).
Proof.
  rewrite concat_map. f_equal.
  change (map (map f) (imap g l)) with (map f <$> imap g l).
  by rewrite fmap_imap.
Qed.

(** The clustered layout reads the environment only for the [highlighted]
    flag of a node. *)
Lemma flowNodes_env (env env' : Env) cc (g : list (Z * list Node)) :
  map (λ fn, (fn_id fn, fn_position fn, nd_node (fn_data fn)))
      (Clustered.flowNodes env cc g)
  = map (λ fn, (fn_id fn, fn_position fn, nd_node (fn_data fn)))
        (Clustered.flowNodes env' cc g).
Proof.
  unfold Clustered.flowNodes. rewrite !map_concat_imap. f_equal.
  apply imap_ext. intros i [k ms] _. simpl.
  unfold Clustered.layoutCluster.
  change (map ?f ?l) with (f <$> l). by rewrite !fmap_imap.
Qed.

Lemma nodeClusterMap_proj (l l' : list FlowNode) :
  map (λ fn, (fn_id fn, fn_position fn, nd_node (fn_data fn))) l
  = map (λ fn, (fn_id fn, fn_position fn, nd_node (fn_data fn))) l' →
  Clustered.nodeClusterMap l = Clustered.nodeClusterMap l'.
Proof.
  unfold Clustered.nodeClusterMap. generalize (∅ : gmap string (option Z)).
  revert l'. induction l as [|fn l IH]; intros [|fn' l'] m H; try discriminate.
  - done.
  - simpl in H. injection H as Hid _ Hnode Hrest. simpl.
    rewrite Hid, Hnode. by apply IH.
Qed.

Lemma flowEdge_classified (env env' : Env) ncm (i : nat) (e : Edge) :
  classified (Clustered.flowEdge env ncm i e)
  = classified (Clustered.flowEdge env' ncm i e).
Proof. reflexivity. Qed.

Lemma clustered_layout_env (env env' : Env) (filters : Filters)
    (ns : list Node) (es : list Edge) :
  map placement (Clustered.layoutNodes env filters ns es)
  = map placement (Clustered.layoutNodes env' filters ns es)
  ∧ map classified (view_edges (Clustered.layout env filters ns es))
    = map classified (view_edges (Clustered.layout env' filters ns es)).
Proof.
  pose proof (flowNodes_env env env' (Clustered.counts filters ns es)
                (Clustered.groups filters ns)) as Hproj.
  split.
  - apply (f_equal (map (λ p : string * option (R * R) * Node, (p.1.1, p.1.2))))
      in Hproj.
    rewrite !map_map in Hproj. exact Hproj.
  - unfold Clustered.layout. cbn [view_edges].
    unfold Clustered.layoutEdges, Clustered.connectors, Clustered.layoutNodes.
    rewrite (nodeClusterMap_proj _ _ Hproj). rewrite !map_app. f_equal.
    unfold Clustered.flowEdges.
    change (map ?f ?l) with (f <$> l). rewrite !fmap_imap.
    apply imap_ext. intros. apply flowEdge_classified.
Qed.

(** The grid layout: the node at index [j] of the visible list is built
    from the two values of the random sequence at [cur + 2 * j]. *)
Lemma mapIndexed_flowNode (env : Env) (xs : list Node) (i : nat)
    (rnd : nat → R) (cur : nat) :
  Grid.mapIndexed (Grid.flowNode env) i xs rnd cur
  = (imap (λ j node,
             fst (Grid.flowNode env (i + j) node rnd (cur + 2 * j)%nat)) xs,
     (cur + 2 * length xs)%nat).
Proof.
  revert i cur. induction xs as [|x xs IH]; intros i cur.
  - cbn. unfold Grid.ret. f_equal. lia.
  - change (Grid.mapIndexed (Grid.flowNode env) i (x :: xs) rnd cur)
      with (let '(y, c1) := Grid.flowNode env i x rnd cur in
            let '(ys, c2) := Grid.mapIndexed (Grid.flowNode env) (S i) xs rnd c1 in
            (y :: ys, c2)).
    change (Grid.flowNode env i x rnd cur)
      with (fst (Grid.flowNode env i x rnd cur), S (S cur)).
    cbv beta iota. rewrite IH. cbn [imap length]. f_equal; [|lia].
    f_equal.
    + by replace (i + 0)%nat with i by lia; replace (cur + 2 * 0)%nat with cur by lia.
    + apply imap_ext. intros j y _. unfold compose.
      replace (S i + j)%nat with (i + S j)%nat by lia.
      by replace (S (S cur) + 2 * j)%nat with (cur + 2 * S j)%nat by lia.
Qed.

Lemma Forall2_imap {A B C} (P : B → C → Prop) (f : nat → A → B)
    (g : nat → A → C) (l : list A) :
  (∀ i x, l !! i = Some x → P (f i x) (g i x)) →
  Forall2 P (imap f l) (imap g l).
Proof.
  revert f g. induction l as [|x l IH]; intros f g H; simpl; constructor.
  - apply (H 0%nat). done.
  - apply IH. intros i y Hy. apply (H (S i)). done.
Qed.

Lemma grid_run (env : Env) (filters : Filters) (ns : list Node) (es : list Edge)
    (view : View) (rnd : nat → R) (cur : nat) :
  let fnodes :=
    imap (λ j node, fst (Grid.flowNode env j node rnd (cur + 2 * j)%nat))
         (List.filter (nodeFilter filters) ns) in
  Grid.processGraphData env filters
    (Some {| nodes := Some ns; edges := Some es |}) view rnd cur
  = ({| view_nodes := fnodes; view_edges := Grid.flowEdges fnodes es |},
     (cur + 2 * length (List.filter (nodeFilter filters) ns))%nat).
Proof.
  intros fnodes. unfold Grid.processGraphData. cbn [nodes edges].
  unfold Grid.bind, Grid.flowNodes. rewrite mapIndexed_flowNode. reflexivity.
Qed.

Lemma grid_ids (env : Env) (rnd : nat → R) (cur : nat) (l : list Node) :
  map fn_id (imap (λ j node, fst (Grid.flowNode env j node rnd (cur + 2 * j)%nat)) l)
  = map node_id l.
Proof.
  change (map ?f ?l) with (f <$> l). rewrite fmap_imap.
  unfold compose. simpl. apply (imap_const node_id).
Qed.

(** What two runs of the two layouts share, on one payload and one filter
    state. *)
Lemma two_runs (env env' : Env) (filters : Filters) (ns : list Node)
    (es : list Edge) (view view' : View) (rnd rnd' : nat → R) (cur cur' : nat) :
  let data := Some {| nodes := Some ns; edges := Some es |} in
  (let v := Clustered.processGraphData env filters data view in
   let v' := Clustered.processGraphData env' filters data view' in
   map placement (view_nodes v) = map placement (view_nodes v')
   ∧ map classified (view_edges v) = map classified (view_edges v'))
  ∧ (let v := fst (Grid.processGraphData env filters data view rnd cur) in
     let v' := fst (Grid.processGraphData env' filters data view' rnd' cur') in
     map fn_id (view_nodes v) = map fn_id (view_nodes v')
     ∧ view_edges v = view_edges v'
     ∧ Forall2
         (λ fn fn', ∃ x y x' y',
            fn_position fn = Some (x, y) ∧ fn_position fn' = Some (x', y')
            ∧ ((∀ n, 0 <= rnd n < 1) → (∀ n, 0 <= rnd' n < 1) →
               Rabs (x - x') <= 50 ∧ Rabs (y - y') <= 50))%R
         (view_nodes v) (view_nodes v')).
Proof.
  intros data. split.
  - apply clustered_layout_env.
  - unfold data. rewrite !grid_run. cbn [fst view_nodes view_edges].
    assert (Hids :
      map fn_id (imap (λ j node, fst (Grid.flowNode env j node rnd (cur + 2 * j)%nat))
                      (List.filter (nodeFilter filters) ns))
      = map fn_id (imap (λ j node,
                           fst (Grid.flowNode env' j node rnd' (cur' + 2 * j)%nat))
                        (List.filter (nodeFilter filters) ns)))
      by (by rewrite !grid_ids).
    split; [exact Hids|]. split.
    + unfold Grid.flowEdges. by rewrite Hids.
    + apply Forall2_imap. intros j node _. simpl.
      eexists _, _, _, _. split; [reflexivity|]. split; [reflexivity|].
      intros Hr Hr'.
      pose proof (Hr (cur + (j + (j + 0)))%nat).
      pose proof (Hr' (cur' + (j + (j + 0)))%nat).
      pose proof (Hr (S (cur + (j + (j + 0))))).
      pose proof (Hr' (S (cur' + (j + (j + 0))))).
      split; apply Rabs_le; lra.
Qed.

(** C3, as the code has it. On one payload and one filter state, two runs
    of the clustered layout give the same position to every node and the
    same category to every edge, whatever the highlight and pattern state
    and the page state before each run: it draws no random number.  Two
    runs of the grid layout give the same node ids and the same edges, but
    each coordinate is its grid slot plus 50 times a fresh random number:
    with random numbers in the interval from 0 to 1, the two runs place a
    node at most 50 apart in each coordinate. *)
Theorem layout_determinism (env env' : Env) (filters : Filters) (ns : list Node)
    (es : list Edge) (view view' : View) (rnd rnd' : nat → R) (cur cur' : nat) :
  let data := Some {| nodes := Some ns; edges := Some es |} in
  (let v := Clustered.processGraphData env filters data view in
   let v' := Clustered.processGraphData env' filters data view' in
   map placement (view_nodes v) = map placement (view_nodes v')
   ∧ map classified (view_edges v) = map classified (view_edges v'))
  ∧ (let v := fst (Grid.processGraphData env filters data view rnd cur) in
     let v' := fst (Grid.processGraphData env' filters data view' rnd' cur') in
     map fn_id (view_nodes v) = map fn_id (view_nodes v')
     ∧ view_edges v = view_edges v'
     ∧ Forall2
         (λ fn fn', ∃ x y x' y',
            fn_position fn = Some (x, y) ∧ fn_position fn' = Some (x', y')
            ∧ ((∀ n, 0 <= rnd n < 1) → (∀ n, 0 <= rnd' n < 1) →
               Rabs (x - x') <= 50 ∧ Rabs (y - y') <= 50))%R
         (view_nodes v) (view_nodes v')).
Proof. apply two_runs. Qed.

(** C3, counterexample: the grid layout run twice in a row on a graph of
    one node, the random numbers drawn being 1/2, 1/3, 1/4, 1/5, ...: the
    node is at (25, 50/3) after the first run and at (12.5, 10) after the
    second. *)
Lemma grid_jitter_varies :
  let a := mkNode "a" 0 false None in
  let data := Some {| nodes := Some [a]; edges := Some [] |} in
  let rnd := λ n : nat, (/ INR (n + 2))%R in
  let run1 := Grid.processGraphData noEnv noFilter data initialView rnd 0%nat in
  let run2 := Grid.processGraphData noEnv noFilter data (fst run1) rnd (snd run1) in
  (∀ n, 0 <= rnd n < 1)%R
  ∧ map placement (view_nodes (fst run1))
    = [("a", Some (0 + / INR 2 * 50, 0 + / INR 3 * 50)%R)]
  ∧ map placement (view_nodes (fst run2))
    = [("a", Some (0 + / INR 4 * 50, 0 + / INR 5 * 50)%R)]
  ∧ map placement (view_nodes (fst run1)) ≠ map placement (view_nodes (fst run2)).
Proof.
  intros a data rnd run1 run2.
  assert (H1 : map placement (view_nodes (fst run1))
               = [("a", Some (0 + / INR 2 * 50, 0 + / INR 3 * 50)%R)])
    by reflexivity.
  assert (H2 : map placement (view_nodes (fst run2))
               = [("a", Some (0 + / INR 4 * 50, 0 + / INR 5 * 50)%R)])
    by reflexivity.
  split; [|split; [exact H1 | split; [exact H2|]]].
  - intros n. unfold rnd. rewrite plus_INR. pose proof (pos_INR n) as Hn.
    simpl INR. split.
    + left. apply Rinv_0_lt_compat. lra.
    + apply (Rmult_lt_reg_r (INR n + (1 + 1))); [lra|].
      rewrite Rinv_l by lra. lra.
  - rewrite H1, H2. intros [= Hx _]. simpl in Hx. lra.
Qed.

(** ** The pair keys of the connector resolver *)

Lemma string_of_uint_noDash (d : Decimal.uint) :
  noDash (NilEmpty.string_of_uint d) = true.
Proof. induction d; simpl; auto. Qed.

Lemma toString_nonneg (n : Z) :
  0 <= n → noDash (Js.toString n) = true ∧ Js.Number (Js.toString n) = Some n.
Proof.
  intros Hn. destruct n as [|p|p]; [by compute| |lia].
  unfold Js.toString, Js.Number. simpl.
  pose proof (Unsigned.to_uint_nonnil p) as Hnil.
  assert (Hs : NilZero.string_of_uint (Pos.to_uint p)
               = NilEmpty.string_of_uint (Pos.to_uint p))
    by (by destruct (Pos.to_uint p)).
  rewrite Hs. split; [apply string_of_uint_noDash|].
  rewrite NilEmpty.usu. simpl. unfold Z.of_uint.
  by rewrite Unsigned.of_to.
Qed.

Lemma split_noDash (s : string) : noDash s = true → Js.split "-" s = [s].
Proof.
  induction s as [|c s IH]; simpl; [done|].
  intros [Hc Hs]%andb_prop. apply negb_true_iff in Hc. rewrite Hc.
  by rewrite IH.
Qed.

Lemma split_pair (s1 s2 : string) :
  noDash s1 = true → noDash s2 = true →
  Js.split "-" (String.append s1 (String "-" s2)) = [s1; s2].
Proof.
  intros H1 H2. induction s1 as [|c s1 IH]; simpl.
  - by rewrite split_noDash.
  - simpl in H1. apply andb_prop in H1 as [Hc H1].
    apply negb_true_iff in Hc. rewrite Hc. by rewrite IH.
Qed.

Lemma pairKey_eq (a b : Z) :
  Clustered.pairKey a b
  = String.append (Js.toString (Z.min a b))
                  (String "-" (Js.toString (Z.max a b))).
Proof.
  unfold Clustered.pairKey, Js.sort. simpl.
  destruct (a - b <=? 0) eqn:H; simpl.
  - by rewrite Z.min_l, Z.max_r by lia.
  - by rewrite Z.min_r, Z.max_l by lia.
Qed.

(** For cluster ids that are not negative, splitting a pair key gives the
    two ids back, smaller first. *)
Lemma pairClusters_pairKey (a b : Z) :
  0 <= a → 0 <= b →
  Clustered.pairClusters (Clustered.pairKey a b)
  = (Some (Z.min a b), Some (Z.max a b)).
Proof.
  intros Ha Hb. rewrite pairKey_eq. unfold Clustered.pairClusters.
  destruct (toString_nonneg (Z.min a b)) as [Hd1 Hn1]; [lia|].
  destruct (toString_nonneg (Z.max a b)) as [Hd2 Hn2]; [lia|].
  rewrite split_pair by done. simpl. by rewrite Hn1, Hn2.
Qed.

(** With a negative id the dash of the sign is read as a separator. *)
Example pairClusters_negative :
  Clustered.pairKey (-1) 2 = "-1-2"
  ∧ Clustered.pairClusters "-1-2" = (Some 0, Some 1).
Proof. split; reflexivity. Qed.

(** ** The connector resolver *)

Lemma nodeClusterMap_snoc (l : list FlowNode) (fn : FlowNode) :
  Clustered.nodeClusterMap (l ++ [fn])
  = <[fn_id fn := cluster_id (nd_node (fn_data fn))]> (Clustered.nodeClusterMap l).
Proof. unfold Clustered.nodeClusterMap. by rewrite foldl_app. Qed.

Lemma nodeClusterMap_lookup_None (l : list FlowNode) (id : string) :
  id ∉ map fn_id l → Clustered.nodeClusterMap l !! id = None.
Proof.
  induction l as [|fn l IH] using rev_ind; intros Hid; [done|].
  rewrite nodeClusterMap_snoc. rewrite map_app in Hid.
  apply not_elem_of_app in Hid as [Hl Hfn].
  rewrite lookup_insert_ne; [by apply IH|].
  intros Heq. apply Hfn. rewrite <- Heq. left.
Qed.

Lemma nodeClusterMap_lookup (l : list FlowNode) (fn : FlowNode) :
  NoDup (map fn_id l) → fn ∈ l →
  Clustered.nodeClusterMap l !! fn_id fn
  = Some (cluster_id (nd_node (fn_data fn))).
Proof.
  induction l as [|x l IH] using rev_ind; intros Hnd Hin.
  - by apply elem_of_nil in Hin.
  - rewrite nodeClusterMap_snoc. rewrite map_app in Hnd.
    apply NoDup_app in Hnd as (Hnd & Hdisj & _).
    apply elem_of_app in Hin as [Hin|Hin].
    + rewrite lookup_insert_ne; [by apply IH|].
      intros Heq. apply (Hdisj (fn_id fn)).
      * by apply (list_elem_of_fmap_2 fn_id).
      * rewrite <- Heq. left.
    + apply list_elem_of_singleton in Hin as ->. by rewrite lookup_insert_eq.
Qed.

(** With distinct visible ids, [nodeClusterMap] gives each id the cluster
    id of the visible node that carries it. *)
Lemma clusterOf_spec (env : Env) (filters : Filters) (ns : list Node)
    (es : list Edge) (id : string) (a : Z) :
  NoDup (map node_id (Clustered.visibleNodes filters ns)) →
  Clustered.clusterOf
    (Clustered.nodeClusterMap (Clustered.layoutNodes env filters ns es)) id
  = Some a
  ↔ ∃ n, n ∈ Clustered.visibleNodes filters ns
         ∧ node_id n = id ∧ cluster_id n = Some a.
Proof.
  intros Hnd.
  set (out := Clustered.layoutNodes env filters ns es).
  assert (Hperm : map (λ fn, nd_node (fn_data fn)) out
                  ≡ₚ Clustered.visibleNodes filters ns).
  { unfold out, Clustered.layoutNodes. rewrite flowNodes_nodes.
    apply clusterGroups_Permutation. }
  assert (Hids : map fn_id out = map node_id (map (λ fn, nd_node (fn_data fn)) out))
    by apply flowNodes_ids.
  assert (Hid : Forall (λ fn, fn_id fn = node_id (nd_node (fn_data fn))) out).
  { apply flowNodes_Forall. intros. apply layoutCluster_ids. }
  assert (Hnd' : NoDup (map fn_id out)) by (by rewrite Hids, Hperm).
  rewrite Forall_forall in Hid.
  unfold Clustered.clusterOf. split.
  - destruct (decide (id ∈ map fn_id out)) as [Hin|Hin].
    + apply list_elem_of_fmap in Hin as (fn & -> & Hfn).
      rewrite (nodeClusterMap_lookup _ _ Hnd' Hfn). intros Hc.
      exists (nd_node (fn_data fn)). split; [|split; [|done]].
      * rewrite <- Hperm. by apply (list_elem_of_fmap_2 (λ fn, nd_node (fn_data fn))).
      * symmetry. by apply Hid.
    + by rewrite nodeClusterMap_lookup_None.
  - intros (n & Hn & <- & Hc). rewrite <- Hperm in Hn.
    apply list_elem_of_fmap in Hn as (fn & -> & Hfn).
    rewrite <- (Hid fn Hfn). by rewrite (nodeClusterMap_lookup _ _ Hnd' Hfn).
Qed.

Lemma setAdd_elem (x y : string) (s : list string) :
  y ∈ Clustered.setAdd x s ↔ y = x ∨ y ∈ s.
Proof.
  unfold Clustered.setAdd. case_bool_decide as Hx.
  - split; [by right | intros [->|?]; done].
  - rewrite elem_of_app, list_elem_of_singleton. tauto.
Qed.

Lemma setAdd_NoDup (x : string) (s : list string) :
  NoDup s → NoDup (Clustered.setAdd x s).
Proof.
  intros Hnd. unfold Clustered.setAdd. case_bool_decide as Hx; [done|].
  apply NoDup_app. split; [done|]. split; [|apply NoDup_singleton].
  intros y Hy Hy'. apply list_elem_of_singleton in Hy'. by subst.
Qed.

Lemma connectedClusters_spec (ncm : gmap string (option Z)) (ve : list Edge) :
  NoDup (Clustered.connectedClusters ncm ve)
  ∧ ∀ s, s ∈ Clustered.connectedClusters ncm ve
         ↔ ∃ e a b, e ∈ ve
                    ∧ Clustered.clusterOf ncm (source e) = Some a
                    ∧ Clustered.clusterOf ncm (target e) = Some b
                    ∧ a ≠ b ∧ s = Clustered.pairKey a b.
Proof.
  unfold Clustered.connectedClusters.
  induction ve as [|e ve (Hnd & Hspec)] using rev_ind.
  - simpl. split; [constructor|]. intros s. split.
    + intros Hs. by apply elem_of_nil in Hs.
    + intros (e & a & b & He & _). by apply elem_of_nil in He.
  - rewrite foldl_app. simpl. set (acc := foldl _ [] ve) in *.
    destruct (Clustered.clusterOf ncm (source e)) as [a|] eqn:Ha;
      [destruct (Clustered.clusterOf ncm (target e)) as [b|] eqn:Hb;
       [destruct (Z.eqb_spec a b) as [Hab|Hab]; simpl|]|].
    2:{ split; [by apply setAdd_NoDup|]. intros s.
        rewrite setAdd_elem, Hspec. split.
        - intros [->|(e' & a' & b' & He' & H)].
          + exists e, a, b. rewrite elem_of_app, list_elem_of_singleton. auto.
          + exists e', a', b'. rewrite elem_of_app. tauto.
        - intros (e' & a' & b' & He' & Ha' & Hb' & Hne & ->).
          apply elem_of_app in He' as [He'|He'].
          + right. eauto 10.
          + apply list_elem_of_singleton in He' as ->. left. congruence. }
    all: split; [done|]; intros s; rewrite Hspec; split;
      [ intros (e' & a' & b' & He' & H); exists e', a', b';
        rewrite elem_of_app; tauto
      | intros (e' & a' & b' & He' & Ha' & Hb' & Hne & ->);
        apply elem_of_app in He' as [He'|He'];
        [ eauto 10
        | apply list_elem_of_singleton in He' as ->; congruence ] ].
Qed.

Lemma hub_lookup (cc : gmap string Z) (l : list Node) (n : Node) :
  n ∈ l →
  ∃ hub, hubOf cc (Clustered.clusterGroups l) (Clustered.groupKey n) hub
         ∧ hub ∈ l
         ∧ Clustered.clusterCenters cc (Clustered.clusterGroups l)
             !! Clustered.groupKey n = Some (node_id hub).
Proof.
  intros Hn. destruct (clusterGroups_inv l) as (Hnd & Hcov & Hgrp).
  pose proof (Hcov n Hn) as Hk.
  apply list_elem_of_fmap in Hk as ([k ms] & Hkeq & Hin). simpl in Hkeq. subst k.
  destruct (Hgrp _ _ Hin) as [Hne Hms].
  destruct ms as [|first rest]; [done|].
  destruct (sortedNodes_head cc (first :: rest)) as (hub & Hhead & Hmax); [done|].
  exists hub. split; [by exists (first :: rest)|]. split.
  - apply firstMax_elem in Hmax. rewrite Hms in Hmax.
    by apply elem_of_List_filter in Hmax as [? _].
  - rewrite (clusterCenters_lookup cc _ _ first rest Hnd)
      by (by apply objectEntries_elem).
    do 2 f_equal. rewrite centerNode_scanMax, scanMax_self.
    eapply firstMax_unique; [apply scanMax_firstMax | exact Hmax].
Qed.

Lemma connectorEdge_pair (centers : gmap Z string) (a b : Z) (ha hb : string) :
  0 <= a → a < b →
  centers !! a = Some ha → centers !! b = Some hb → ha ≠ "" → hb ≠ "" →
  ∃ ce, Clustered.connectorEdge centers (Clustered.pairKey a b) = [ce]
        ∧ fe_data ce = ClusterConnector (a, b)
        ∧ fe_source ce = ha ∧ fe_target ce = hb.
Proof.
  intros Ha Hab Hca Hcb Hha Hhb. unfold Clustered.connectorEdge.
  rewrite pairClusters_pairKey by lia.
  rewrite Z.min_l, Z.max_r by lia. rewrite Hca, Hcb.
  apply truthy_spec in Hha, Hhb. rewrite Hha, Hhb. simpl.
  eexists. split; [reflexivity|]. done.
Qed.

Lemma concat_map_singletons {A B} (R : A → B → Prop) (f : A → list B)
    (l : list A) :
  (∀ x, x ∈ l → ∃ y, f x = [y] ∧ R x y) → Forall2 R l (concat (map f l)).
Proof.
  induction l as [|x l IH]; intros H; simpl; [constructor|].
  destruct (H x) as (y & -> & Hy); [left|]. simpl. constructor; [done|].
  apply IH. intros x' Hx'. apply H. by right.
Qed.

Lemma Forall2_elem_r {A B} (R : A → B → Prop) (l : list A) (k : list B) (y : B) :
  Forall2 R l k → y ∈ k → ∃ x, x ∈ l ∧ R x y.
Proof.
  induction 1 as [|x y' l k Hxy _ IH]; intros Hy.
  - by apply elem_of_nil in Hy.
  - apply elem_of_cons in Hy as [->|Hy].
    + exists x. split; [left | done].
    + destruct (IH Hy) as (x' & ? & ?). exists x'. split; [by right | done].
Qed.

Lemma Forall2_elem_l {A B} (R : A → B → Prop) (l : list A) (k : list B) (x : A) :
  Forall2 R l k → x ∈ l → ∃ y, y ∈ k ∧ R x y.
Proof.
  induction 1 as [|x' y l k Hxy _ IH]; intros Hx.
  - by apply elem_of_nil in Hx.
  - apply elem_of_cons in Hx as [->|Hx].
    + exists y. split; [left | done].
    + destruct (IH Hx) as (y' & ? & ?). exists y'. split; [by right | done].
Qed.

Lemma Forall2_NoDup_map {A B C} (R : A → B → Prop) (g : B → C)
    (l : list A) (k : list B) :
  Forall2 R l k → NoDup l →
  (∀ x x' y y', R x y → R x' y' → g y = g y' → x = x') →
  NoDup (map g k).
Proof.
  intros HF Hnd Hinj. induction HF as [|x y l k Hxy HF IH]; simpl; [constructor|].
  apply NoDup_cons in Hnd as [Hx Hnd]. constructor; [|by apply IH].
  intros Hin. apply list_elem_of_fmap in Hin as (y' & Hg & Hy').
  destruct (Forall2_elem_r _ _ _ _ HF Hy') as (x' & Hx' & Hxy').
  assert (x = x') by (eapply Hinj; eauto). by subst.
Qed.

Lemma pairKey_inj (a b a' b' : Z) :
  0 <= a → a < b → 0 <= a' → a' < b' →
  Clustered.pairKey a b = Clustered.pairKey a' b' → a = a' ∧ b = b'.
Proof.
  intros Ha Hab Ha' Hab' Heq.
  pose proof (pairClusters_pairKey a b ltac:(lia) ltac:(lia)) as H1.
  pose proof (pairClusters_pairKey a' b' ltac:(lia) ltac:(lia)) as H2.
  rewrite Heq, H2 in H1. injection H1 as H1 H1'. lia.
Qed.

Section Connectors.
Context (env : Env) (filters : Filters) (ns : list Node) (es : list Edge).

#[local] Abbreviation visible := (Clustered.visibleNodes filters ns).
#[local] Abbreviation ve := (Clustered.visibleEdges filters ns es).
#[local] Abbreviation cc := (Clustered.counts filters ns es).
#[local] Abbreviation grps := (Clustered.groups filters ns).
#[local] Abbreviation related := (connectorOf visible ve cc grps).

Hypothesis Hnd : NoDup (map node_id visible).
Hypothesis Hids : Forall (λ n, node_id n ≠ "") visible.
Hypothesis Hnonneg : Forall (λ n, ∀ c, cluster_id n = Some c → 0 <= c) visible.

Lemma pairKey_comm (a b : Z) : Clustered.pairKey a b = Clustered.pairKey b a.
Proof. by rewrite !pairKey_eq, Z.min_comm, Z.max_comm. Qed.

Lemma connected_related (s : string) :
  s ∈ Clustered.connectedClusters
        (Clustered.nodeClusterMap (Clustered.layoutNodes env filters ns es)) ve →
  ∃ ce, Clustered.connectorEdge (Clustered.clusterCenters cc grps) s = [ce]
        ∧ related s ce.
Proof.
  intros Hs. apply connectedClusters_spec in Hs
    as (e & a' & b' & He & Ha' & Hb' & Hne & ->).
  apply clusterOf_spec in Ha' as (n & Hn & Hnid & Hnc); [|done].
  apply clusterOf_spec in Hb' as (m & Hm & Hmid & Hmc); [|done].
  rewrite Forall_forall in Hids, Hnonneg.
  pose proof (Hnonneg n Hn a' Hnc) as Ha0.
  pose proof (Hnonneg m Hm b' Hmc) as Hb0.
  destruct (hub_lookup cc visible n Hn) as (hubN & HhubN & HinN & HcN).
  destruct (hub_lookup cc visible m Hm) as (hubM & HhubM & HinM & HcM).
  assert (Hkn : Clustered.groupKey n = a')
    by (unfold Clustered.groupKey; by rewrite Hnc).
  assert (Hkm : Clustered.groupKey m = b')
    by (unfold Clustered.groupKey; by rewrite Hmc).
  rewrite Hkn in HhubN, HcN. rewrite Hkm in HhubM, HcM.
  destruct (Z.lt_trichotomy a' b') as [Hlt|[Heq|Hgt]]; [|done|].
  - destruct (connectorEdge_pair _ a' b' _ _ Ha0 Hlt HcN HcM
                (Hids _ HinN) (Hids _ HinM)) as (ce & Hce & Hd & Hsrc & Htgt).
    exists ce. split; [done|]. exists a', b', hubN, hubM.
    split; [|done]. split; [done|]. exists e, n, m. auto 10.
  - destruct (connectorEdge_pair _ b' a' _ _ Hb0 Hgt HcM HcN
                (Hids _ HinM) (Hids _ HinN)) as (ce & Hce & Hd & Hsrc & Htgt).
    exists ce. rewrite (pairKey_comm a' b'). split; [done|].
    exists b', a', hubM, hubN.
    split; [|done]. split; [done|]. exists e, m, n. auto 10.
Qed.

Lemma connectors_related :
  Forall2 related
    (Clustered.connectedClusters
       (Clustered.nodeClusterMap (Clustered.layoutNodes env filters ns es)) ve)
    (Clustered.connectors env filters ns es).
Proof.
  unfold Clustered.connectors, Clustered.clusterConnectorEdges.
  apply concat_map_singletons. apply connected_related.
Qed.

Lemma crossing_connected (a b : Z) :
  crossing visible ve a b →
  0 <= a
  ∧ Clustered.pairKey a b
    ∈ Clustered.connectedClusters
        (Clustered.nodeClusterMap (Clustered.layoutNodes env filters ns es)) ve.
Proof.
  intros (Hab & e & n & m & He & Hn & Hm & Hnc & Hmc & Hends).
  rewrite Forall_forall in Hnonneg.
  split; [by apply (Hnonneg n Hn)|].
  apply connectedClusters_spec.
  destruct Hends as [[Hs Ht]|[Ht Hs]].
  - exists e, a, b. split; [done|].
    split; [apply clusterOf_spec; eauto|].
    split; [apply clusterOf_spec; eauto|]. split; [lia | done].
  - exists e, b, a. split; [done|].
    split; [apply clusterOf_spec; eauto|].
    split; [apply clusterOf_spec; eauto|]. split; [lia | apply pairKey_comm].
Qed.

Lemma connectors_spec :
  let out := Clustered.connectors env filters ns es in
  NoDup (map fe_data out)
  ∧ (∀ a b, crossing visible ve a b ↔ ClusterConnector (a, b) ∈ map fe_data out)
  ∧ (∀ pairs : list (Z * Z),
       NoDup pairs → (∀ a b, (a, b) ∈ pairs ↔ crossing visible ve a b) →
       length out = length pairs)
  ∧ Forall (λ ce, ∃ a b hubA hubB,
              fe_data ce = ClusterConnector (a, b)
              ∧ crossing visible ve a b
              ∧ hubOf cc grps a hubA ∧ hubOf cc grps b hubB
              ∧ fe_source ce = node_id hubA ∧ fe_target ce = node_id hubB) out.
Proof.
  intros out. pose proof connectors_related as HF. fold out in HF.
  set (connected := Clustered.connectedClusters _ ve) in HF.
  assert (Hcnd : NoDup connected) by apply connectedClusters_spec.
  assert (Hout : Forall (λ ce, ∃ a b hubA hubB,
              fe_data ce = ClusterConnector (a, b)
              ∧ crossing visible ve a b
              ∧ hubOf cc grps a hubA ∧ hubOf cc grps b hubB
              ∧ fe_source ce = node_id hubA ∧ fe_target ce = node_id hubB) out).
  { apply Forall_forall. intros ce Hce.
    destruct (Forall2_elem_r _ _ _ _ HF Hce)
      as (s & _ & a & b & hubA & hubB & ? & ? & ? & ? & ? & ? & ? & ?).
    exists a, b, hubA, hubB. auto 10. }
  assert (Hdnd : NoDup (map fe_data out)).
  { eapply Forall2_NoDup_map; [exact HF | exact Hcnd|].
    intros s s' ce ce' (a & b & ? & ? & _ & _ & -> & Hd & _)
      (a' & b' & ? & ? & _ & _ & -> & Hd' & _) Heq.
    rewrite Hd, Hd' in Heq. by injection Heq as -> ->. }
  assert (Hiff : ∀ a b, crossing visible ve a b
                        ↔ ClusterConnector (a, b) ∈ map fe_data out).
  { intros a b. split.
    - intros Hc. pose proof Hc as [Hab _].
      destruct (crossing_connected a b Hc) as [Ha Hin].
      destruct (Forall2_elem_l _ _ _ _ HF Hin)
        as (ce & Hce & a' & b' & ? & ? & [Hab' _] & Ha' & Hkey & Hd & _).
      apply pairKey_inj in Hkey as [-> ->]; [|done..].
      rewrite <- Hd. by apply (list_elem_of_fmap_2 fe_data).
    - intros Hin. apply list_elem_of_fmap in Hin as (ce & Hd & Hce).
      rewrite Forall_forall in Hout.
      destruct (Hout ce Hce) as (a' & b' & _ & _ & Hd' & Hc & _).
      rewrite Hd' in Hd. by injection Hd as -> ->. }
  split; [done|]. split; [done|]. split; [|done].
  intros pairs Hpnd Hpairs.
  rewrite <- (length_map fe_data out).
  rewrite <- (length_map ClusterConnector pairs).
  apply Permutation_length, NoDup_Permutation; [done| |].
  - apply NoDup_fmap_2; [|done]. intros p q [= ->]. done.
  - intros d. split.
    + intros Hd. pose proof Hd as Hd'.
      apply list_elem_of_fmap in Hd' as (ce & -> & Hce).
      rewrite Forall_forall in Hout.
      destruct (Hout ce Hce) as (a & b & _ & _ & Hda & Hc & _).
      rewrite Hda. apply (list_elem_of_fmap_2 ClusterConnector).
      by apply Hpairs.
    + intros Hd. apply list_elem_of_fmap in Hd as ([a b] & -> & Hp).
      apply Hiff. by apply Hpairs.
Qed.

End Connectors.

(** C5, as the code has it. Take a graph whose visible nodes have distinct,
    non-empty ids that name no property of [Object.prototype], and cluster
    ids that are undefined or not negative.  An
    edge with an end at a node without cluster id contributes no pair.  The
    connector edges are in one-to-one correspondence with the unordered
    pairs of distinct cluster ids joined by a visible edge: no two
    connectors carry the same pair, a pair is carried by a connector
    exactly when a visible edge joins the two clusters, so the number of
    connectors is the number of such pairs; and the connector of a pair
    runs from the hub of the cluster of smaller id to the hub of the other,
    the hubs being the nodes the layout puts at the cluster centres. *)
Theorem connectors_one_per_pair (env : Env) (filters : Filters)
    (ns : list Node) (es : list Edge) :
  let visible := Clustered.visibleNodes filters ns in
  let ve := Clustered.visibleEdges filters ns es in
  let cc := Clustered.counts filters ns es in
  let grps := Clustered.groups filters ns in
  let out := Clustered.connectors env filters ns es in
  NoDup (map node_id visible) →
  Forall (λ n, node_id n ≠ "") visible →
  ordinaryIds visible →
  Forall (λ n, ∀ c, cluster_id n = Some c → 0 <= c) visible →
  NoDup (map fe_data out)
  ∧ (∀ a b, crossing visible ve a b ↔ ClusterConnector (a, b) ∈ map fe_data out)
  ∧ (∀ pairs : list (Z * Z),
       NoDup pairs → (∀ a b, (a, b) ∈ pairs ↔ crossing visible ve a b) →
       length out = length pairs)
  ∧ Forall (λ ce, ∃ a b hubA hubB,
              fe_data ce = ClusterConnector (a, b)
              ∧ crossing visible ve a b
              ∧ hubOf cc grps a hubA ∧ hubOf cc grps b hubB
              ∧ fe_source ce = node_id hubA ∧ fe_target ce = node_id hubB) out.
Proof.
  intros visible ve cc grps out Hnd Hids _ Hnonneg. by apply connectors_spec.
Qed.

(** C5, at a graph of two clusters joined by two edges, with a third edge
    to a node without cluster id. *)
Lemma connectors_one_per_pair_witness :
  let a := mkNode "a" 0 false (Some 0) in
  let b := mkNode "b" 0 false (Some 1) in
  let c := mkNode "c" 0 false (Some 1) in
  let u := mkNode "u" 0 false None in
  let ns := [a; b; c; u] in
  let es := [mkEdge "a" "b"; mkEdge "c" "a"; mkEdge "b" "c"; mkEdge "a" "u"] in
  let out := Clustered.connectors noEnv noFilter ns es in
  Clustered.visibleNodes noFilter ns = ns
  ∧ map (λ ce, (fe_id ce, fe_source ce, fe_target ce)) out
    = [("cluster-conn-0-1", "a", "b")]
  ∧ NoDup (map fe_data out)
  ∧ Forall (λ ce, ∃ a b hubA hubB,
              fe_data ce = ClusterConnector (a, b)
              ∧ crossing (Clustered.visibleNodes noFilter ns)
                         (Clustered.visibleEdges noFilter ns es) a b
              ∧ hubOf (Clustered.counts noFilter ns es)
                      (Clustered.groups noFilter ns) a hubA
              ∧ hubOf (Clustered.counts noFilter ns es)
                      (Clustered.groups noFilter ns) b hubB
              ∧ fe_source ce = node_id hubA ∧ fe_target ce = node_id hubB) out.
Proof.
  intros a b c u ns es out.
  split; [reflexivity|]. split; [reflexivity|].
  destruct (connectors_one_per_pair noEnv noFilter ns es) as (H1 & _ & _ & H2).
  - change (Clustered.visibleNodes noFilter ns) with ns.
    apply (bool_decide_unpack _). vm_compute. exact I.
  - change (Clustered.visibleNodes noFilter ns) with ns.
    repeat constructor; discriminate.
  - change (Clustered.visibleNodes noFilter ns) with ns.
    apply (bool_decide_unpack _). vm_compute. exact I.
  - change (Clustered.visibleNodes noFilter ns) with ns.
    repeat constructor; intros k [= <-]; lia.
  - split; [exact H1 | exact H2].
Defined.

(** C5, counterexamples.  First graph: [a] in cluster 0 and [u] without
    cluster id, which the layout puts in the group of key -1, and one edge
    between them: the edge crosses the two groups and there is no
    connector.  Second graph: [d] with cluster id -1 and [e] with cluster
    id 2, and one edge between them: the pair key is ["-1-2"], which is
    read back as clusters 0 and 1, and there is no connector. *)
Lemma connectors_miss_unclustered_and_negative :
  (let a := mkNode "a" 0 false (Some 0) in
   let u := mkNode "u" 0 false None in
   let ns := [a; u] in
   let es := [mkEdge "a" "u"] in
   Clustered.visibleEdges noFilter ns es = es
   ∧ Clustered.groups noFilter ns = [(0, [a]); (-1, [u])]
   ∧ Clustered.connectors noEnv noFilter ns es = [])
  ∧ (let d := mkNode "d" 0 false (Some (-1)) in
     let e := mkNode "e" 0 false (Some 2) in
     let ns := [d; e] in
     let es := [mkEdge "d" "e"] in
     Clustered.visibleEdges noFilter ns es = es
     ∧ Clustered.groups noFilter ns = [(-1, [d]); (2, [e])]
     ∧ Clustered.connectedClusters
         (Clustered.nodeClusterMap (Clustered.layoutNodes noEnv noFilter ns es))
         (Clustered.visibleEdges noFilter ns es) = ["-1-2"]
     ∧ Clustered.connectors noEnv noFilter ns es = []).
Proof. split; repeat split; reflexivity. Qed.

(** With a negative cluster id a connector can also join two clusters that
    no edge joins: the edge between clusters -1 and 2 yields the connector
    of clusters 0 and 1. *)
Example negative_id_connects_other_clusters :
  let p := mkNode "p" 0 false (Some 0) in
  let q := mkNode "q" 0 false (Some 1) in
  let d := mkNode "d" 0 false (Some (-1)) in
  let e := mkNode "e" 0 false (Some 2) in
  let ns := [p; q; d; e] in
  let es := [mkEdge "d" "e"] in
  map (λ ce, (fe_id ce, fe_source ce, fe_target ce))
      (Clustered.connectors noEnv noFilter ns es)
  = [("cluster-conn-0-1", "p", "q")].
Proof. reflexivity. Qed.

(** * Further properties of the page *)

(** ** Edges of the output refer to nodes of the output *)

Lemma clusterCenters_value (cc : gmap string Z) (g : list (Z * list Node))
    (c : Z) (h : string) :
  Clustered.clusterCenters cc g !! c = Some h →
  ∃ ms n, (c, ms) ∈ g ∧ n ∈ ms ∧ node_id n = h.
Proof.
  unfold Clustered.clusterCenters.
  assert (Hgen : ∀ entries : list (Z * list Node),
    foldl (λ centers entry,
             match snd entry with
             | [] => centers
             | first :: _ =>
                 <[fst entry := node_id (Clustered.centerNode cc first (snd entry))]>
                   centers
             end) (∅ : gmap Z string) entries !! c = Some h →
    ∃ ms n, (c, ms) ∈ entries ∧ n ∈ ms ∧ node_id n = h).
  { induction entries as [|[k ms] entries IH] using rev_ind; intros Hl.
    - done.
    - rewrite foldl_app in Hl. simpl in Hl.
      assert (Hold : foldl (λ centers entry,
             match snd entry with
             | [] => centers
             | first :: _ =>
                 <[fst entry := node_id (Clustered.centerNode cc first (snd entry))]>
                   centers
             end) (∅ : gmap Z string) entries !! c = Some h →
             ∃ ms' n, (c, ms') ∈ entries ++ [(k, ms)] ∧ n ∈ ms' ∧ node_id n = h).
      { intros H. destruct (IH H) as (ms' & n & ? & ? & ?).
        exists ms', n. rewrite elem_of_app. auto. }
      destruct ms as [|first rest]; [by apply Hold|].
      destruct (decide (k = c)) as [->|Hne].
      + rewrite lookup_insert_eq in Hl. injection Hl as <-.
        exists (first :: rest), (Clustered.centerNode cc first (first :: rest)).
        split; [rewrite elem_of_app, list_elem_of_singleton; by right|].
        split; [|done].
        rewrite centerNode_scanMax, scanMax_self.
        eapply firstMax_elem, scanMax_firstMax.
      + rewrite lookup_insert_ne in Hl by done. by apply Hold. }
  intros Hl. destruct (Hgen _ Hl) as (ms & n & Hin & ? & ?).
  exists ms, n. by rewrite <- (objectEntries_elem g).
Qed.

Lemma clusterGroups_members (l : list Node) (k : Z) (ms : list Node) (n : Node) :
  (k, ms) ∈ Clustered.clusterGroups l → n ∈ ms → n ∈ l.
Proof.
  intros Hin Hn. destruct (clusterGroups_inv l) as (_ & _ & Hgrp).
  destruct (Hgrp _ _ Hin) as [_ Hms]. rewrite Hms in Hn.
  by apply elem_of_List_filter in Hn as [? _].
Qed.

Lemma layoutNodes_ids (env : Env) (filters : Filters) (ns : list Node)
    (es : list Edge) :
  map fn_id (Clustered.layoutNodes env filters ns es)
  ≡ₚ map node_id (Clustered.visibleNodes filters ns).
Proof.
  unfold Clustered.layoutNodes. rewrite flowNodes_ids.
  apply Permutation_map. rewrite flowNodes_nodes.
  apply clusterGroups_Permutation.
Qed.

Lemma connectorEdge_ends (centers : gmap Z string) (pair : string) (ce : FlowEdge) :
  ce ∈ Clustered.connectorEdge centers pair →
  ∃ c1 c2, centers !! c1 = Some (fe_source ce)
           ∧ centers !! c2 = Some (fe_target ce)
           ∧ fe_data ce = ClusterConnector (c1, c2)
           ∧ fe_source ce ≠ "" ∧ fe_target ce ≠ "".
Proof.
  unfold Clustered.connectorEdge.
  destruct (Clustered.pairClusters pair) as [[c1|] [c2|]];
    try (intros H; by apply elem_of_nil in H).
  destruct (centers !! c1) as [h1|] eqn:H1;
    [|intros H; by apply elem_of_nil in H].
  destruct (centers !! c2) as [h2|] eqn:H2;
    [|intros H; by apply elem_of_nil in H].
  destruct (Js.truthy h1) eqn:T1, (Js.truthy h2) eqn:T2; simpl;
    try (intros H; by apply elem_of_nil in H).
  intros ->%list_elem_of_singleton. simpl.
  apply truthy_spec in T1, T2. exists c1, c2. auto.
Qed.

(** X1. Every edge the page hands to the rendering surface, raw or
    connector, starts and ends at the id of a node it hands over with it;
    so for the clustered layout, whatever the cluster ids, and so for the
    grid layout. *)
Theorem edges_reference_nodes (env : Env) (filters : Filters) (ns : list Node)
    (es : list Edge) (view : View) (rnd : nat → R) (cur : nat) :
  let data := Some {| nodes := Some ns; edges := Some es |} in
  let v := Clustered.processGraphData env filters data view in
  let w := fst (Grid.processGraphData env filters data view rnd cur) in
  Forall (λ e, fe_source e ∈ map fn_id (view_nodes v)
               ∧ fe_target e ∈ map fn_id (view_nodes v)) (view_edges v)
  ∧ Forall (λ e, fe_source e ∈ map fn_id (view_nodes w)
                 ∧ fe_target e ∈ map fn_id (view_nodes w)) (view_edges w).
Proof.
  intros data v w. split.
  - unfold v, data. cbn [Clustered.processGraphData nodes edges].
    unfold Clustered.layout. cbn [view_nodes view_edges].
    pose proof (layoutNodes_ids env filters ns es) as Hids.
    apply Forall_app. split.
    + unfold Clustered.layoutEdges, Clustered.flowEdges.
      apply Forall_lookup. intros i fe Hfe.
      apply list_lookup_imap_Some in Hfe as (e & He & ->).
      apply list_elem_of_lookup_2 in He.
      apply elem_of_List_filter in He as [_ He].
      apply andb_prop in He as [Hs Ht].
      apply bool_decide_eq_true in Hs, Ht.
      unfold Clustered.nodeIds in Hs, Ht.
      rewrite elem_of_list_to_set in Hs, Ht.
      cbn [Clustered.flowEdge fe_source fe_target]. by rewrite !Hids.
    + apply Forall_forall. intros ce Hce.
      unfold Clustered.connectors, Clustered.clusterConnectorEdges in Hce.
      apply list_elem_of_In, in_concat in Hce as (l & Hl & Hce).
      apply in_map_iff in Hl as (pair & <- & _).
      apply list_elem_of_In, connectorEdge_ends in Hce
        as (c1 & c2 & H1 & H2 & _).
      apply clusterCenters_value in H1 as (ms1 & n1 & Hg1 & Hn1 & <-).
      apply clusterCenters_value in H2 as (ms2 & n2 & Hg2 & Hn2 & <-).
      rewrite !Hids. split; apply (list_elem_of_fmap_2 node_id).
      * exact (clusterGroups_members _ _ _ _ Hg1 Hn1).
      * exact (clusterGroups_members _ _ _ _ Hg2 Hn2).
  - unfold w, data. rewrite grid_run. cbn [fst view_nodes view_edges].
    unfold Grid.flowEdges. apply Forall_lookup. intros i fe Hfe.
    apply list_lookup_imap_Some in Hfe as (e & He & ->).
    apply list_elem_of_lookup_2 in He.
    apply elem_of_List_filter in He as [_ He].
    apply andb_prop in He as [Hs Ht].
    apply bool_decide_eq_true in Hs, Ht.
    rewrite elem_of_list_to_set in Hs, Ht. done.
Qed.

(** ** Tightening the filter *)

Lemma sublist_List_filter_impl {A} (p q : A → bool) (l : list A) :
  (∀ x, x ∈ l → p x = true → q x = true) →
  sublist (List.filter p l) (List.filter q l).
Proof.
  induction l as [|x l IH]; intros H; simpl; [constructor|].
  assert (IH' : sublist (List.filter p l) (List.filter q l)).
  { apply IH. intros y Hy. apply H. by right. }
  destruct (p x) eqn:Hp.
  - rewrite (H x) by (done || left). by constructor.
  - destruct (q x); [by constructor | done].
Qed.

(** X2. Tightening the filter never adds anything: when the new filter
    asks for flagged nodes wherever the old one did, has a minimum score at
    least as high, and keeps the cluster choice or adds one where there was
    none, the new visible nodes are a sublist of the old ones, and so are
    the new visible edges. *)
Theorem filter_monotone (f f' : Filters) (ns : list Node) (es : list Edge) :
  (showMuleOnly f = true → showMuleOnly f' = true) →
  (minRiskScore f <= minRiskScore f')%Q →
  cluster f = cluster f' ∨ cluster f = "" →
  sublist (Clustered.visibleNodes f' ns) (Clustered.visibleNodes f ns)
  ∧ sublist (Clustered.visibleEdges f' ns es) (Clustered.visibleEdges f ns es).
Proof.
  intros Hmule Hmin Hcl.
  assert (Himpl : ∀ n, nodeFilter f' n = true → nodeFilter f n = true).
  { intros n. rewrite !nodeFilter_spec. intros (H1 & H2 & H3).
    split; [|split].
    - intros Hs. apply H1, Hmule, Hs.
    - eapply Qle_trans; [exact Hmin | exact H2].
    - intros Hne. destruct Hcl as [Heq|Hemp]; [|done].
      rewrite Heq in Hne |- *. by apply H3. }
  split.
  - apply sublist_List_filter_impl. intros n _. apply Himpl.
  - apply sublist_List_filter_impl. intros e _.
    rewrite !andb_true_iff, !bool_decide_eq_true.
    unfold Clustered.nodeIds. rewrite !elem_of_list_to_set, !list_elem_of_fmap.
    unfold Clustered.visibleNodes, Clustered.filteredNodes.
    setoid_rewrite elem_of_List_filter.
    intros [(n & ? & ? & ?) (m & ? & ? & ?)]. split; eauto 10.
Qed.

(** X2, raising the minimum score from 0 to 70 over nodes scoring 10, 75
    and 90. *)
Lemma filter_monotone_witness :
  let ns := [mkNode "a" 10 false (Some 0); mkNode "b" 75 true (Some 0);
             mkNode "c" 90 false (Some 1)] in
  let es := [mkEdge "a" "b"; mkEdge "b" "c"] in
  let f' := {| showMuleOnly := false; minRiskScore := 70; cluster := "" |} in
  sublist (Clustered.visibleNodes f' ns) (Clustered.visibleNodes noFilter ns)
  ∧ sublist (Clustered.visibleEdges f' ns es) (Clustered.visibleEdges noFilter ns es).
Proof.
  intros ns es f'. apply (filter_monotone noFilter f' ns es).
  - discriminate.
  - vm_compute. discriminate.
  - left. reflexivity.
Defined.

(** ** The flags of a raw edge *)

(** X3. With distinct visible ids, none of them the name of a property of
    [Object.prototype], the edge made for the visible edge at index [i]
    keeps its endpoints and is animated exactly when the payload marks it
    suspicious; a suspicious edge is red whatever its clusters and the
    pattern state; and the edge is marked intra-cluster exactly when its
    two ends are visible nodes that carry the same cluster id. *)
Theorem raw_edge_flags (env : Env) (filters : Filters) (ns : list Node)
    (es : list Edge) (i : nat) (e : Edge) :
  NoDup (map node_id (Clustered.visibleNodes filters ns)) →
  ordinaryIds (Clustered.visibleNodes filters ns) →
  Clustered.visibleEdges filters ns es !! i = Some e →
  ∃ fe isCircular intra,
    Clustered.layoutEdges env filters ns es !! i = Some fe
    ∧ fe_source fe = source e ∧ fe_target fe = target e
    ∧ fe_animated fe = suspicious e
    ∧ fe_data fe = RawEdge (suspicious e) isCircular (amount e) intra
    ∧ fe_type fe = Some (if intra then "default" else "smoothstep")
    ∧ (suspicious e = true → stroke (fe_style fe) = Some "#ef4444")
    ∧ (intra = true ↔
       ∃ n m c, n ∈ Clustered.visibleNodes filters ns
                ∧ m ∈ Clustered.visibleNodes filters ns
                ∧ node_id n = source e ∧ node_id m = target e
                ∧ cluster_id n = Some c ∧ cluster_id m = Some c).
Proof.
  intros Hnd _ He.
  set (ncm := Clustered.nodeClusterMap (Clustered.layoutNodes env filters ns es)).
  exists (Clustered.flowEdge env ncm i e), (Clustered.isPartOfCircular env),
    (Clustered.isIntraCluster (Clustered.clusterOf ncm (source e))
                              (Clustered.clusterOf ncm (target e))).
  split.
  { unfold Clustered.layoutEdges, Clustered.flowEdges.
    by rewrite list_lookup_imap, He. }
  split; [done|]. split; [done|]. split; [done|]. split; [done|].
  split; [done|]. split.
  { intros Hs. cbn [Clustered.flowEdge fe_style]. unfold Clustered.edgeStyle.
    by rewrite Hs. }
  unfold Clustered.isIntraCluster. split.
  - destruct (Clustered.clusterOf ncm (source e)) as [a|] eqn:Ha; [|done].
    destruct (Clustered.clusterOf ncm (target e)) as [b|] eqn:Hb; [|done].
    intros ->%Z.eqb_eq.
    apply clusterOf_spec in Ha as (n & ? & ? & ?); [|done].
    apply clusterOf_spec in Hb as (m & ? & ? & ?); [|done].
    exists n, m, b. auto 10.
  - intros (n & m & c & Hn & Hm & Hns & Hms & Hnc & Hmc).
    assert (Ha : Clustered.clusterOf ncm (source e) = Some c)
      by (apply clusterOf_spec; eauto).
    assert (Hb : Clustered.clusterOf ncm (target e) = Some c)
      by (apply clusterOf_spec; eauto).
    rewrite Ha, Hb. apply Z.eqb_refl.
Qed.

(** X3, at two nodes of cluster 3 joined by a suspicious edge. *)
Lemma raw_edge_flags_witness :
  let ns := [mkNode "a" 0 false (Some 3); mkNode "b" 0 false (Some 3)] in
  let e := {| source := "a"; target := "b"; suspicious := true;
              amount := None; weight := None |} in
  ∃ fe, Clustered.layoutEdges noEnv noFilter ns [e] !! 0%nat = Some fe
        ∧ fe_animated fe = true
        ∧ stroke (fe_style fe) = Some "#ef4444"
        ∧ fe_type fe = Some "default".
Proof.
  intros ns e.
  destruct (raw_edge_flags noEnv noFilter ns [e] 0%nat e)
    as (fe & circ & intra & H1 & _ & _ & H2 & _ & H3 & H4 & H5).
  - apply (bool_decide_unpack _). vm_compute. exact I.
  - apply (bool_decide_unpack _). vm_compute. exact I.
  - reflexivity.
  - exists fe. split; [done|]. split; [done|]. split; [by apply H4|].
    rewrite H3. replace intra with true; [done|].
    symmetry. apply H5.
    exists (mkNode "a" 0 false (Some 3)), (mkNode "b" 0 false (Some 3)), 3.
    repeat split; try reflexivity.
    + left.
    + right. left.
Defined.

(** ** Reading back a number turned into a string *)

Ltac eval_digit :=
  match goal with
  | |- context [Js.digitVal ?c] =>
      let v := eval vm_compute in (Js.digitVal c) in
      change (Js.digitVal c) with v
  end.

Lemma digitsPrefix_uint (d : Decimal.uint) (acc : Z) :
  Js.digitsPrefix 10 (NilEmpty.string_of_uint d) (Some acc)
  = Some (digitsValue d acc).
Proof.
  revert acc. induction d; intros acc;
    cbn [NilEmpty.string_of_uint Js.digitsPrefix digitsValue];
    try done; eval_digit; cbn; apply IHd.
Qed.

Lemma digitsPrefix_uint_None (d : Decimal.uint) :
  d ≠ Decimal.Nil →
  Js.digitsPrefix 10 (NilEmpty.string_of_uint d) None = Some (digitsValue d 0).
Proof.
  destruct d; intros Hd; [done|..];
    cbn [NilEmpty.string_of_uint Js.digitsPrefix digitsValue];
    eval_digit; cbn; apply digitsPrefix_uint.
Qed.

Lemma digitsValue_acc (d : Decimal.uint) (acc : positive) :
  digitsValue d (Z.pos acc) = Z.pos (Pos.of_uint_acc d acc).
Proof.
  revert acc. induction d; intros acc; cbn [digitsValue Pos.of_uint_acc];
    try done.
  all: match goal with
       | |- digitsValue _ ?a = Z.pos (Pos.of_uint_acc _ ?b) =>
           replace a with (Z.pos b) by lia
       end; apply IHd.
Qed.

Lemma digitsValue_of_uint (d : Decimal.uint) :
  digitsValue d 0 = Z.of_N (Pos.of_uint d).
Proof.
  induction d; cbn [digitsValue Pos.of_uint]; try done.
  all: match goal with
       | |- digitsValue _ ?a = _ => change a with (Z.pos 1) || change a with (Z.pos 2)
           || change a with (Z.pos 3) || change a with (Z.pos 4)
           || change a with (Z.pos 5) || change a with (Z.pos 6)
           || change a with (Z.pos 7) || change a with (Z.pos 8)
           || change a with (Z.pos 9)
       end; by rewrite digitsValue_acc.
Qed.

Lemma fmap_mul_1 (o : option Z) : Z.mul 1 <$> o = o.
Proof. destruct o as [z|]; simpl; [|done]. f_equal. lia. Qed.

Lemma parseInt_unsigned (d : Decimal.uint) :
  d ≠ Decimal.Nil →
  Js.parseInt (NilEmpty.string_of_uint d)
  = Z.mul 1 <$> Js.digitsPrefix 10 (NilEmpty.string_of_uint d) None.
Proof.
  intros Hd. destruct d as [|d|d|d|d|d|d|d|d|d|d]; [done|..]; try reflexivity.
  destruct d; reflexivity.
Qed.

Lemma parseInt_negated (d : Decimal.uint) :
  d ≠ Decimal.Nil →
  Js.parseInt (String "-" (NilEmpty.string_of_uint d))
  = Z.mul (-1) <$> Js.digitsPrefix 10 (NilEmpty.string_of_uint d) None.
Proof.
  intros Hd. destruct d as [|d|d|d|d|d|d|d|d|d|d]; [done|..]; try reflexivity.
  destruct d; reflexivity.
Qed.

(** [parseInt] reads back every integer that was turned into a string. *)
Lemma parseInt_toString (c : Z) :
  Js.parseInt (Js.toString c) = Some c ∧ Js.toString c ≠ "".
Proof.
  destruct c as [|p|p]; [split; [reflexivity | discriminate]|..].
  all: pose proof (Unsigned.to_uint_nonnil p) as Hnil.
  all: assert (Hs : NilZero.string_of_uint (Pos.to_uint p)
                    = NilEmpty.string_of_uint (Pos.to_uint p))
         by (by destruct (Pos.to_uint p)).
  all: assert (Hv : digitsValue (Pos.to_uint p) 0 = Z.pos p)
         by (by rewrite digitsValue_of_uint, Unsigned.of_to).
  - unfold Js.toString. cbn [Z.to_int NilZero.string_of_int]. rewrite Hs.
    split.
    + rewrite parseInt_unsigned, digitsPrefix_uint_None, fmap_mul_1, Hv by done.
      done.
    + by destruct (Pos.to_uint p).
  - unfold Js.toString. cbn [Z.to_int NilZero.string_of_int]. rewrite Hs.
    split; [|discriminate].
    rewrite parseInt_negated, digitsPrefix_uint_None, Hv by done. done.
Qed.

(** ** The cluster list, the legend and the cluster select *)

Lemma newSet_foldl {A} `{EqDecision A} (xs acc : list A) :
  NoDup acc →
  let s := foldl (λ s x, if bool_decide (x ∈ s) then s else s ++ [x]) acc xs in
  NoDup s ∧ ∀ x, x ∈ s ↔ x ∈ acc ∨ x ∈ xs.
Proof.
  revert acc. induction xs as [|y xs IH]; intros acc Hacc; simpl.
  - split; [done|]. intros x. rewrite elem_of_nil. tauto.
  - case_bool_decide as Hy.
    + destruct (IH acc Hacc) as [Hnd Hel]. split; [done|].
      intros x. rewrite Hel, elem_of_cons.
      split; [tauto|]. intros [?|[->|?]]; tauto.
    + assert (Hacc' : NoDup (acc ++ [y])).
      { apply NoDup_app. split_and!; [done| |apply NoDup_singleton].
        intros x Hx ->%list_elem_of_singleton. done. }
      destruct (IH _ Hacc') as [Hnd Hel]. split; [done|].
      intros x. rewrite Hel, elem_of_app, list_elem_of_singleton, elem_of_cons.
      tauto.
Qed.

Lemma newSet_spec {A} `{EqDecision A} (xs : list A) :
  NoDup (Page.newSet xs) ∧ ∀ x, x ∈ Page.newSet xs ↔ x ∈ xs.
Proof.
  destruct (newSet_foldl xs [] (NoDup_nil_2)) as [Hnd Hel].
  split; [exact Hnd|]. intros x. unfold Page.newSet. rewrite Hel, elem_of_nil.
  tauto.
Qed.

Lemma sortInsert_ascending (x : Z) (l : list Z) :
  ascending l → x ∉ l → ascending (Js.sortInsert (λ a b, a - b) x l).
Proof.
  induction l as [|y l IH]; intros Hl Hx; simpl.
  - split; [constructor | exact I].
  - destruct Hl as [Hy Hl].
    apply not_elem_of_cons in Hx as [Hxy Hx].
    destruct (Z.leb_spec (x - y) 0) as [Hle|Hgt].
    + split; [|by split].
      constructor; [lia|].
      eapply Forall_impl; [exact Hy|]. simpl. intros z Hz. lia.
    + simpl. split; [|by apply IH].
      rewrite sortInsert_Permutation. constructor; [lia | exact Hy].
Qed.

Lemma sort_ascending (l : list Z) :
  NoDup l → ascending (Js.sort (λ a b, a - b) l).
Proof.
  induction 1 as [|x l Hx Hl IH]; simpl; [exact I|].
  apply sortInsert_ascending; [exact IH|].
  by rewrite sort_Permutation.
Qed.

Lemma ascending_NoDup (l : list Z) : ascending l → NoDup l.
Proof.
  induction l as [|x l IH]; simpl; [constructor|].
  intros [Hx Hl]. constructor; [|by apply IH].
  intros Hin. rewrite Forall_forall in Hx. specialize (Hx _ Hin). lia.
Qed.

Lemma clusters_spec (ns : list Node) (es : option (list Edge)) :
  let l := Page.clusters (Some {| nodes := Some ns; edges := es |}) in
  ascending l ∧ ∀ c, c ∈ l ↔ ∃ n, n ∈ ns ∧ cluster_id n = Some c.
Proof.
  simpl. destruct (newSet_spec (omap cluster_id ns)) as [Hnd Hel]. split.
  - by apply sort_ascending.
  - intros c. rewrite sort_Permutation, Hel. apply list_elem_of_omap.
Qed.

(** X4. The cluster list of the page is strictly ascending and holds exactly
    the cluster ids that some node of the payload carries; it is empty when
    the payload or its node list is missing. *)
Theorem clusters_ascending_exact (fullData : option GraphData) :
  ascending (Page.clusters fullData)
  ∧ ∀ c, c ∈ Page.clusters fullData ↔
         ∃ d ns n, fullData = Some d ∧ nodes d = Some ns
                   ∧ n ∈ ns ∧ cluster_id n = Some c.
Proof.
  destruct fullData as [[[ns|] es]|].
  - destruct (clusters_spec ns es) as [Hasc Hel]. split; [exact Hasc|].
    intros c. rewrite (Hel c). split.
    + intros (n & Hn & Hc). by exists {| nodes := Some ns; edges := es |}, ns, n.
    + intros (d & ns' & n & [= <-] & [= <-] & Hn & Hc). eauto.
  - split; [exact I|]. intros c. simpl. rewrite elem_of_nil. split; [done|].
    intros (d & ns' & n & [= <-] & Hns & _). discriminate.
  - split; [exact I|]. intros c. simpl. rewrite elem_of_nil. split; [done|].
    intros (d & ns' & n & Hd & _). discriminate.
Qed.

Lemma nodeFilter_select (c : Z) (prev : Filters) (n : Node) :
  nodeFilter (Page.onClusterChange (Js.toString c) prev) n
  = nodeFilter (Page.onClusterChange "" prev) n
    && Js.strictEq (cluster_id n) (Some c).
Proof.
  destruct (parseInt_toString c) as [Hp Hne].
  apply truthy_spec in Hne.
  unfold nodeFilter, Page.onClusterChange. cbn [showMuleOnly minRiskScore cluster].
  rewrite Hp, Hne. change (Js.truthy "") with false.
  destruct (showMuleOnly prev && negb (mule_suspected n)); [done|].
  destruct (Qlt_le_dec _ _); [done|].
  simpl. by destruct (Js.strictEq _ _).
Qed.

Lemma List_filter_andb {A} (p q : A → bool) (l : list A) :
  List.filter (λ x, p x && q x) l = List.filter q (List.filter p l).
Proof.
  induction l as [|x l IH]; simpl; [done|].
  destruct (p x); simpl; [|exact IH].
  destruct (q x); by rewrite IH.
Qed.

Lemma List_filter_ext_all {A} (p q : A → bool) (l : list A) :
  (∀ x, p x = q x) → List.filter p l = List.filter q l.
Proof. intros H. apply List.filter_ext. exact H. Qed.

Lemma List_filter_comm {A} (p q : A → bool) (l : list A) :
  List.filter q (List.filter p l) = List.filter p (List.filter q l).
Proof.
  rewrite <- !List_filter_andb. apply List_filter_ext_all.
  intros x. apply andb_comm.
Qed.

(** X5. For a cluster id [c] that is a safe integer, choosing the option of
    cluster [c] in the select shows the nodes of cluster [c] among those
    that the other two filters let through, in payload order: the option's
    string is read back as [c] whatever its sign.  So no more nodes appear
    than the option's label counts. *)
Theorem select_cluster_shows_cluster
  (c : Z) (prev : Filters) (ns : list Node) (es : option (list Edge)) :
  Js.safeInteger c →
  Clustered.visibleNodes (Page.onClusterChange (Js.toString c) prev) ns
  = List.filter (λ n, Js.strictEq (cluster_id n) (Some c))
      (Clustered.visibleNodes (Page.onClusterChange "" prev) ns)
  ∧ (length (Clustered.visibleNodes
               (Page.onClusterChange (Js.toString c) prev) ns)
     ≤ Page.clusterNodeCount (Some {| nodes := Some ns; edges := es |}) c)%nat.
Proof.
  intros _.
  assert (Heq : Clustered.visibleNodes
                  (Page.onClusterChange (Js.toString c) prev) ns
                = List.filter (λ n, Js.strictEq (cluster_id n) (Some c))
                    (Clustered.visibleNodes (Page.onClusterChange "" prev) ns)).
  { unfold Clustered.visibleNodes, Clustered.filteredNodes.
    rewrite <- List_filter_andb. apply List_filter_ext_all.
    intros n. apply nodeFilter_select. }
  split; [exact Heq|].
  rewrite Heq. unfold Clustered.visibleNodes, Clustered.filteredNodes.
  rewrite List_filter_comm. cbn [Page.clusterNodeCount nodes].
  apply filter_length_le.
Qed.

(** X5, at the option of cluster -3 over three nodes. *)
Lemma select_cluster_shows_cluster_witness :
  let ns := [mkNode "a" 10 false (Some (-3)); mkNode "b" 20 false (Some 4);
             mkNode "c" 30 false (Some (-3))] in
  Js.safeInteger (-3)
  ∧ map node_id
        (Clustered.visibleNodes (Page.onClusterChange "-3" noFilter) ns)
    = ["a"; "c"].
Proof.
  intros ns. split; [unfold Js.safeInteger; lia|].
  destruct (select_cluster_shows_cluster (-3) noFilter ns None) as [H _];
    [unfold Js.safeInteger; lia|].
  change (Js.toString (-3)) with "-3" in H. rewrite H. reflexivity.
Defined.

Lemma sum_list_map_add {A} (f g : A → nat) (l : list A) :
  sum_list (map (λ x, f x + g x)%nat l)
  = (sum_list (map f l) + sum_list (map g l))%nat.
Proof. induction l as [|x l IH]; simpl; [done|]. rewrite IH. lia. Qed.

Lemma sum_indicator {A} `{EqDecision A} (c : A) (ks : list A) :
  NoDup ks →
  sum_list (map (λ k, if bool_decide (c = k) then 1 else 0)%nat ks)
  = (if bool_decide (c ∈ ks) then 1 else 0)%nat.
Proof.
  induction 1 as [|k ks Hk Hnd IH]; simpl; [done|].
  rewrite IH.
  destruct (decide (c = k)) as [->|Hne].
  - rewrite bool_decide_eq_true_2 by done.
    rewrite (bool_decide_eq_false_2 (k ∈ ks)) by done.
    by rewrite bool_decide_eq_true_2 by left.
  - rewrite (bool_decide_eq_false_2 (c = k)) by done. simpl.
    rewrite (bool_decide_ext (c ∈ k :: ks) (c ∈ ks)); [done|].
    rewrite elem_of_cons. tauto.
Qed.

(** Counting the elements of [xs] by a key that ranges over the distinct
    values [ks] counts each element once. *)
Lemma count_by_key {A K} `{EqDecision K} (key : A → K) (ks : list K)
    (xs : list A) :
  NoDup ks → (∀ x, x ∈ xs → key x ∈ ks) →
  sum_list (map (λ k, length (List.filter
                                (λ x, bool_decide (key x = k)) xs)) ks)
  = length xs.
Proof.
  intros Hnd. induction xs as [|x xs IH]; intros Hin.
  - simpl. clear. induction ks as [|k ks IHk]; simpl; [done|]. exact IHk.
  - cbn [length]. rewrite <- IH by (intros y Hy; apply Hin; by right).
    rewrite (map_ext _
               (λ k, (if bool_decide (key x = k) then 1 else 0)
                     + length (List.filter
                         (λ x, bool_decide (key x = k)) xs))%nat).
    + rewrite sum_list_map_add, sum_indicator by done.
      rewrite bool_decide_eq_true_2; [done|]. apply Hin. by left.
    + intros k. cbn [List.filter]. by case_bool_decide.
Qed.

Lemma count_sum (ks : list Z) (ns : list Node) :
  NoDup ks →
  (∀ n c, n ∈ ns → cluster_id n = Some c → c ∈ ks) →
  sum_list (map (λ k, length (List.filter
                                (λ n, Js.strictEq (cluster_id n) (Some k)) ns))
                ks)
  = length (omap cluster_id ns).
Proof.
  intros Hnd. induction ns as [|n ns IH]; intros Hin.
  - simpl. clear. induction ks as [|k ks IHk]; simpl; [done|]. exact IHk.
  - assert (IH' := IH (λ m c Hm, Hin m c (list_elem_of_further _ _ _ Hm))).
    cbn [omap list_omap].
    destruct (cluster_id n) as [c|] eqn:Hc.
    + assert (Hck : c ∈ ks) by (apply (Hin n); [left | done]).
      cbn [length]. rewrite <- IH'.
      rewrite (map_ext _
                 (λ k, (if bool_decide (c = k) then 1 else 0)
                       + length (List.filter
                           (λ n, Js.strictEq (cluster_id n) (Some k)) ns))%nat).
      * rewrite sum_list_map_add, sum_indicator by done.
        by rewrite bool_decide_eq_true_2.
      * intros k. cbn [List.filter]. rewrite Hc. cbn [Js.strictEq].
        case_bool_decide as Hk.
        -- subst k. by rewrite Z.eqb_refl.
        -- apply Z.eqb_neq in Hk. by rewrite Hk.
    + rewrite <- IH'. f_equal. apply map_ext. intros k.
      cbn [List.filter]. by rewrite Hc.
Qed.

(** X6. The legend lists a cluster exactly when its count is not zero, and
    the counts it shows add up to the number of nodes of the payload that
    carry a cluster id. *)
Theorem legend_counts (ns : list Node) (es : option (list Edge)) :
  let fullData := Some {| nodes := Some ns; edges := es |} in
  (∀ c, c ∈ Page.clusters fullData ↔ (0 < Page.clusterNodeCount fullData c)%nat)
  ∧ sum_list (map (Page.clusterNodeCount fullData) (Page.clusters fullData))
    = length (omap cluster_id ns).
Proof.
  intros fullData. destruct (clusters_spec ns es) as [Hasc Hel]. split.
  - intros c. unfold fullData. rewrite (Hel c). cbn [Page.clusterNodeCount nodes].
    split.
    + intros (n & Hn & Hc).
      assert (Hf : n ∈ List.filter
                        (λ n, Js.strictEq (cluster_id n) (Some c)) ns).
      { apply elem_of_List_filter. split; [done|].
        apply strictEq_spec. eauto. }
      destruct (List.filter _ ns); [by apply elem_of_nil in Hf | simpl; lia].
    + intros Hpos.
      destruct (List.filter _ ns) as [|n l] eqn:Hf; [simpl in Hpos; lia|].
      assert (Hn : n ∈ List.filter
                        (λ n, Js.strictEq (cluster_id n) (Some c)) ns)
        by (rewrite Hf; left).
      apply elem_of_List_filter in Hn as [Hn Hs].
      apply strictEq_spec in Hs as (c' & Hc & [= <-]). eauto.
  - apply (count_sum (Page.clusters fullData) ns).
    + by apply ascending_NoDup.
    + intros n c Hn Hc. apply Hel. eauto.
Qed.

(** X7. The counters of the statistics bar never exceed the number of
    accounts: neither the mule accounts, nor the high risk accounts, nor
    the clusters.  There are no statistics only when there is no payload. *)
Theorem stats_bounds (fullData : option GraphData) :
  match Page.stats fullData with
  | Some s =>
      (Page.muleAccounts s ≤ Page.totalNodes s)%nat
      ∧ (Page.highRiskAccounts s ≤ Page.totalNodes s)%nat
      ∧ (Page.clusterCount s ≤ Page.totalNodes s)%nat
  | None => fullData = None
  end.
Proof.
  destruct fullData as [[ons es]|]; [|done].
  cbn [Page.stats Page.muleAccounts Page.highRiskAccounts Page.totalNodes
       Page.clusterCount nodes].
  split_and!; try apply filter_length_le.
  destruct ons as [ns|]; [|simpl; lia].
  change (default [] (Some ns)) with ns.
  cbn [Page.clusters nodes]. rewrite sort_length.
  destruct (newSet_spec (omap cluster_id ns)) as [Hnd Hel].
  transitivity (length (omap cluster_id ns)).
  - apply submseteq_length, NoDup_submseteq; [done|].
    intros x Hx. by apply Hel.
  - clear. induction ns as [|n ns IH]; [done|].
    cbn [omap list_omap]. fold (omap cluster_id ns).
    destruct (cluster_id n); cbn [length]; lia.
Qed.

(** ** Nodes of one cluster never share a point *)

Lemma cos_eq_1_range (x : R) : (0 < x < 2 * PI)%R → cos x ≠ 1%R.
Proof.
  intros [H0 H2] Hc.
  assert (Hs : sin x = 0%R).
  { pose proof (sin2_cos2 x) as H. unfold Rsqr in H. rewrite Hc in H. nra. }
  destruct (sin_eq_O_2PI_0 x) as [?|[Hpi|?]]; try lra.
  rewrite Hpi, cos_PI in Hc. lra.
Qed.

Lemma same_direction (a b : R) :
  cos a = cos b → sin a = sin b → (0 < a - b < 2 * PI)%R → False.
Proof.
  intros Hc Hs Hr. apply (cos_eq_1_range _ Hr).
  rewrite cos_minus, Hc, Hs.
  pose proof (sin2_cos2 b) as H. unfold Rsqr in H. lra.
Qed.

(** The place of a node of a ring, in polar form around the centre. *)
Lemma nodePosition_polar (center : R * R) (clusterSize idx : Z) :
  1 <= idx < clusterSize →
  let r := Clustered.ring idx in
  let p := Clustered.posInRing idx in
  let m := Clustered.nodesInRing clusterSize idx in
  let angle :=
    (IZR p / IZR m * PI * 2 + IZR (Z.rem r 2) * PI / 8)%R in
  Clustered.nodePosition center clusterSize idx
  = Some ((fst center + IZR (r * 60) * cos angle)%R,
          (snd center + IZR (r * 60) * sin angle)%R)
  ∧ 1 <= r ∧ 0 <= p < m ∧ idx - 1 = 8 * (r - 1) + p
  ∧ m = Z.min 8 (clusterSize - 1 - (r - 1) * 8).
Proof.
  intros Hidx r p m angle.
  assert (Hp : p = (idx - 1) mod 8).
  { unfold p, Clustered.posInRing. apply Z.rem_mod_nonneg; lia. }
  assert (Hr : r = (idx - 1) / 8 + 1) by done.
  pose proof (Z.div_mod (idx - 1) 8 ltac:(lia)) as Hdm.
  pose proof (Z.mod_pos_bound (idx - 1) 8 ltac:(lia)) as Hmb.
  assert (Hm : m = Z.min 8 (clusterSize - 1 - (r - 1) * 8)) by done.
  assert (Hpm : 0 <= p < m) by lia.
  split_and!; try lia.
  unfold Clustered.nodePosition.
  destruct (idx =? 0) eqn:H0; [lia|]. cbn [andb].
  fold r p m. unfold Js.div.
  destruct (m =? 0) eqn:Hm0; [lia|].
  cbn. unfold Clustered.angleOffset. by fold r.
Qed.

Lemma nodePosition_inj (center : R * R) (clusterSize i j : Z) :
  0 <= i < clusterSize → 0 <= j < clusterSize →
  Clustered.nodePosition center clusterSize i
  = Clustered.nodePosition center clusterSize j →
  i = j.
Proof.
  assert (Hlt : ∀ i j, 1 <= i < clusterSize → 1 <= j < clusterSize →
            Clustered.nodePosition center clusterSize i
            = Clustered.nodePosition center clusterSize j →
            ¬ (Clustered.ring i = Clustered.ring j
               ∧ Clustered.posInRing j < Clustered.posInRing i)).
  { clear i j. intros i j Hi Hj Heq [Hring Hpos].
    destruct (nodePosition_polar center clusterSize i Hi)
      as (Ei & Hri & Hpi & Hdi & Hmi).
    destruct (nodePosition_polar center clusterSize j Hj)
      as (Ej & Hrj & Hpj & Hdj & Hmj).
    rewrite Ei, Ej in Heq. rewrite Hring in *.
    assert (Hm : Clustered.nodesInRing clusterSize i
                 = Clustered.nodesInRing clusterSize j) by lia.
    rewrite Hm in *. clear Ei Ej Hmi Hm.
    set (r := Clustered.ring j) in *.
    set (m := Clustered.nodesInRing clusterSize j) in *.
    set (pi := Clustered.posInRing i) in *.
    set (pj := Clustered.posInRing j) in *.
    injection Heq as Hx Hy.
    assert (Hr0 : IZR (r * 60) ≠ 0%R) by (apply not_0_IZR; lia).
    apply Rplus_eq_reg_l, Rmult_eq_reg_l in Hx; [|done].
    apply Rplus_eq_reg_l, Rmult_eq_reg_l in Hy; [|done].
    apply (same_direction _ _ Hx Hy).
    assert (Hm0 : (0 < IZR m)%R) by (apply IZR_lt; lia).
    assert (Hd : (0 < IZR pi - IZR pj < IZR m)%R).
    { split.
      - apply Rlt_0_minus, IZR_lt. lia.
      - rewrite <- minus_IZR. apply IZR_lt. lia. }
    pose proof PI_RGT_0 as Hpi0.
    replace (IZR pi / IZR m * PI * 2 + IZR (Z.rem r 2) * PI / 8
             - (IZR pj / IZR m * PI * 2 + IZR (Z.rem r 2) * PI / 8))%R
      with ((IZR pi - IZR pj) / IZR m * (2 * PI))%R by (field; lra).
    assert (Hq : (0 < (IZR pi - IZR pj) / IZR m < 1)%R).
    { split.
      - apply Rdiv_lt_0_compat; lra.
      - apply (Rmult_lt_reg_r (IZR m)); [done|].
        unfold Rdiv. rewrite Rmult_assoc, Rinv_l by lra. lra. }
    nra. }
  assert (Hring : ∀ i j, 1 <= i < clusterSize → 1 <= j < clusterSize →
            Clustered.nodePosition center clusterSize i
            = Clustered.nodePosition center clusterSize j →
            Clustered.ring i = Clustered.ring j).
  { clear i j. intros i j Hi Hj Heq.
    destruct (nodePosition_polar center clusterSize i Hi)
      as (Ei & Hri & _).
    destruct (nodePosition_polar center clusterSize j Hj)
      as (Ej & Hrj & _).
    rewrite Ei, Ej in Heq. clear Ei Ej.
    set (ri := Clustered.ring i) in *. set (rj := Clustered.ring j) in *.
    injection Heq as Hx Hy.
    apply Rplus_eq_reg_l in Hx, Hy.
    match type of Hx with
    | (_ * cos ?a = _ * cos ?b)%R =>
        pose proof (sin2_cos2 a) as Ha; pose proof (sin2_cos2 b) as Hb;
        set (ca := cos a) in *; set (sa := sin a) in *;
        set (cb := cos b) in *; set (sb := sin b) in *
    end.
    unfold Rsqr in Ha, Hb.
    assert (Hsq : (IZR (ri * 60) * IZR (ri * 60)
                   = IZR (rj * 60) * IZR (rj * 60))%R).
    { transitivity ((IZR (ri * 60) * ca) * (IZR (ri * 60) * ca)
                    + (IZR (ri * 60) * sa) * (IZR (ri * 60) * sa))%R.
      - transitivity (IZR (ri * 60) * IZR (ri * 60)
                      * (sa * sa + ca * ca))%R; [rewrite Ha; ring | ring].
      - rewrite Hx, Hy.
        transitivity (IZR (rj * 60) * IZR (rj * 60)
                      * (sb * sb + cb * cb))%R; [ring | rewrite Hb; ring]. }
    rewrite <- !mult_IZR in Hsq. apply eq_IZR in Hsq. nia. }
  intros Hi Hj Heq.
  destruct (decide (i = 0)) as [->|Hi0].
  - destruct (decide (j = 0)) as [->|Hj0]; [done|].
    rewrite nodePosition_first in Heq by lia.
    symmetry in Heq. apply nodePosition_later in Heq; [done | lia].
  - destruct (decide (j = 0)) as [->|Hj0].
    + rewrite (nodePosition_first center clusterSize) in Heq by lia.
      apply nodePosition_later in Heq; [done | lia].
    + assert (Hi1 : 1 <= i < clusterSize) by lia.
      assert (Hj1 : 1 <= j < clusterSize) by lia.
      pose proof (Hring i j Hi1 Hj1 Heq) as Hr.
      pose proof (Hlt i j Hi1 Hj1 Heq) as H1.
      pose proof (Hlt j i Hj1 Hi1 (eq_sym Heq)) as H2.
      destruct (nodePosition_polar center clusterSize i Hi1)
        as (_ & _ & _ & Hdi & _).
      destruct (nodePosition_polar center clusterSize j Hj1)
        as (_ & _ & _ & Hdj & _).
      destruct (Z.lt_trichotomy (Clustered.posInRing i) (Clustered.posInRing j))
        as [?|[?|?]]; [by destruct H2 | lia | by destruct H1].
Qed.

Lemma layoutCluster_length env cc K k ms :
  length (Clustered.layoutCluster env cc K k ms) = length ms.
Proof.
  rewrite <- (length_map (λ fn, nd_node (fn_data fn))).
  rewrite layoutCluster_nodes. apply sort_length.
Qed.

Lemma layoutCluster_positions_NoDup env cc K k ms :
  NoDup (map fn_position (Clustered.layoutCluster env cc K k ms)).
Proof.
  apply NoDup_alt. intros i j p Hi Hj.
  change (map fn_position ?l) with (fn_position <$> l) in Hi, Hj.
  rewrite list_lookup_fmap in Hi, Hj.
  destruct (Clustered.layoutCluster env cc K k ms !! i) as [a|] eqn:Ha;
    [|done].
  destruct (Clustered.layoutCluster env cc K k ms !! j) as [b|] eqn:Hb;
    [|done].
  simpl in Hi, Hj.
  pose proof (lookup_lt_Some _ _ _ Ha) as Hli.
  pose proof (lookup_lt_Some _ _ _ Hb) as Hlj.
  rewrite layoutCluster_length in Hli, Hlj.
  apply layoutCluster_lookup in Ha as (_ & _ & _ & _ & _ & Hpa).
  apply layoutCluster_lookup in Hb as (_ & _ & _ & _ & _ & Hpb).
  destruct (clusterCenter_finite K k (Z.of_nat (length ms))) as [c Hc].
  rewrite Hc in Hpa, Hpb. simpl in Hpa, Hpb.
  apply Nat2Z.inj.
  apply (nodePosition_inj c (Z.of_nat (length ms))); [lia | lia |].
  congruence.
Qed.

Lemma NoDup_concat_imap {A B} (f : nat → A → list B) (l : list A) :
  (∀ i x, l !! i = Some x → NoDup (f i x)) →
  (∀ i j x y b, l !! i = Some x → l !! j = Some y →
                b ∈ f i x → b ∈ f j y → i = j) →
  NoDup (concat (imap f l)).
Proof.
  revert f. induction l as [|x l IH]; intros f Hnd Hdis; simpl; [constructor|].
  apply NoDup_app. split_and!.
  - by apply (Hnd 0%nat).
  - intros b Hb Hin.
    apply list_elem_of_In, in_concat in Hin as (bs & Hin & Hbs).
    apply list_elem_of_In in Hin, Hbs.
    apply elem_of_lookup_imap_1 in Hin as (j & y & -> & Hj).
    specialize (Hdis 0%nat (S j) x y b eq_refl Hj Hb Hbs). lia.
  - apply IH.
    + intros i y Hi. by apply (Hnd (S i)).
    + intros i j y z b Hi Hj Hb1 Hb2.
      specialize (Hdis (S i) (S j) y z b Hi Hj Hb1 Hb2). lia.
Qed.

Lemma layoutCluster_members env cc K k ms fn :
  fn ∈ Clustered.layoutCluster env cc K k ms → nd_node (fn_data fn) ∈ ms.
Proof.
  intros Hfn.
  rewrite <- (sort_Permutation (Clustered.byDegreeDesc cc) ms).
  fold (Clustered.sortedNodes cc ms).
  rewrite <- (layoutCluster_nodes env cc K k ms).
  apply list_elem_of_fmap. eauto.
Qed.

(** X8. Two nodes of the layout that belong to the same cluster are never
    placed at the same point: within a cluster the hub, the rings and the
    places on a ring are all distinct.  Nodes without a cluster id form
    the cluster [-1]. *)
Theorem cluster_members_apart
  (env : Env) (filters : Filters) (ns : list Node) (es : list Edge) :
  NoDup (map (λ fn, (Clustered.groupKey (nd_node (fn_data fn)),
                     fn_position fn))
             (Clustered.layoutNodes env filters ns es)).
Proof.
  unfold Clustered.layoutNodes, Clustered.flowNodes.
  rewrite map_concat_imap.
  pose proof (clusterGroups_inv (Clustered.visibleNodes filters ns))
    as (Hkeys & _ & _).
  fold (Clustered.groups filters ns) in Hkeys.
  apply objectEntries_keys_NoDup in Hkeys.
  set (entries := Js.objectEntries (Clustered.groups filters ns)) in *.
  assert (Hkey : ∀ i e b, entries !! i = Some e →
            b ∈ map (λ fn, (Clustered.groupKey (nd_node (fn_data fn)),
                            fn_position fn))
                  (Clustered.layoutCluster env
                     (Clustered.counts filters ns es)
                     (Z.of_nat (length entries)) (Z.of_nat i) (snd e)) →
            fst b = fst e).
  { intros i [k ms] b Hi Hb.
    apply list_elem_of_fmap in Hb as (fn & -> & Hfn). simpl.
    apply layoutCluster_members in Hfn.
    apply list_elem_of_lookup_2 in Hi.
    apply entries_spec in Hi as [_ Hms].
    rewrite Hms in Hfn. apply elem_of_List_filter in Hfn as [_ Hk]. lia. }
  apply NoDup_concat_imap.
  - intros i e Hi.
    apply (NoDup_fmap_1 snd).
    change (snd <$> map ?g ?l) with (map snd (map g l)).
    rewrite map_map. simpl. apply layoutCluster_positions_NoDup.
  - intros i j e e' b Hi Hj Hb Hb'.
    apply (Hkey _ _ _ Hi) in Hb. apply (Hkey _ _ _ Hj) in Hb'.
    apply (NoDup_lookup (map fst entries) i j (fst b)); [done|..].
    + change (map fst entries) with (fst <$> entries).
      by rewrite list_lookup_fmap, Hi, Hb.
    + change (map fst entries) with (fst <$> entries).
      by rewrite list_lookup_fmap, Hj, Hb'.
Qed.

(** ** The grid keeps the nodes apart *)

Lemma grid_position (env : Env) (index : nat) (node : Node)
    (rnd : nat → R) (cur : nat) :
  fn_position (fst (Grid.flowNode env index node rnd cur))
  = Some ((Grid.gridX index + rnd cur * 50)%R,
          (Grid.gridY index + rnd (S cur) * 50)%R).
Proof. reflexivity. Qed.

Lemma grid_cells_apart (i j : nat) (u v u' v' : R) :
  i ≠ j →
  (0 <= u < 1)%R → (0 <= v < 1)%R → (0 <= u' < 1)%R → (0 <= v' < 1)%R →
  (170 <= Rabs ((Grid.gridX i + u * 50) - (Grid.gridX j + u' * 50))
   ∨ 130 <= Rabs ((Grid.gridY i + v * 50) - (Grid.gridY j + v' * 50)))%R.
Proof.
  intros Hij Hu Hv Hu' Hv'. unfold Grid.gridX, Grid.gridY.
  rewrite !Z.rem_mod_nonneg by lia.
  pose proof (Z.div_mod (Z.of_nat i) 8 ltac:(lia)) as Hi.
  pose proof (Z.div_mod (Z.of_nat j) 8 ltac:(lia)) as Hj.
  set (ci := Z.of_nat i mod 8) in *. set (cj := Z.of_nat j mod 8) in *.
  set (ri := Z.of_nat i / 8) in *. set (rj := Z.of_nat j / 8) in *.
  assert (Hcases : ci * 220 + 220 <= cj * 220 ∨ cj * 220 + 220 <= ci * 220
                   ∨ ri * 180 + 180 <= rj * 180 ∨ rj * 180 + 180 <= ri * 180)
    by lia.
  destruct Hcases as [H|[H|[H|H]]];
    apply IZR_le in H; rewrite plus_IZR in H.
  - left. rewrite Rabs_left by lra. lra.
  - left. rewrite Rabs_right by lra. lra.
  - right. rewrite Rabs_left by lra. lra.
  - right. rewrite Rabs_right by lra. lra.
Qed.

(** X9. On the grid page, with [Math.random()] giving values from 0 up to
    but not 1, every node lies in the 50 by 50 square that starts at its
    grid cell, its far sides included, and two different nodes of the view
    are at least 170 apart across or at least 130 apart down: the jitter
    can never put one node on another. *)
Theorem grid_nodes_apart (env : Env) (filters : Filters) (ns : list Node)
    (es : list Edge) (view : View) (rnd : nat → R) (cur : nat)
    (i j : nat) (a b : FlowNode) :
  (∀ k, 0 <= rnd k < 1)%R →
  let v := fst (Grid.processGraphData env filters
                  (Some {| nodes := Some ns; edges := Some es |})
                  view rnd cur) in
  view_nodes v !! i = Some a → view_nodes v !! j = Some b → i ≠ j →
  ∃ xa ya xb yb,
    fn_position a = Some (xa, ya) ∧ fn_position b = Some (xb, yb)
    ∧ (Grid.gridX i <= xa <= Grid.gridX i + 50)%R
    ∧ (Grid.gridY i <= ya <= Grid.gridY i + 50)%R
    ∧ (170 <= Rabs (xa - xb) ∨ 130 <= Rabs (ya - yb))%R.
Proof.
  intros Hrnd v Ha Hb Hij. unfold v in Ha, Hb.
  pose proof (grid_run env filters ns es view rnd cur) as Hrun.
  cbv zeta in Hrun. rewrite Hrun in Ha, Hb. cbn [fst view_nodes] in Ha, Hb.
  rewrite list_lookup_imap in Ha, Hb.
  destruct (List.filter (nodeFilter filters) ns !! i) as [na|]; [|done].
  destruct (List.filter (nodeFilter filters) ns !! j) as [nb|]; [|done].
  injection Ha as <-. injection Hb as <-. cbn [fn_position].
  do 4 eexists. split; [reflexivity|]. split; [reflexivity|].
  pose proof (Hrnd (cur + (i + (i + 0)))%nat).
  pose proof (Hrnd (S (cur + (i + (i + 0))))).
  pose proof (Hrnd (cur + (j + (j + 0)))%nat).
  pose proof (Hrnd (S (cur + (j + (j + 0))))).
  split_and!; try lra.
  by apply grid_cells_apart.
Qed.

(** X9, at two nodes and a generator that always returns 0. *)
Lemma grid_nodes_apart_witness :
  let ns := [mkNode "a" 10 false None; mkNode "b" 20 false None] in
  ∃ xa ya xb yb,
    fn_position
      (fst (Grid.flowNode noEnv 0%nat (mkNode "a" 10 false None)
                           (λ _, 0%R) 0%nat))
    = Some (xa, ya)
    ∧ fn_position
        (fst (Grid.flowNode noEnv 1%nat (mkNode "b" 20 false None)
                             (λ _, 0%R) 2%nat))
      = Some (xb, yb)
    ∧ (Grid.gridX 0%nat <= xa <= Grid.gridX 0%nat + 50)%R
    ∧ (Grid.gridY 0%nat <= ya <= Grid.gridY 0%nat + 50)%R
    ∧ (170 <= Rabs (xa - xb) ∨ 130 <= Rabs (ya - yb))%R.
Proof.
  intros ns.
  apply (grid_nodes_apart noEnv noFilter ns [] initialView (λ _, 0%R) 0%nat
           0%nat 1%nat).
  - intros k. lra.
  - reflexivity.
  - reflexivity.
  - lia.
Defined.

(** ** The plain network view over the clustered layout *)

Lemma layoutEdges_elem env filters ns es fe :
  fe ∈ Clustered.layoutEdges env filters ns es →
  ∃ e isCircular intra,
    e ∈ Clustered.visibleEdges filters ns es
    ∧ fe_source fe = source e ∧ fe_target fe = target e
    ∧ fe_animated fe = suspicious e
    ∧ fe_data fe = RawEdge (suspicious e) isCircular (amount e) intra.
Proof.
  unfold Clustered.layoutEdges, Clustered.flowEdges. intros Hfe.
  apply elem_of_lookup_imap_1 in Hfe as (i & e & -> & Hi).
  exists e. do 2 eexists. split; [by eapply list_elem_of_lookup_2|].
  by cbn.
Qed.

Lemma connectors_elem env filters ns es ce :
  ce ∈ Clustered.connectors env filters ns es →
  ∃ pair, fe_animated ce = true ∧ fe_data ce = ClusterConnector pair.
Proof.
  unfold Clustered.connectors, Clustered.clusterConnectorEdges. intros Hce.
  apply list_elem_of_In, in_concat in Hce as (l & Hl & Hce).
  apply in_map_iff in Hl as (pair & <- & _).
  apply list_elem_of_In in Hce. unfold Clustered.connectorEdge in Hce.
  destruct (Clustered.pairClusters pair) as [[c1|] [c2|]];
    try by apply elem_of_nil in Hce.
  destruct (_ !! c1) as [h1|]; [|by apply elem_of_nil in Hce].
  destruct (_ !! c2) as [h2|]; [|by apply elem_of_nil in Hce].
  destruct (Js.truthy h1 && Js.truthy h2); [|by apply elem_of_nil in Hce].
  apply list_elem_of_singleton in Hce as ->. by exists (c1, c2).
Qed.

(** X10. In the plain network view every edge of the clustered layout
    keeps its id and its ends and is no longer animated.  It is drawn red
    exactly when it is the edge of a suspicious payload edge or a connector
    between two hubs, and green otherwise: the connectors, being animated,
    count as suspicious there. *)
Theorem clean_edges_colours
  (env : Env) (filters : Filters) (ns : list Node) (es : list Edge) :
  Forall2
    (λ fe ce,
       fe_id ce = fe_id fe ∧ fe_source ce = fe_source fe
       ∧ fe_target ce = fe_target fe ∧ fe_animated ce = false
       ∧ strokeDasharray (fe_style ce) = None
       ∧ (stroke (fe_style ce) = Some "#ef4444"
          ↔ edgeCategory fe = Suspicious ∨ edgeCategory fe = Connector)
       ∧ (stroke (fe_style ce) = Some "#10b981"
          ↔ edgeCategory fe = IntraCluster ∨ edgeCategory fe = InterCluster))
    (view_edges (Clustered.layout env filters ns es))
    (CleanNetwork.cleanEdges (view_edges (Clustered.layout env filters ns es))).
Proof.
  unfold CleanNetwork.cleanEdges.
  apply Forall2_fmap_r, Forall_Forall2_diag, Forall_forall.
  intros fe Hfe. cbn [view_edges Clustered.layout] in Hfe.
  split_and!; try reflexivity.
  all: apply elem_of_app in Hfe as [Hfe|Hfe].
  all: try (apply layoutEdges_elem in Hfe
              as (e & circ & intra & _ & _ & _ & Ha & Hd)).
  all: try (apply connectors_elem in Hfe as (pair & Ha & Hd)).
  all: unfold edgeCategory, CleanNetwork.cleanEdge; cbn [fe_style stroke].
  all: rewrite Hd, Ha; cbn [CleanNetwork.isHighRisk].
  all: try (destruct (suspicious e), intra; cbn).
  all: split; [intros [=] | intros [[=]|[=]]]; auto.
Qed.

(** ** How the node component draws the nodes of the layout *)

Lemma layoutCluster_data env cc K k ms :
  Forall (λ fn,
            nd_degree (fn_data fn)
            = Some (Clustered.degree cc (node_id (nd_node (fn_data fn))))
            ∧ fn_id fn = node_id (nd_node (fn_data fn))
            ∧ fn_zIndex fn = Some (Clustered.zIndex (nd_node (fn_data fn))))
         (Clustered.layoutCluster env cc K k ms).
Proof.
  apply Forall_forall. intros fn Hfn.
  unfold Clustered.layoutCluster in Hfn.
  apply elem_of_lookup_imap_1 in Hfn as (i & n & -> & _). done.
Qed.

Lemma counts_degree (filters : Filters) (ns : list Node) (es : list Edge)
    (id : string) :
  Clustered.degree (Clustered.counts filters ns es) id
  = Z.of_nat (edgesFrom id (Clustered.visibleEdges filters ns es)
              + edgesInto id (Clustered.visibleEdges filters ns es)).
Proof.
  unfold Clustered.counts, Clustered.connectionCount.
  rewrite degree_foldl. unfold Clustered.degree at 1.
  rewrite lookup_empty. simpl. lia.
Qed.

(** X11. A node of the clustered layout whose id names no property of
    [Object.prototype] is drawn 50 wide plus 4 for every end of a visible
    edge at it, and never wider than 90, which it reaches from 10 edge ends
    on.  The stacking order of every node follows its colour band: 100 for
    the red band, 50 for the amber one, 10 for the green one. *)
Theorem account_node_size_and_band
  (env : Env) (filters : Filters) (ns : list Node) (es : list Edge) :
  Forall
    (λ fn,
       let ve := Clustered.visibleEdges filters ns es in
       let ends := Z.of_nat (edgesFrom (fn_id fn) ve + edgesInto (fn_id fn) ve) in
       (Js.ordinaryKey (fn_id fn) →
        AccountNode.nodeSize (fn_data fn) = Z.min (50 + 4 * ends) 90
        ∧ 50 <= AccountNode.nodeSize (fn_data fn) <= 90
        ∧ (AccountNode.nodeSize (fn_data fn) = 90 ↔ 10 <= ends))
       ∧ (fn_zIndex fn = Some 100
          ↔ AccountNode.to (AccountNode.colors (fn_data fn)) = "#ef4444")
       ∧ (fn_zIndex fn = Some 50
          ↔ AccountNode.to (AccountNode.colors (fn_data fn)) = "#f59e0b")
       ∧ (fn_zIndex fn = Some 10
          ↔ AccountNode.to (AccountNode.colors (fn_data fn)) = "#10b981"))
    (Clustered.layoutNodes env filters ns es).
Proof.
  unfold Clustered.layoutNodes. apply flowNodes_Forall. intros K k ms.
  eapply Forall_impl; [apply layoutCluster_data|].
  intros fn (Hdeg & Hid & Hz). cbv zeta.
  unfold AccountNode.nodeSize, AccountNode.degree.
  rewrite Hdeg. cbn [from_option].
  rewrite <- Hid, counts_degree.
  set (ends := Z.of_nat _).
  assert (0 <= ends) by (unfold ends; lia).
  unfold Datatypes.id.
  split_and!; try (intros _; split_and!; try lia; split; lia).
  all: rewrite Hz; unfold Clustered.zIndex, AccountNode.colors,
         AccountNode.getRiskGradient.
  all: destruct (Qle_bool 70 _); [|destruct (Qle_bool 40 _)]; cbn.
  all: split; intros [=]; done.
Qed.

Lemma palette_period (r : Z) :
  0 <= r < 40 →
  (AccountNode.bg <$> AccountNode.clusterPalette !! Z.to_nat (r mod 8)
   = Clustered.clusterColors !! Z.to_nat (r mod 10))
  ↔ r < 8.
Proof.
  intros Hr.
  assert (Hall : forallb
            (λ n, bool_decide
                    ((bool_decide
                        (AccountNode.bg <$>
                           AccountNode.clusterPalette
                             !! Z.to_nat (Z.of_nat n mod 8)
                         = Clustered.clusterColors
                             !! Z.to_nat (Z.of_nat n mod 10)))
                     = (Z.of_nat n <? 8)))
            (seq 0 40) = true) by (vm_compute; reflexivity).
  rewrite forallb_forall in Hall.
  specialize (Hall (Z.to_nat r)).
  rewrite Z2Nat.id in Hall by lia.
  assert (Hin : In (Z.to_nat r) (seq 0 40)) by (apply in_seq; lia).
  apply Hall, bool_decide_eq_true in Hin.
  destruct (Z.ltb_spec r 8) as [Hlt|Hge].
  - apply bool_decide_eq_true in Hin. tauto.
  - apply bool_decide_eq_false in Hin. split; [tauto | lia].
Qed.

(** X12. The node component finds no palette entry, and so fails to render,
    exactly for a negative cluster id that is not a multiple of 8; a node
    without cluster id gets the first entry.  For a cluster id from 0 on,
    the ring around the node has the colour of the cluster's internal edges
    exactly when the id modulo 40 is below 8: the ring cycles through 8
    colours and the edges through 10. *)
Theorem palette_entry (data : NodeData) :
  (AccountNode.cluster data = None
   ↔ ∃ c, cluster_id (nd_node data) = Some c ∧ c < 0 ∧ c mod 8 ≠ 0)
  ∧ (cluster_id (nd_node data) = None →
     AccountNode.bg <$> AccountNode.cluster data = Some "#ef4444")
  ∧ (∀ c, cluster_id (nd_node data) = Some c → 0 <= c →
     (AccountNode.bg <$> AccountNode.cluster data = Clustered.colorAt c
      ↔ c mod 40 < 8)).
Proof.
  unfold AccountNode.cluster. split_and!.
  - destruct (cluster_id (nd_node data)) as [c|]; cbn [from_option];
      unfold Datatypes.id.
    + assert (Hrem : (0 <= c ∧ Z.rem c 8 = c mod 8)
                     ∨ (c < 0 ∧ Z.rem c 8 = - ((- c) mod 8))).
      { destruct (Z_le_gt_dec 0 c) as [Hc|Hc].
        - left. split; [done|]. apply Z.rem_mod_nonneg; lia.
        - right. split; [lia|].
          rewrite <- (Z.opp_involutive c) at 1.
          rewrite Z.rem_opp_l by lia.
          f_equal. apply Z.rem_mod_nonneg; lia. }
      pose proof (Z.div_mod c 8 ltac:(lia)) as Hc8.
      pose proof (Z.mod_pos_bound c 8 ltac:(lia)) as Hb8.
      pose proof (Z.div_mod (- c) 8 ltac:(lia)) as Hn8.
      pose proof (Z.mod_pos_bound (- c) 8 ltac:(lia)) as Hnb8.
      destruct (Z.ltb_spec (Z.rem c 8) 0) as [Hlt|Hge].
      * split; [|done]. intros _. exists c. split; [done|]. lia.
      * split.
        -- intros Hnone. apply lookup_ge_None in Hnone.
           cbn [length AccountNode.clusterPalette] in Hnone. lia.
        -- intros (c' & [= <-] & Hc & Hm). lia.
    + split; [done|]. intros (c & [=] & _).
  - intros ->. reflexivity.
  - intros c -> Hc. cbn [from_option]. unfold Datatypes.id.
    unfold Clustered.colorAt.
    rewrite !Z.rem_mod_nonneg by lia.
    pose proof (Z.mod_pos_bound c 8 ltac:(lia)).
    pose proof (Z.mod_pos_bound c 10 ltac:(lia)).
    destruct (Z.ltb_spec (c mod 8) 0); [lia|].
    destruct (Z.ltb_spec (c mod 10) 0); [lia|].
    rewrite <- (palette_period (c mod 40)) by (apply Z.mod_pos_bound; lia).
    rewrite (Z.mod_mod_divide c 40 8) by (by exists 5).
    by rewrite (Z.mod_mod_divide c 40 10) by (by exists 4).
Qed.

(** ** The degrees add up *)

Lemma sumZ_Permutation (l l' : list Z) : l ≡ₚ l' → sumZ l = sumZ l'.
Proof.
  induction 1 as [|x l l' _ IH|x y l|l l' l'' _ IH1 _ IH2]; simpl;
    unfold sumZ in *; simpl; lia.
Qed.

Lemma sumZ_of_nat {A} (f g : A → nat) (l : list A) :
  sumZ (map (λ x, Z.of_nat (f x + g x)) l)
  = Z.of_nat (sum_list (map f l)) + Z.of_nat (sum_list (map g l)).
Proof.
  unfold sumZ. induction l as [|x l IH]; [done|].
  cbn [map foldr sum_list_with]. rewrite IH. unfold Datatypes.id. lia.
Qed.

Lemma visibleEdges_ends (filters : Filters) (ns : list Node) (es : list Edge)
    (e : Edge) :
  e ∈ Clustered.visibleEdges filters ns es →
  e ∈ es
  ∧ source e ∈ map node_id (Clustered.visibleNodes filters ns)
  ∧ target e ∈ map node_id (Clustered.visibleNodes filters ns).
Proof.
  unfold Clustered.visibleEdges, Clustered.filteredEdges, Clustered.nodeIds.
  intros He. apply elem_of_List_filter in He as [He Hb].
  apply andb_true_iff in Hb as [Hs Ht].
  apply bool_decide_eq_true in Hs, Ht.
  apply elem_of_list_to_set in Hs, Ht. done.
Qed.

(** X13. When the visible nodes have distinct ids, none of them the name
    of a property of [Object.prototype], the degrees that the nodes of the
    clustered layout carry add up to twice the number of visible edges:
    every visible edge counts once at each of its ends, a loop twice at its
    node. *)
Theorem degrees_sum_to_twice_edges
  (env : Env) (filters : Filters) (ns : list Node) (es : list Edge) :
  NoDup (map node_id (Clustered.visibleNodes filters ns)) →
  ordinaryIds (Clustered.visibleNodes filters ns) →
  sumZ (map (λ fn, AccountNode.degree (fn_data fn))
            (Clustered.layoutNodes env filters ns es))
  = 2 * Z.of_nat (length (Clustered.visibleEdges filters ns es)).
Proof.
  intros Hnd _.
  set (ve := Clustered.visibleEdges filters ns es).
  set (ids := map node_id (Clustered.visibleNodes filters ns)).
  transitivity (sumZ (map (λ id, Z.of_nat (edgesFrom id ve + edgesInto id ve))
                          (map fn_id (Clustered.layoutNodes env filters ns es)))).
  { rewrite map_map. f_equal. apply map_ext_Forall.
    unfold Clustered.layoutNodes. apply flowNodes_Forall. intros K k ms.
    eapply Forall_impl; [apply layoutCluster_data|].
    intros fn (Hdeg & Hid & _). unfold AccountNode.degree.
    rewrite Hdeg, <- Hid. cbn [from_option]. unfold Datatypes.id.
    apply counts_degree. }
  rewrite (sumZ_Permutation _
             (map (λ id, Z.of_nat (edgesFrom id ve + edgesInto id ve)) ids))
    by (apply Permutation_map, layoutNodes_ids).
  rewrite sumZ_of_nat. unfold edgesFrom, edgesInto.
  rewrite (count_by_key source ids ve), (count_by_key target ids ve);
    try done; try lia.
  - intros e He. by apply visibleEdges_ends in He as (_ & _ & ?).
  - intros e He. by apply visibleEdges_ends in He as (_ & ? & _).
Qed.

(** X13, at a path of three nodes. *)
Lemma degrees_sum_to_twice_edges_witness :
  let ns := [mkNode "a" 0 false None; mkNode "b" 0 false None;
             mkNode "c" 0 false None] in
  let es := [mkEdge "a" "b"; mkEdge "b" "c"] in
  sumZ (map (λ fn, AccountNode.degree (fn_data fn))
            (Clustered.layoutNodes noEnv noFilter ns es))
  = 2 * Z.of_nat (length (Clustered.visibleEdges noFilter ns es)).
Proof.
  intros ns es. apply (degrees_sum_to_twice_edges noEnv noFilter ns es).
  - apply (bool_decide_unpack _). vm_compute. exact I.
  - apply (bool_decide_unpack _). vm_compute. exact I.
Defined.

(** ** The ids of the edges *)

Lemma toString_inj (a b : Z) : Js.toString a = Js.toString b → a = b.
Proof.
  intros Heq.
  destruct (parseInt_toString a) as [Ha _].
  destruct (parseInt_toString b) as [Hb _].
  rewrite Heq, Hb in Ha. by injection Ha.
Qed.

Lemma nodeClusterMap_value (l : list FlowNode) (id : string) (c : option Z) :
  Clustered.nodeClusterMap l !! id = Some c →
  ∃ fn, fn ∈ l ∧ fn_id fn = id ∧ cluster_id (nd_node (fn_data fn)) = c.
Proof.
  induction l as [|fn l IH] using rev_ind; [done|].
  rewrite nodeClusterMap_snoc. intros Hl.
  destruct (decide (fn_id fn = id)) as [Heq|Hne].
  - rewrite Heq, lookup_insert_eq in Hl. injection Hl as <-.
    exists fn. split; [|done]. apply elem_of_app. right. left.
  - rewrite lookup_insert_ne in Hl by done.
    destruct (IH Hl) as (fn' & Hin & Hid & Hc).
    exists fn'. split; [|done]. apply elem_of_app. by left.
Qed.

Lemma layoutNodes_node env filters ns es fn :
  fn ∈ Clustered.layoutNodes env filters ns es →
  nd_node (fn_data fn) ∈ Clustered.visibleNodes filters ns.
Proof.
  intros Hfn.
  apply (list_elem_of_fmap_2 (λ fn, nd_node (fn_data fn))) in Hfn.
  unfold Clustered.layoutNodes in Hfn.
  change ((λ fn0, nd_node (fn_data fn0)) <$> ?l)
    with (map (λ fn0, nd_node (fn_data fn0)) l) in Hfn.
  rewrite flowNodes_nodes in Hfn.
  unfold Clustered.groups in Hfn. by rewrite clusterGroups_Permutation in Hfn.
Qed.

Lemma NoDup_concat_map {A B} (g : A → list B) (l : list A) :
  NoDup l → (∀ x, x ∈ l → NoDup (g x)) →
  (∀ x y b, x ∈ l → y ∈ l → b ∈ g x → b ∈ g y → x = y) →
  NoDup (concat (map g l)).
Proof.
  induction 1 as [|x l Hx Hl IH]; intros Hnd Hinj; simpl; [constructor|].
  apply NoDup_app. split_and!.
  - apply Hnd. left.
  - intros b Hb Hin.
    apply list_elem_of_In, in_concat in Hin as (bs & Hbs & Hin).
    apply in_map_iff in Hbs as (y & <- & Hy).
    apply list_elem_of_In in Hy, Hin.
    assert (x = y) by (apply (Hinj x y b); [left | by right | done | done]).
    by subst.
  - apply IH.
    + intros y Hy. apply Hnd. by right.
    + intros y z b Hy Hz. apply Hinj; by right.
Qed.

Lemma connector_id (centers : gmap Z string) (a b : Z) (ce : FlowEdge) :
  0 <= a → 0 <= b →
  ce ∈ Clustered.connectorEdge centers (Clustered.pairKey a b) →
  fe_id ce = String.append "cluster-conn-" (Clustered.pairKey a b).
Proof.
  intros Ha Hb. unfold Clustered.connectorEdge.
  rewrite pairClusters_pairKey by done.
  destruct (centers !! Z.min a b) as [h1|]; [|by intros ?%elem_of_nil].
  destruct (centers !! Z.max a b) as [h2|]; [|by intros ?%elem_of_nil].
  destruct (Js.truthy h1 && Js.truthy h2); [|by intros ?%elem_of_nil].
  intros ->%list_elem_of_singleton. cbn [fe_id].
  by rewrite pairKey_eq.
Qed.

(** X14. When no visible node has a negative cluster id, the edges of the
    clustered layout all have different ids: the payload edges are numbered
    by their place among the visible edges, every pair of clusters has its
    own connector id, and no connector id is the id of a payload edge. *)
Theorem edge_ids_distinct
  (env : Env) (filters : Filters) (ns : list Node) (es : list Edge) :
  Forall (λ n, ∀ c, cluster_id n = Some c → 0 <= c)
         (Clustered.visibleNodes filters ns) →
  NoDup (map fe_id (view_edges (Clustered.layout env filters ns es))).
Proof.
  intros Hnonneg. cbn [view_edges Clustered.layout].
  rewrite map_app. apply NoDup_app. split_and!.
  - unfold Clustered.layoutEdges, Clustered.flowEdges.
    apply NoDup_alt. intros i j s Hi Hj.
    change (map fe_id ?l) with (fe_id <$> l) in Hi, Hj.
    rewrite list_lookup_fmap, list_lookup_imap in Hi, Hj.
    destruct (Clustered.visibleEdges filters ns es !! i); [|done].
    destruct (Clustered.visibleEdges filters ns es !! j); [|done].
    cbn in Hi, Hj. rewrite <- Hj in Hi. injection Hi as Hi.
    apply toString_inj in Hi. lia.
  - intros s Hraw Hconn.
    apply list_elem_of_fmap in Hraw as (fe & -> & Hfe).
    apply elem_of_lookup_imap_1 in Hfe as (i & e & -> & _).
    apply list_elem_of_fmap in Hconn as (ce & Heq & Hce).
    unfold Clustered.connectors, Clustered.clusterConnectorEdges in Hce.
    apply list_elem_of_In, in_concat in Hce as (l & Hl & Hce).
    apply in_map_iff in Hl as (pair & <- & _).
    apply list_elem_of_In in Hce. unfold Clustered.connectorEdge in Hce.
    destruct (Clustered.pairClusters pair) as [[c1|] [c2|]];
      try by apply elem_of_nil in Hce.
    destruct (_ !! c1) as [h1|]; [|by apply elem_of_nil in Hce].
    destruct (_ !! c2) as [h2|]; [|by apply elem_of_nil in Hce].
    destruct (Js.truthy h1 && Js.truthy h2); [|by apply elem_of_nil in Hce].
    apply list_elem_of_singleton in Hce as ->. discriminate.
  - unfold Clustered.connectors, Clustered.clusterConnectorEdges.
    set (ncm := Clustered.nodeClusterMap _).
    set (centers := Clustered.clusterCenters _ _).
    destruct (connectedClusters_spec ncm (Clustered.visibleEdges filters ns es))
      as [Hnd Hspec].
    assert (Hkey : ∀ s id, s ∈ Clustered.connectedClusters ncm
                               (Clustered.visibleEdges filters ns es) →
              id ∈ map fe_id (Clustered.connectorEdge centers s) →
              id = String.append "cluster-conn-" s).
    { intros s id Hs Hid.
      apply Hspec in Hs as (e & a & b & _ & Ha & Hb & _ & ->).
      assert (Hpos : ∀ x c, Clustered.clusterOf ncm x = Some c → 0 <= c).
      { intros x c Hc. unfold Clustered.clusterOf in Hc.
        destruct (ncm !! x) as [oc|] eqn:Hx; [|done]. subst oc.
        apply nodeClusterMap_value in Hx as (fn & Hfn & _ & Hcl).
        apply layoutNodes_node in Hfn.
        rewrite Forall_forall in Hnonneg. by apply (Hnonneg _ Hfn). }
      apply list_elem_of_fmap in Hid as (ce & -> & Hce).
      apply connector_id in Hce; eauto. }
    rewrite concat_map, map_map.
    apply NoDup_concat_map; [done|..].
    + intros s _. unfold Clustered.connectorEdge.
      destruct (Clustered.pairClusters s) as [[c1|] [c2|]];
        try apply NoDup_nil_2.
      destruct (_ !! c1); [|apply NoDup_nil_2].
      destruct (_ !! c2); [|apply NoDup_nil_2].
      destruct (_ && _); [apply NoDup_singleton | apply NoDup_nil_2].
    + intros s s' id Hs Hs' Hid Hid'.
      apply (Hkey _ _ Hs) in Hid. apply (Hkey _ _ Hs') in Hid'.
      rewrite Hid in Hid'. by injection Hid'.
Qed.

(** X14, at two clusters joined by two edges. *)
Lemma edge_ids_distinct_witness :
  let ns := [mkNode "a" 0 false (Some 0); mkNode "b" 0 false (Some 1);
             mkNode "c" 0 false (Some 1)] in
  let es := [mkEdge "a" "b"; mkEdge "c" "a"] in
  NoDup (map fe_id (view_edges (Clustered.layout noEnv noFilter ns es))).
Proof.
  intros ns es. apply (edge_ids_distinct noEnv noFilter ns es).
  change (Clustered.visibleNodes noFilter ns) with ns.
  repeat constructor; intros k [= <-]; lia.
Defined.

(** ** Zooming to a cluster *)

Lemma foldl_Rmin_bound (x : R) (xs : list R) :
  (foldl Rmin x xs <= x)%R ∧ Forall (λ y, (foldl Rmin x xs <= y)%R) xs.
Proof.
  revert x. induction xs as [|y xs IH]; intros x; simpl.
  - split; [lra | constructor].
  - destruct (IH (Rmin x y)) as [H1 H2].
    pose proof (Rmin_l x y). pose proof (Rmin_r x y).
    split; [lra|]. constructor; [lra | done].
Qed.

Lemma foldl_Rmax_bound (x : R) (xs : list R) :
  (x <= foldl Rmax x xs)%R ∧ Forall (λ y, (y <= foldl Rmax x xs)%R) xs.
Proof.
  revert x. induction xs as [|y xs IH]; intros x; simpl.
  - split; [lra | constructor].
  - destruct (IH (Rmax x y)) as [H1 H2].
    pose proof (Rmax_l x y). pose proof (Rmax_r x y).
    split; [lra|]. constructor; [lra | done].
Qed.

Lemma mathMin_mathMax (xs : list R) :
  xs ≠ [] →
  ∃ lo hi, GraphCanvas.mathMin xs = Some lo ∧ GraphCanvas.mathMax xs = Some hi
           ∧ Forall (λ x, (lo <= x <= hi)%R) xs.
Proof.
  destruct xs as [|x xs]; [done|]. intros _.
  exists (foldl Rmin x xs), (foldl Rmax x xs).
  split; [done|]. split; [done|].
  destruct (foldl_Rmin_bound x xs) as [Hlo Hlos].
  destruct (foldl_Rmax_bound x xs) as [Hhi Hhis].
  constructor; [lra|].
  rewrite Forall_forall in Hlos, Hhis. apply Forall_forall.
  intros y Hy. split; [by apply Hlos | by apply Hhis].
Qed.

Lemma zoom_window (lo hi spread zoom x o : R) :
  (lo <= x <= hi)%R → (hi - lo <= spread)%R →
  (0 < zoom)%R → (zoom * (spread + 200) <= 800)%R →
  (Rabs (x * zoom + (- ((lo + hi) / 2) * zoom + o) - o) < 400)%R.
Proof.
  intros Hx Hs Hz Hzs.
  replace (x * zoom + (- ((lo + hi) / 2) * zoom + o) - o)%R
    with (zoom * (x - (lo + hi) / 2))%R by lra.
  apply Rabs_def1; nra.
Qed.

(** X15. When the nodes of the canvas have finite positions and the
    cluster has a node, zooming to the cluster sets a viewport with a zoom
    above 0 and at most 1.5; the division has no zero divisor.  Under that
    viewport every node of the cluster lands less than 400 away, across
    and down, from the point (400, 300). *)
Theorem zoom_fits_cluster (nodes : list FlowNode) (clusterId : string)
    (viewport : option GraphCanvas.Viewport) :
  Forall (λ n, is_Some (fn_position n)) nodes →
  List.filter (GraphCanvas.inCluster clusterId) nodes ≠ [] →
  ∃ vp,
    GraphCanvas.handleZoomToCluster nodes clusterId viewport = Some vp
    ∧ (0 < GraphCanvas.vp_zoom vp <= 3 / 2)%R
    ∧ ∀ n x y,
        n ∈ nodes → GraphCanvas.inCluster clusterId n = true →
        fn_position n = Some (x, y) →
        (Rabs (x * GraphCanvas.vp_zoom vp + GraphCanvas.vp_x vp - 400) < 400
         ∧ Rabs (y * GraphCanvas.vp_zoom vp + GraphCanvas.vp_y vp - 300) < 400)%R.
Proof.
  intros Hfin Hne. unfold GraphCanvas.handleZoomToCluster.
  set (cn := List.filter (GraphCanvas.inCluster clusterId) nodes) in *.
  assert (Hlen : (length cn =? 0)%nat = false).
  { apply Nat.eqb_neq. by destruct cn. }
  rewrite Hlen.
  assert (Hcn : Forall (is_Some ∘ fn_position) cn).
  { apply Forall_forall. intros n Hn.
    apply elem_of_List_filter in Hn as [Hn _].
    rewrite Forall_forall in Hfin. by apply Hfin. }
  apply mapM_is_Some_2 in Hcn as [ps Hps]. rewrite Hps. cbn [mbind option_bind].
  pose proof (length_mapM _ _ _ Hps) as Hl.
  apply mapM_Some_1 in Hps.
  assert (Hxs : map fst ps ≠ []) by (destruct ps, cn; done).
  assert (Hys : map snd ps ≠ []) by (destruct ps, cn; done).
  destruct (mathMin_mathMax _ Hxs) as (minX & maxX & -> & -> & Hbx).
  destruct (mathMin_mathMax _ Hys) as (minY & maxY & -> & -> & Hby).
  cbn [mbind option_bind].
  set (spread := Rmax (maxX - minX) (maxY - minY)).
  assert (Hsx : (maxX - minX <= spread)%R) by apply Rmax_l.
  assert (Hsy : (maxY - minY <= spread)%R) by apply Rmax_r.
  assert (Hs0 : (0 <= spread)%R).
  { destruct ps as [|[x y] ps]; [done|].
    apply Forall_cons in Hbx as [Hb _]. simpl in Hb. lra. }
  destruct (Req_dec_T (spread + 200) 0) as [H0|_]; [lra|].
  set (zoom := Rmin (3 / 2) (800 / (spread + 200))).
  assert (Hz : (0 < zoom <= 3 / 2)%R).
  { split; [|apply Rmin_l]. unfold zoom.
    apply Rmin_glb_lt; [lra|]. apply Rdiv_lt_0_compat; lra. }
  assert (Hzs : (zoom * (spread + 200) <= 800)%R).
  { pose proof (Rmin_r (3 / 2) (800 / (spread + 200))) as Hr. fold zoom in Hr.
    apply (Rmult_le_compat_r (spread + 200)) in Hr; [|lra].
    unfold Rdiv in Hr. rewrite Rmult_assoc, Rinv_l in Hr by lra. lra. }
  eexists. split; [reflexivity|]. cbn [GraphCanvas.vp_zoom GraphCanvas.vp_x
                                       GraphCanvas.vp_y].
  split; [done|]. intros n x y Hn Hin Hpos.
  assert (Hncn : n ∈ cn) by (apply elem_of_List_filter; done).
  destruct (Forall2_elem_l _ _ _ _ Hps Hncn) as (p & Hp & Hnp).
  rewrite Hpos in Hnp. injection Hnp as <-.
  rewrite Forall_forall in Hbx, Hby.
  assert (Hx := Hbx x (list_elem_of_fmap_2 fst _ _ Hp)).
  assert (Hy := Hby y (list_elem_of_fmap_2 snd _ _ Hp)).
  destruct Hz as [Hz0 _].
  split.
  - exact (zoom_window minX maxX spread zoom x 400 Hx Hsx Hz0 Hzs).
  - exact (zoom_window minY maxY spread zoom y 300 Hy Hsy Hz0 Hzs).
Qed.

(** X15, at two nodes of cluster 3 that are 1000 apart. *)
Lemma zoom_fits_cluster_witness :
  let nodes := [nodeAt (mkNode "a" 0 false (Some 3)) 0 0;
                nodeAt (mkNode "b" 0 false (Some 3)) 1000 0;
                nodeAt (mkNode "c" 0 false None) 50 50] in
  ∃ vp,
    GraphCanvas.handleZoomToCluster nodes "3" None = Some vp
    ∧ (0 < GraphCanvas.vp_zoom vp <= 3 / 2)%R.
Proof.
  intros nodes.
  destruct (zoom_fits_cluster nodes "3" None) as (vp & Hvp & Hz & _).
  - repeat constructor; by eexists.
  - simpl. discriminate.
  - by exists vp.
Defined.

(** ** The clusters of the canvas *)

Lemma addNode_keys (k : Z) (n : FlowNode) (cl : list (Z * GraphCanvas.ClusterInfo)) :
  map fst (GraphCanvas.addNode k n cl)
  = if bool_decide (k ∈ map fst cl) then map fst cl else map fst cl ++ [k].
Proof.
  induction cl as [|[k' c] cl IH]; simpl; [done|].
  destruct (Z.eqb_spec k' k) as [->|Hne]; simpl.
  - by rewrite bool_decide_eq_true_2 by left.
  - rewrite IH.
    rewrite (bool_decide_ext (k ∈ k' :: map fst cl) (k ∈ map fst cl)).
    + by case_bool_decide.
    + rewrite elem_of_cons. split; [intros [?|?]; [congruence | done] | auto].
Qed.

Lemma addNode_elem (k : Z) (n : FlowNode) (cl : list (Z * GraphCanvas.ClusterInfo))
    (k' : Z) (c' : GraphCanvas.ClusterInfo) :
  NoDup (map fst cl) →
  (k', c') ∈ GraphCanvas.addNode k n cl →
  (k' ≠ k ∧ (k', c') ∈ cl)
  ∨ (k' = k ∧ ((∃ c, (k, c) ∈ cl ∧ c' = GraphCanvas.pushed n c)
               ∨ ((k ∉ map fst cl)
                  ∧ c' = GraphCanvas.pushed n (GraphCanvas.created n)))).
Proof.
  induction cl as [|[k0 c0] cl IH]; simpl; intros Hnd.
  - intros [= -> ->]%list_elem_of_singleton. right. split; [done|]. right.
    split; [apply not_elem_of_nil | done].
  - apply NoDup_cons in Hnd as [Hk0 Hnd].
    destruct (Z.eqb_spec k0 k) as [->|Hne].
    + intros [[= -> ->]|Hin]%elem_of_cons.
      * right. split; [done|]. left. exists c0. split; [left | done].
      * left. split; [|by right].
        intros ->. apply Hk0.
        by apply (list_elem_of_fmap_2 fst) in Hin.
    + intros [[= -> ->]|Hin]%elem_of_cons.
      * left. split; [done|]. left.
      * destruct (IH Hnd Hin) as [[Hk Hc]|[-> [(c & Hc & ->)|[Hk ->]]]].
        -- left. split; [done|]. by right.
        -- right. split; [done|]. left. exists c. split; [by right | done].
        -- right. split; [done|]. right. split; [|done].
           rewrite not_elem_of_cons. done.
Qed.

(** What the first pass of the memo keeps true. *)
Lemma canvas_clusters_inv (nodes : list FlowNode) :
  let cl := foldl (λ clusters node,
                     GraphCanvas.addNode (GraphCanvas.clusterKey node) node
                                         clusters) [] nodes in
  NoDup (map fst cl)
  ∧ (∀ k, k ∈ map fst cl ↔ ∃ n, n ∈ nodes ∧ GraphCanvas.clusterKey n = k)
  ∧ ∀ k c, (k, c) ∈ cl →
      GraphCanvas.ci_nodes c
      = List.filter (λ n, GraphCanvas.clusterKey n =? k) nodes
      ∧ GraphCanvas.ci_nodes c ≠ []
      ∧ GraphCanvas.ci_centerX c
        = GraphCanvas.average (map GraphCanvas.xOf (GraphCanvas.ci_nodes c))
      ∧ GraphCanvas.ci_centerY c
        = GraphCanvas.average (map GraphCanvas.yOf (GraphCanvas.ci_nodes c)).
Proof.
  induction nodes as [|n nodes IH] using rev_ind.
  - simpl. split; [constructor|]. split.
    + intros k. rewrite elem_of_nil. split; [done|].
      intros (n & Hn & _). by apply elem_of_nil in Hn.
    + intros k c Hin. by apply elem_of_nil in Hin.
  - rewrite foldl_app. cbn [foldl]. cbv zeta in IH.
    set (cl := foldl _ [] nodes) in *.
    destruct IH as (Hnd & Hkeys & Hent).
    set (kn := GraphCanvas.clusterKey n).
    split_and!.
    + rewrite addNode_keys. case_bool_decide as Hk; [done|].
      apply NoDup_app. split_and!; [done| |apply NoDup_singleton].
      intros x Hx ->%list_elem_of_singleton. done.
    + intros k. rewrite addNode_keys.
      assert (Hiff : k ∈ map fst cl ∨ k = kn
                     ↔ ∃ m, m ∈ nodes ++ [n] ∧ GraphCanvas.clusterKey m = k).
      { rewrite Hkeys. split.
        - intros [(m & Hm & Hk) | ->].
          + exists m. split; [|done]. apply elem_of_app. by left.
          + exists n. split; [|done]. apply elem_of_app. right. left.
        - intros (m & [Hm|Hm%list_elem_of_singleton]%elem_of_app & Hk).
          + left. eauto.
          + right. by subst. }
      rewrite <- Hiff. case_bool_decide as Hk.
      * split; [auto|]. intros [? | ->]; done.
      * rewrite elem_of_app, list_elem_of_singleton. done.
    + intros k c Hin. rewrite List_filter_app. cbn [List.filter].
      subst kn.
      apply addNode_elem in Hin as [[Hk Hc]|[-> [(c0 & Hc & ->)|[Hk ->]]]];
        [| | |done].
      * destruct (Hent k c Hc) as (Hms & Hne & Hx & Hy).
        destruct (Z.eqb_spec (GraphCanvas.clusterKey n) k) as [?|_];
          [congruence|].
        by rewrite app_nil_r.
      * destruct (Hent _ c0 Hc) as (Hms & Hne & Hx & Hy).
        rewrite Z.eqb_refl. cbn [GraphCanvas.pushed GraphCanvas.ci_nodes
          GraphCanvas.ci_centerX GraphCanvas.ci_centerY].
        rewrite Hms. split; [done|]. split; [|done].
        by destruct (List.filter _ nodes).
      * rewrite Z.eqb_refl. cbn [GraphCanvas.pushed GraphCanvas.created
          GraphCanvas.ci_nodes GraphCanvas.ci_centerX GraphCanvas.ci_centerY
          app].
        split; [|done].
        rewrite List_filter_nil; [done|].
        intros m Hm. apply Z.eqb_neq. intros Heq. apply Hk, Hkeys. eauto.
Qed.

Lemma inCluster_spec (key : string) (n : FlowNode) :
  GraphCanvas.inCluster key n = true
  ↔ ∃ c, cluster_id (nd_node (fn_data n)) = Some c ∧ key = Js.toString c.
Proof.
  unfold GraphCanvas.inCluster.
  destruct (cluster_id (nd_node (fn_data n))) as [c|].
  - rewrite String.eqb_eq. split.
    + intros <-. eauto.
    + by intros (c' & [= <-] & ->).
  - split; [done|]. by intros (c & [=] & _).
Qed.

(** X16. The quick navigation has at most six buttons, all for different
    clusters, and each of them is for the cluster id of some node: its
    click selects at least one node, so the zoom never returns early.
    Nodes without cluster id, kept under the key -1, get no button. *)
Theorem navigation_keys_select (nodes : list FlowNode) :
  (length (GraphCanvas.navigationKeys nodes) ≤ 6)%nat
  ∧ NoDup (GraphCanvas.navigationKeys nodes)
  ∧ Forall (λ key,
              (∃ n c, n ∈ nodes
                      ∧ cluster_id (nd_node (fn_data n)) = Some c
                      ∧ key = Js.toString c)
              ∧ List.filter (GraphCanvas.inCluster key) nodes ≠ [])
           (GraphCanvas.navigationKeys nodes).
Proof.
  unfold GraphCanvas.navigationKeys, GraphCanvas.clusterMetadata.
  destruct (canvas_clusters_inv nodes) as (Hnd & Hkeys & _). cbv zeta in *.
  set (cl := foldl _ [] nodes) in *.
  set (cl' := map (λ kc, (fst kc, GraphCanvas.withRadius (snd kc))) cl).
  assert (Hfst : map fst cl' = map fst cl).
  { unfold cl'. rewrite map_map. by apply map_ext. }
  set (keys := map (λ kc, Js.toString (fst kc)) (Js.objectEntries cl')).
  assert (Hknd : NoDup keys).
  { unfold keys. rewrite <- (map_map fst Js.toString).
    assert (Hinj : Inj eq eq Js.toString) by (intros a b; apply toString_inj).
    apply (NoDup_fmap_2 Js.toString).
    apply objectEntries_keys_NoDup. by rewrite Hfst. }
  split_and!.
  - rewrite length_take. lia.
  - eapply sublist_NoDup; [exact Hknd|].
    etrans; [apply sublist_take | apply sublist_List_filter].
  - apply Forall_take, Forall_forall. intros key Hkey.
    apply elem_of_List_filter in Hkey as [Hkey Hne].
    apply list_elem_of_fmap in Hkey as ([k c] & -> & Hkc). cbn [fst] in *.
    apply (proj1 (objectEntries_elem _ _)) in Hkc.
    assert (Hk : k ∈ map fst cl).
    { rewrite <- Hfst. apply list_elem_of_fmap. exists (k, c).
      split; [reflexivity | exact Hkc]. }
    clear Hkc. apply Hkeys in Hk as (n & Hn & Hk).
    unfold GraphCanvas.clusterKey in Hk.
    destruct (cluster_id (nd_node (fn_data n))) as [c0|] eqn:Hc;
      cbn [from_option] in Hk; unfold Datatypes.id in Hk; subst k.
    + split; [by exists n, c0|].
      assert (Hin : n ∈ List.filter
                          (GraphCanvas.inCluster (Js.toString c0)) nodes).
      { apply elem_of_List_filter. split; [done|].
        apply inCluster_spec. eauto. }
      intros Hnil. rewrite Hnil in Hin. by apply elem_of_nil in Hin.
    + done.
Qed.





(** ** The timeline *)

Lemma point_run (now : Z) (node : Node) (rnd : nat → R) (cur : nat) :
  Timeline.point now node rnd cur
  = ({| Timeline.tp_timestamp :=
          now - Timeline.floor (rnd cur * 30) * 24 * 60 * 60 * 1000;
        Timeline.tp_amount :=
          (Q2R (risk_score node) * 700 + rnd (S cur) * 5000)%R;
        Timeline.tp_risk := risk_score node;
        Timeline.tp_name := nodeLabel node;
        Timeline.tp_cluster := cluster_id node |},
     S (S cur)).
Proof. reflexivity. Qed.

Lemma timeline_run (now : Z) (ns : list Node) (s : Timeline.Series)
    (rnd : nat → R) (cur : nat) :
  let nps := timelinePoints now rnd cur ns in
  Timeline.forEach (Timeline.step now) s ns rnd cur
  = ({| Timeline.normal := Timeline.normal s ++ inBucket NormalBucket nps;
        Timeline.suspicious :=
          Timeline.suspicious s ++ inBucket SuspiciousBucket nps;
        Timeline.mule := Timeline.mule s ++ inBucket MuleBucket nps |},
     (cur + 2 * length ns)%nat).
Proof.
  revert s cur. induction ns as [|n ns IH]; intros s cur.
  - cbn. unfold Grid.ret, inBucket. cbn. rewrite !app_nil_r.
    destruct s. f_equal. lia.
  - cbn [Timeline.forEach]. unfold Grid.bind at 1.
    unfold Timeline.step at 1. unfold Grid.bind at 1.
    rewrite point_run. unfold Grid.ret at 1.
    set (p := {| Timeline.tp_timestamp := _ |}).
    rewrite IH. cbv zeta.
    assert (Hnps : timelinePoints now rnd cur (n :: ns)
                   = (n, p) :: timelinePoints now rnd (S (S cur)) ns).
    { unfold timelinePoints. cbn [imap]. f_equal.
      - replace (cur + 2 * 0)%nat with cur by lia. by rewrite point_run.
      - apply imap_ext. intros j m _. unfold compose. cbv beta.
        by replace (cur + 2 * S j)%nat with (S (S cur) + 2 * j)%nat by lia. }
    rewrite Hnps. unfold inBucket, bucketOf. cbn [List.filter fst].
    f_equal; [|cbn [length]; lia].
    destruct (mule_suspected n); [|destruct (Qle_bool 50 (risk_score n))];
      cbn; rewrite <- ?app_assoc; reflexivity.
Qed.

Lemma inBucket_keys (b : Bucket) (now : Z) (rnd : nat → R) (cur : nat)
    (ns : list Node) :
  map pointKey (inBucket b (timelinePoints now rnd cur ns))
  = map pointOf (List.filter (λ n, bool_decide (bucketOf n = b)) ns).
Proof.
  unfold timelinePoints. revert cur.
  induction ns as [|n ns IH]; intros cur; [done|].
  cbn [imap List.filter]. unfold inBucket. cbn [List.filter fst].
  assert (Htl : imap ((λ j n0, (n0, fst (Timeline.point now n0 rnd
                                           (cur + 2 * j)%nat))) ∘ S) ns
                = imap (λ j n0, (n0, fst (Timeline.point now n0 rnd
                                            (S (S cur) + 2 * j)%nat))) ns).
  { apply imap_ext. intros j m _. unfold compose. cbv beta.
    by replace (cur + 2 * S j)%nat with (S (S cur) + 2 * j)%nat by lia. }
  rewrite Htl. specialize (IH (S (S cur))). unfold inBucket in IH.
  case_bool_decide; cbn [map snd]; rewrite IH; [|done].
  f_equal.
Qed.

(** X18. The timeline makes one point for every node of the payload and
    puts it in one series: the mule series when the node is flagged,
    whatever its score; else the suspicious series when its score is 50 or
    more; else the normal series.  Each series keeps the payload order, and
    every point takes two values from the random generator. *)
Theorem timeline_series (now : Z) (ns : list Node) (es : option (list Edge))
    (rnd : nat → R) (cur : nat) :
  let run := Timeline.timelineData now
               (Some {| nodes := Some ns; edges := es |}) rnd cur in
  let series := fst run in
  map pointKey (Timeline.mule series)
  = map pointOf (List.filter mule_suspected ns)
  ∧ map pointKey (Timeline.suspicious series)
    = map pointOf
        (List.filter (λ n, negb (mule_suspected n)
                           && Qle_bool 50 (risk_score n)) ns)
  ∧ map pointKey (Timeline.normal series)
    = map pointOf
        (List.filter (λ n, negb (mule_suspected n)
                           && negb (Qle_bool 50 (risk_score n))) ns)
  ∧ (length (Timeline.mule series) + length (Timeline.suspicious series)
     + length (Timeline.normal series) = length ns)%nat
  ∧ snd run = (cur + 2 * length ns)%nat.
Proof.
  intros run series. unfold series, run.
  cbn [Timeline.timelineData nodes].
  rewrite timeline_run. cbn [fst snd Timeline.mule Timeline.suspicious
    Timeline.normal Timeline.noSeries app].
  assert (HM : map pointKey (inBucket MuleBucket (timelinePoints now rnd cur ns))
               = map pointOf (List.filter mule_suspected ns)).
  { rewrite inBucket_keys. f_equal. apply List_filter_ext_all.
    intros n. unfold bucketOf.
    destruct (mule_suspected n); [done|].
    by destruct (Qle_bool 50 (risk_score n)). }
  assert (HS : map pointKey
                 (inBucket SuspiciousBucket (timelinePoints now rnd cur ns))
               = map pointOf
                   (List.filter (λ n, negb (mule_suspected n)
                                      && Qle_bool 50 (risk_score n)) ns)).
  { rewrite inBucket_keys. f_equal. apply List_filter_ext_all.
    intros n. unfold bucketOf.
    destruct (mule_suspected n); [done|].
    by destruct (Qle_bool 50 (risk_score n)). }
  assert (HN : map pointKey
                 (inBucket NormalBucket (timelinePoints now rnd cur ns))
               = map pointOf
                   (List.filter (λ n, negb (mule_suspected n)
                                      && negb (Qle_bool 50 (risk_score n))) ns)).
  { rewrite inBucket_keys. f_equal. apply List_filter_ext_all.
    intros n. unfold bucketOf.
    destruct (mule_suspected n); [done|].
    by destruct (Qle_bool 50 (risk_score n)). }
  split_and!; try done.
  apply (f_equal length) in HM, HS, HN. rewrite !length_map in HM, HS, HN.
  rewrite HM, HS, HN. clear.
  induction ns as [|n ns IH]; [done|]. cbn [List.filter].
  destruct (mule_suspected n), (Qle_bool 50 (risk_score n)); cbn; lia.
Qed.

Lemma floor_days (r : R) :
  (0 <= r < 1)%R → 0 <= Timeline.floor (r * 30) <= 29.
Proof.
  intros Hr. unfold Timeline.floor.
  destruct (base_Int_part (r * 30)) as [Hle Hgt].
  assert (H1 : (IZR (Int_part (r * 30)) < IZR 30)%R) by lra.
  assert (H2 : (IZR (-1) < IZR (Int_part (r * 30)))%R) by lra.
  apply lt_IZR in H1, H2. lia.
Qed.

(** X19. With [Math.random()] giving values from 0 up to but not 1, every
    point of the timeline is dated a whole number of days before now, from
    0 to 29; and when the risk score of its node is a whole number from 0
    to 100, its amount is 700 times the score plus at least 0 and at most
    5000. *)
Theorem timeline_ranges (now : Z) (ns : list Node) (es : option (list Edge))
    (rnd : nat → R) (cur : nat) :
  (∀ k, 0 <= rnd k < 1)%R →
  let series := fst (Timeline.timelineData now
                       (Some {| nodes := Some ns; edges := es |}) rnd cur) in
  Forall (λ p,
            (∃ days, 0 <= days <= 29
                     ∧ Timeline.tp_timestamp p = now - days * 86400000)
            ∧ (∀ score : Z,
                 0 <= score <= 100 →
                 (Timeline.tp_risk p == inject_Z score)%Q →
                 (IZR score * 700 <= Timeline.tp_amount p
                  <= IZR score * 700 + 5000)%R))
         (Timeline.normal series ++ Timeline.suspicious series
          ++ Timeline.mule series).
Proof.
  intros Hrnd series. unfold series.
  cbn [Timeline.timelineData nodes].
  rewrite timeline_run. cbn [fst Timeline.mule Timeline.suspicious
    Timeline.normal Timeline.noSeries app].
  assert (Hall : ∀ b, Forall
            (λ p, (∃ days, 0 <= days <= 29
                           ∧ Timeline.tp_timestamp p = now - days * 86400000)
                  ∧ (∀ score : Z,
                       0 <= score <= 100 →
                       (Timeline.tp_risk p == inject_Z score)%Q →
                       (IZR score * 700 <= Timeline.tp_amount p
                        <= IZR score * 700 + 5000)%R))
            (inBucket b (timelinePoints now rnd cur ns))).
  { intros b. apply Forall_forall. intros p Hp. unfold inBucket in Hp.
    apply list_elem_of_fmap in Hp as ([n p'] & -> & Hp).
    apply elem_of_List_filter in Hp as [Hp _].
    apply elem_of_lookup_imap_1 in Hp as (j & m & Heq & _).
    injection Heq as -> ->. rewrite ?point_run.
    cbn [fst snd Timeline.tp_timestamp Timeline.tp_amount Timeline.tp_risk].
    split.
    - match goal with
      | |- context [Timeline.floor ?x] => exists (Timeline.floor x)
      end.
      split; [apply floor_days, Hrnd | lia].
    - intros score _ Hscore. apply Qreals.Qeq_eqR in Hscore.
      rewrite Hscore. unfold Q2R, inject_Z. cbn [Qnum Qden].
      rewrite Rinv_1, Rmult_1_r.
      match goal with |- context [rnd ?i] => pose proof (Hrnd i) end. lra. }
  rewrite !Forall_app. split_and!; apply Hall.
Qed.

(** X19, at two nodes and a generator that always returns a half. *)
Lemma timeline_ranges_witness :
  let ns := [mkNode "a" 10 true None; mkNode "b" 80 false (Some 1)] in
  let series := fst (Timeline.timelineData 1000000000000
                       (Some {| nodes := Some ns; edges := None |})
                       (λ _, (1 / 2)%R) 0%nat) in
  Forall (λ p, ∃ days, 0 <= days <= 29
                       ∧ Timeline.tp_timestamp p
                         = 1000000000000 - days * 86400000)
         (Timeline.normal series ++ Timeline.suspicious series
          ++ Timeline.mule series).
Proof.
  intros ns series.
  eapply Forall_impl.
  - apply (timeline_ranges 1000000000000 ns None (λ _, (1 / 2)%R) 0%nat).
    intros k. lra.
  - intros p [H _]. exact H.
Defined.

(** ** The two versions of the page *)

(** X20. Under the same filter the clustered page and the grid page show
    the same nodes, the clustered one in another order, and they make the
    same edges for the payload, with the same ids, ends, order and
    animation; the clustered page only adds the connectors after them. *)
Theorem pages_agree (env env' : Env) (filters : Filters) (ns : list Node)
    (es : list Edge) (view view' : View) (rnd : nat → R) (cur : nat) :
  let data := Some {| nodes := Some ns; edges := Some es |} in
  let c := Clustered.processGraphData env filters data view in
  let g := fst (Grid.processGraphData env' filters data view' rnd cur) in
  map fn_id (view_nodes c) ≡ₚ map fn_id (view_nodes g)
  ∧ ∃ connectors,
      view_edges c = Clustered.layoutEdges env filters ns es ++ connectors
      ∧ Forall (λ ce, ∃ pair, fe_data ce = ClusterConnector pair) connectors
      ∧ map (λ e, (fe_id e, fe_source e, fe_target e, fe_animated e))
            (Clustered.layoutEdges env filters ns es)
        = map (λ e, (fe_id e, fe_source e, fe_target e, fe_animated e))
              (view_edges g).
Proof.
  intros data c g. unfold c, g, data.
  rewrite (grid_run env' filters ns es view' rnd cur).
  cbn [fst view_nodes view_edges Clustered.processGraphData nodes edges
       Clustered.layout].
  assert (Hids : map fn_id
                   (imap (λ j node,
                            fst (Grid.flowNode env' j node rnd (cur + 2 * j)%nat))
                         (List.filter (nodeFilter filters) ns))
                 = map node_id (Clustered.visibleNodes filters ns))
    by apply grid_ids.
  split.
  - rewrite Hids. apply layoutNodes_ids.
  - exists (Clustered.connectors env filters ns es).
    split; [done|]. split.
    + apply Forall_forall. intros ce Hce.
      apply connectors_elem in Hce as (pair & _ & Hd). eauto.
    + unfold Grid.flowEdges, Clustered.layoutEdges, Clustered.flowEdges.
      rewrite Hids.
      change (List.filter _ es) with (Clustered.visibleEdges filters ns es).
      generalize (Clustered.visibleEdges filters ns es).
      generalize (Clustered.nodeClusterMap
                    (Clustered.layoutNodes env filters ns es)).
      intros ncm l.
      change (map ?f ?x) with (f <$> x). rewrite !fmap_imap.
      by apply imap_ext.
Qed.

(** ** Fetching the graph *)

Lemma layoutCluster_labels env cc K k ms :
  Forall (λ fn, nd_label (fn_data fn) = nodeLabel (nd_node (fn_data fn)))
         (Clustered.layoutCluster env cc K k ms).
Proof.
  apply Forall_forall. intros fn Hfn.
  unfold Clustered.layoutCluster in Hfn.
  apply elem_of_lookup_imap_1 in Hfn as (i & n & -> & _). done.
Qed.

Lemma normalizeNode_name (m : gmap string Fetch.MuleAccount)
    (node : Fetch.RawNode) :
  ∃ name, node_name (Fetch.normalizeNode m node) = Some name
          ∧ name ≠ ""
          ∧ nodeLabel (Fetch.normalizeNode m node) = name.
Proof.
  unfold Fetch.normalizeNode, nodeLabel. cbn [node_name node_id].
  set (name := default _ _).
  assert (Hname : name ≠ "").
  { unfold name.
    assert (Ht : ∀ o x, Fetch.truthyString o = Some x → x ≠ "").
    { intros [y|] x; cbn; [|done].
      destruct (Js.truthy y) eqn:Hy; [|done].
      intros [= <-]. by apply truthy_spec. }
    pose proof (Ht (Fetch.rn_name node)) as H1.
    pose proof (Ht (m !! Fetch.rn_id node ≫= Fetch.ma_account_holder_name))
      as H2.
    pose proof (Ht (Fetch.rn_label node)) as H3.
    destruct (Fetch.truthyString (Fetch.rn_name node)) as [x|],
      (Fetch.truthyString (_ ≫= _)) as [y|],
      (Fetch.truthyString (Fetch.rn_label node)) as [z|]; cbn;
      try exact (H1 _ eq_refl); try exact (H2 _ eq_refl);
      try exact (H3 _ eq_refl).
    discriminate. }
  exists name. split; [done|]. split; [done|].
  apply truthy_spec in Hname. by rewrite Hname.
Qed.

Lemma layout_no_nodes (env : Env) (filters : Filters) (es : list Edge) :
  Clustered.layout env filters [] es = initialView.
Proof.
  unfold Clustered.layout, Clustered.layoutEdges, Clustered.connectors,
    Clustered.layoutNodes.
  assert (Hve : Clustered.visibleEdges filters [] es = []).
  { unfold Clustered.visibleEdges, Clustered.filteredEdges.
    apply List_filter_nil. intros e _.
    apply andb_false_iff. left. apply bool_decide_eq_false.
    unfold Clustered.nodeIds. cbn. apply not_elem_of_empty. }
  rewrite Hve. reflexivity.
Qed.


Lemma muleById_lookup (accounts : list Fetch.MuleAccount) (k : string) :
  Fetch.muleById accounts !! k = accountOf accounts k.
Proof.
  unfold Fetch.muleById, accountOf.
  induction accounts as [|a l IH] using rev_ind; [done|].
  rewrite foldl_app, List.filter_app. cbn [foldl List.filter].
  destruct (Fetch.ma_id a) as [k'|] eqn:Hk.
  - destruct (decide (k' = k)) as [->|Hne].
    + rewrite lookup_insert_eq, bool_decide_true by done.
      by rewrite last_snoc.
    + rewrite lookup_insert_ne by done.
      rewrite bool_decide_false by congruence.
      by rewrite app_nil_r.
  - rewrite bool_decide_false by done. by rewrite app_nil_r.
Qed.

(** X22. After a fetch every node of the view has a label that is not
    empty, and it is the name that the fetch gave the node of the response
    with that id: the node's own name when it is a string that is not
    empty, else such a holder name of the mule account with the node's id,
    else such a label of the node, else the word Account and the id. *)
Theorem fetched_nodes_are_named (env : Env) (filters : Filters)
    (data : option Fetch.Payload) (st : Fetch.PageState) :
  let payload := default Fetch.noPayload data in
  let raw := default [] (Fetch.g_nodes (Fetch.graphData payload)) in
  let accounts := default [] (Fetch.mule_accounts payload) in
  let st' := Fetch.fetchGraphData env filters (Fetch.Resolved data) st in
  Forall (λ fn, nd_label (fn_data fn) ≠ ""
                ∧ node_name (nd_node (fn_data fn)) = Some (nd_label (fn_data fn))
                ∧ ∃ rn,
                    rn ∈ raw ∧ Fetch.rn_id rn = fn_id fn
                    ∧ nd_label (fn_data fn)
                      = match Fetch.truthyString (Fetch.rn_name rn),
                              Fetch.truthyString
                                (accountOf accounts (Fetch.rn_id rn)
                                 ≫= Fetch.ma_account_holder_name),
                              Fetch.truthyString (Fetch.rn_label rn) with
                        | Some name, _, _ => name
                        | None, Some holder, _ => holder
                        | None, None, Some label => label
                        | None, None, None =>
                            String.append "Account " (Fetch.rn_id rn)
                        end)
         (view_nodes (Fetch.view st')).
Proof.
  intros payload raw0 accounts st'. unfold st'.
  cbn [Fetch.fetchGraphData Fetch.view Fetch.normalizedData
       Clustered.processGraphData nodes edges].
  fold payload. fold accounts. fold raw0.
  set (m := Fetch.muleById accounts).
  set (es := default [] (Fetch.g_edges _)).
  cbn [Clustered.layout view_nodes].
  apply Forall_forall. intros fn Hfn.
  pose proof (layoutNodes_node _ _ _ _ _ Hfn) as Hn.
  unfold Clustered.visibleNodes, Clustered.filteredNodes in Hn.
  apply elem_of_List_filter in Hn as [Hn _].
  apply list_elem_of_fmap in Hn as (rn & Hrn & Hin).
  assert (Hl : nd_label (fn_data fn) = nodeLabel (nd_node (fn_data fn))).
  { pose proof (flowNodes_Forall env
                  (Clustered.counts filters (map (Fetch.normalizeNode m) raw0) es)
                  (Clustered.groups filters (map (Fetch.normalizeNode m) raw0))
                  _ (layoutCluster_labels env _)) as Hall.
    rewrite Forall_forall in Hall. by apply Hall. }
  assert (Hid : fn_id fn = node_id (nd_node (fn_data fn))).
  { pose proof (flowNodes_Forall env
                  (Clustered.counts filters (map (Fetch.normalizeNode m) raw0) es)
                  (Clustered.groups filters (map (Fetch.normalizeNode m) raw0))
                  _ (layoutCluster_ids env _)) as Hall.
    rewrite Forall_forall in Hall. by apply Hall. }
  destruct (normalizeNode_name m rn) as (name & Hname & Hne & Hlab).
  rewrite Hl, Hrn, Hlab. split; [done|]. split; [done|].
  exists rn. split; [done|]. split; [by rewrite Hid, Hrn|].
  cbn [Fetch.normalizeNode node_name Fetch.rn_id] in Hname |- *.
  injection Hname as <-. unfold m. rewrite muleById_lookup.
  clear.
  destruct (Fetch.truthyString (Fetch.rn_name rn)),
    (Fetch.truthyString
       (accountOf accounts (Fetch.rn_id rn) ≫= Fetch.ma_account_holder_name)),
    (Fetch.truthyString (Fetch.rn_label rn)); reflexivity.
Qed.

(** ** Choosing a cluster *)

Lemma cluster_center_polar (numClusters clusterIdx clusterSize : Z) :
  0 <= clusterIdx < numClusters →
  let d := (500 + Clustered.clusterRadius clusterSize)%R in
  let angle := (IZR clusterIdx / IZR numClusters * PI * 2 - PI / 2)%R in
  Clustered.clusterCenter numClusters clusterIdx clusterSize
  = Some ((600 + d * cos angle)%R, (600 + d * sin angle)%R)
  ∧ (700 <= d)%R.
Proof.
  intros Hidx d angle. unfold Clustered.clusterCenter, Js.div.
  rewrite Z.max_l by lia.
  destruct (numClusters =? 0) eqn:H0; [lia|]. cbn. split; [done|].
  unfold d, Clustered.clusterRadius.
  pose proof (Rmax_r (150 + sqrt (IZR clusterSize) * 45) 200). lra.
Qed.

Lemma clusterCenter_inj (numClusters i j si sj : Z) :
  0 <= i < numClusters → 0 <= j < numClusters →
  Clustered.clusterCenter numClusters i si
  = Clustered.clusterCenter numClusters j sj →
  i = j.
Proof.
  assert (Hlt : ∀ i j si sj, 0 <= i < numClusters → 0 <= j < numClusters →
            Clustered.clusterCenter numClusters i si
            = Clustered.clusterCenter numClusters j sj → ¬ j < i).
  { clear. intros i j si sj Hi Hj Heq Hji.
    destruct (cluster_center_polar numClusters i si Hi) as [Ei Hdi].
    destruct (cluster_center_polar numClusters j sj Hj) as [Ej Hdj].
    rewrite Ei, Ej in Heq. clear Ei Ej.
    set (di := (500 + Clustered.clusterRadius si)%R) in *.
    set (dj := (500 + Clustered.clusterRadius sj)%R) in *.
    set (ai := (IZR i / IZR numClusters * PI * 2 - PI / 2)%R) in *.
    set (aj := (IZR j / IZR numClusters * PI * 2 - PI / 2)%R) in *.
    injection Heq as Hx Hy.
    apply Rplus_eq_reg_l in Hx, Hy.
    pose proof (sin2_cos2 ai) as Hai. pose proof (sin2_cos2 aj) as Haj.
    unfold Rsqr in Hai, Haj.
    assert (Hd : di = dj).
    { assert (Hsq : (di * di = dj * dj)%R).
      { transitivity ((di * cos ai) * (di * cos ai)
                      + (di * sin ai) * (di * sin ai))%R.
        - transitivity (di * di * (sin ai * sin ai + cos ai * cos ai))%R;
            [rewrite Hai; ring | ring].
        - rewrite Hx, Hy.
          transitivity (dj * dj * (sin aj * sin aj + cos aj * cos aj))%R;
            [ring | rewrite Haj; ring]. }
      nra. }
    rewrite Hd in Hx, Hy.
    apply Rmult_eq_reg_l in Hx; [|lra]. apply Rmult_eq_reg_l in Hy; [|lra].
    apply (same_direction _ _ Hx Hy).
    assert (Hn : (0 < IZR numClusters)%R) by (apply IZR_lt; lia).
    assert (Hdiff : (0 < IZR i - IZR j < IZR numClusters)%R).
    { split.
      - apply Rlt_0_minus, IZR_lt. lia.
      - rewrite <- minus_IZR. apply IZR_lt. lia. }
    pose proof PI_RGT_0.
    replace (ai - aj)%R
      with ((IZR i - IZR j) / IZR numClusters * (2 * PI))%R
      by (unfold ai, aj; field; lra).
    assert (Hq : (0 < (IZR i - IZR j) / IZR numClusters < 1)%R).
    { split.
      - apply Rdiv_lt_0_compat; lra.
      - apply (Rmult_lt_reg_r (IZR numClusters)); [done|].
        unfold Rdiv. rewrite Rmult_assoc, Rinv_l by lra. lra. }
    nra. }
  intros Hi Hj Heq.
  pose proof (Hlt i j si sj Hi Hj Heq).
  pose proof (Hlt j i sj si Hj Hi (eq_sym Heq)). lia.
Qed.

(** X23. The centres that the layout gives to the clusters are all
    different points: two clusters never have their hubs on the same
    spot. *)
Theorem cluster_centres_apart (filters : Filters) (ns : list Node) :
  NoDup (map (λ km, Clustered.cm_center (snd km))
             (Clustered.clusterMetadata (Clustered.groups filters ns))).
Proof.
  unfold Clustered.clusterMetadata.
  set (entries := Js.objectEntries _).
  apply NoDup_alt. intros i j c Hi Hj.
  change (map ?f ?l) with (f <$> l) in Hi, Hj.
  rewrite list_lookup_fmap, list_lookup_imap in Hi, Hj.
  destruct (entries !! i) as [ei|] eqn:Hei; [|done].
  destruct (entries !! j) as [ej|] eqn:Hej; [|done].
  cbn in Hi, Hj. rewrite <- Hj in Hi. injection Hi as Hi.
  apply lookup_lt_Some in Hei, Hej.
  apply clusterCenter_inj in Hi; lia.
Qed.

Lemma select_visible (c : Z) (prev : Filters) (ns : list Node) :
  Clustered.visibleNodes (Page.onClusterChange (Js.toString c) prev) ns
  = List.filter (λ n, Js.strictEq (cluster_id n) (Some c))
      (Clustered.visibleNodes (Page.onClusterChange "" prev) ns).
Proof.
  unfold Clustered.visibleNodes, Clustered.filteredNodes.
  rewrite <- List_filter_andb. apply List_filter_ext_all.
  intros n. apply nodeFilter_select.
Qed.

(** X24. When the option of cluster [c], a safe integer, is chosen and the
    graph is laid out again, the view shows the nodes of cluster [c] that
    pass the other two filters and no other node, every edge drawn joins
    two of them, and no connector is drawn. *)
Theorem select_cluster_relayout (env : Env) (prev : Filters) (c : Z)
    (ns : list Node) (es : list Edge) (view : View) :
  Js.safeInteger c →
  let filters := Page.onClusterChange (Js.toString c) prev in
  let v := Page.relayout env filters
             (Some {| nodes := Some ns; edges := Some es |}) view in
  map (λ fn, nd_node (fn_data fn)) (view_nodes v)
  ≡ₚ List.filter (λ n, Js.strictEq (cluster_id n) (Some c))
       (Clustered.visibleNodes (Page.onClusterChange "" prev) ns)
  ∧ Forall (λ fn, cluster_id (nd_node (fn_data fn)) = Some c) (view_nodes v)
  ∧ view_edges v = Clustered.layoutEdges env filters ns es
  ∧ Forall (λ fe, fe_source fe ∈ map fn_id (view_nodes v)
                  ∧ fe_target fe ∈ map fn_id (view_nodes v))
           (view_edges v).
Proof.
  intros _ filters v. unfold v.
  cbn [Page.relayout Clustered.processGraphData nodes edges Clustered.layout
       view_nodes view_edges].
  assert (Hnodes : map (λ fn, nd_node (fn_data fn))
                       (Clustered.layoutNodes env filters ns es)
                   ≡ₚ Clustered.visibleNodes filters ns).
  { unfold Clustered.layoutNodes. rewrite flowNodes_nodes.
    apply clusterGroups_Permutation. }
  assert (Hall : Forall (λ fn, cluster_id (nd_node (fn_data fn)) = Some c)
                        (Clustered.layoutNodes env filters ns es)).
  { apply Forall_forall. intros fn Hfn.
    apply layoutNodes_node in Hfn. unfold filters in Hfn.
    rewrite select_visible in Hfn.
    apply elem_of_List_filter in Hfn as [_ Hs].
    by apply strictEq_spec in Hs as (c' & -> & [= ->]). }
  assert (Hconn : Clustered.connectors env filters ns es = []).
  { unfold Clustered.connectors.
    set (ncm := Clustered.nodeClusterMap _).
    destruct (connectedClusters_spec ncm
                (Clustered.visibleEdges filters ns es)) as [_ Hspec].
    assert (Hone : ∀ x a, Clustered.clusterOf ncm x = Some a → a = c).
    { intros x a Ha. unfold Clustered.clusterOf in Ha.
      destruct (ncm !! x) as [oc|] eqn:Hx; [|done]. subst oc.
      apply nodeClusterMap_value in Hx as (fn & Hfn & _ & Hcl).
      rewrite Forall_forall in Hall. rewrite (Hall fn Hfn) in Hcl.
      by injection Hcl. }
    destruct (Clustered.connectedClusters ncm _) as [|s l] eqn:Hcc; [done|].
    exfalso.
    destruct (proj1 (Hspec s)) as (e & a & b & _ & Ha & Hb & Hab & _);
      [left|].
    apply Hone in Ha, Hb. congruence. }
  split_and!.
  - rewrite Hnodes. unfold filters. by rewrite select_visible.
  - done.
  - by rewrite Hconn, app_nil_r.
  - rewrite Hconn, app_nil_r. apply Forall_forall. intros fe Hfe.
    apply layoutEdges_elem in Hfe as (e & _ & _ & He & -> & -> & _).
    apply visibleEdges_ends in He as (_ & Hs & Ht).
    rewrite <- (layoutNodes_ids env filters ns es) in Hs, Ht. done.
Qed.

(** X24, at the option of cluster 3 over two joined nodes of clusters 3
    and 4. *)
Lemma select_cluster_relayout_witness :
  let ns := [mkNode "a" 10 false (Some 3); mkNode "b" 20 false (Some 4)] in
  let es := [mkEdge "a" "b"] in
  let v := Page.relayout noEnv (Page.onClusterChange "3" noFilter)
             (Some {| nodes := Some ns; edges := Some es |}) initialView in
  Js.safeInteger 3
  ∧ Forall (λ fn, cluster_id (nd_node (fn_data fn)) = Some 3) (view_nodes v)
  ∧ view_edges v = [].
Proof.
  intros ns es v. split; [unfold Js.safeInteger; lia|].
  pose proof (select_cluster_relayout noEnv noFilter 3 ns es initialView) as H.
  cbv zeta in H. destruct H as (_ & H & He & _); [unfold Js.safeInteger; lia|].
  split; [exact H|]. etransitivity; [exact He|reflexivity].
Defined.

(** ** The order of the nodes of a cluster *)

Lemma sortInsert_nonIncreasing {A} (key : A → Z) (x : A) (l : list A) :
  nonIncreasing (map key l) →
  nonIncreasing (map key (Js.sortInsert (descending key) x l)).
Proof.
  induction l as [|y l IH]; intros Hl; simpl.
  - split; [constructor | exact I].
  - destruct Hl as [Hy Hl]. unfold descending at 1.
    destruct (Z.leb_spec (key y - key x) 0) as [Hle|Hgt]; simpl.
    + split; [|by split].
      constructor; [lia|].
      eapply Forall_impl; [exact Hy|]. simpl. intros z Hz. lia.
    + split; [|by apply IH].
      change (map key ?l) with (key <$> l).
      rewrite sortInsert_Permutation. simpl. constructor; [lia | exact Hy].
Qed.

Lemma sort_nonIncreasing {A} (key : A → Z) (l : list A) :
  nonIncreasing (map key (Js.sort (descending key) l)).
Proof.
  induction l as [|x l IH]; simpl; [exact I|].
  by apply sortInsert_nonIncreasing.
Qed.

Lemma nonIncreasing_concat (ls : list (list Z)) :
  Forall nonIncreasing ls →
  (∀ i j l l', ls !! i = Some l → ls !! j = Some l' → i ≠ j →
               l = [] ∨ l' = []) →
  nonIncreasing (concat ls).
Proof.
  induction ls as [|l ls IH]; intros Hall Hone; simpl; [exact I|].
  apply Forall_cons in Hall as [Hl Hls].
  destruct l as [|x l].
  - simpl. apply IH; [done|].
    intros i j l1 l2 Hi Hj Hij. apply (Hone (S i) (S j)); [done..|lia].
  - assert (Hnil : concat ls = []).
    { apply concat_nil_Forall, Forall_forall. intros l' Hl'.
      apply list_elem_of_lookup in Hl' as [j Hj].
      destruct (Hone 0%nat (S j) (x :: l) l' eq_refl Hj ltac:(lia));
        [discriminate | done]. }
    by rewrite Hnil, app_nil_r.
Qed.

Lemma map_filter_concat_imap {A B C} (g : B → C) (p : B → bool)
    (f : nat → A → list B) (l : list A) :
  map g (List.filter p (concat (imap f l)))
  = concat (imap (λ i x, map g (List.filter p (f i x))) l).
Proof.
  revert f. induction l as [|x l IH]; intros f; [done|].
  cbn [imap concat]. rewrite List_filter_app, map_app. f_equal.
  apply (IH (f ∘ S)).
Qed.

(** X25. When no visible id is the name of a property of
    [Object.prototype], then for every cluster key the nodes of that
    cluster appear in the clustered layout in the order of their degrees,
    greatest first: the hub comes first and the better connected nodes take
    the inner rings. *)
Theorem cluster_in_degree_order (env : Env) (filters : Filters)
    (ns : list Node) (es : list Edge) (k : Z) :
  ordinaryIds (Clustered.visibleNodes filters ns) →
  nonIncreasing
    (map (λ fn, AccountNode.degree (fn_data fn))
         (List.filter (λ fn, Clustered.groupKey (nd_node (fn_data fn)) =? k)
                      (Clustered.layoutNodes env filters ns es))).
Proof.
  intros _.
  unfold Clustered.layoutNodes, Clustered.flowNodes.
  pose proof (clusterGroups_inv (Clustered.visibleNodes filters ns))
    as (Hkeys & _ & _).
  fold (Clustered.groups filters ns) in Hkeys.
  apply objectEntries_keys_NoDup in Hkeys.
  set (cc := Clustered.counts filters ns es).
  set (entries := Js.objectEntries (Clustered.groups filters ns)) in *.
  set (K := Z.of_nat (length entries)).
  set (block := λ (i : nat) (e : Z * list Node),
         map (λ fn, AccountNode.degree (fn_data fn))
             (List.filter
                (λ fn, Clustered.groupKey (nd_node (fn_data fn)) =? k)
                (Clustered.layoutCluster env cc K (Z.of_nat i) (snd e)))).
  assert (Heq : map (λ fn, AccountNode.degree (fn_data fn))
                    (List.filter
                       (λ fn, Clustered.groupKey (nd_node (fn_data fn)) =? k)
                       (concat (imap (λ i e, Clustered.layoutCluster env cc K
                                               (Z.of_nat i) (snd e)) entries)))
                = concat (imap block entries)).
  { unfold block. apply map_filter_concat_imap. }
  rewrite Heq. clear Heq.
  assert (Hblock : ∀ i e, entries !! i = Some e →
            block i e
            = if fst e =? k
              then map (λ fn, AccountNode.degree (fn_data fn))
                       (Clustered.layoutCluster env cc K (Z.of_nat i) (snd e))
              else []).
  { intros i [k' ms] Hi. unfold block. cbn [fst snd].
    assert (Hall : ∀ fn, fn ∈ Clustered.layoutCluster env cc K (Z.of_nat i) ms →
              Clustered.groupKey (nd_node (fn_data fn)) = k').
    { intros fn Hfn. apply layoutCluster_members in Hfn.
      apply list_elem_of_lookup_2 in Hi.
      apply entries_spec in Hi as [_ Hms]. rewrite Hms in Hfn.
      apply elem_of_List_filter in Hfn as [_ Hk]. lia. }
    destruct (Z.eqb_spec k' k) as [->|Hne].
    - f_equal. rewrite <- (List.filter_ext_in (λ _, true)).
      + clear. induction (Clustered.layoutCluster _ _ _ _ _) as [|x l IH];
          [done|]. simpl. by rewrite IH.
      + intros fn Hfn. apply list_elem_of_In, Hall in Hfn.
        symmetry. by apply Z.eqb_eq.
    - rewrite List_filter_nil; [done|].
      intros fn Hfn. apply Hall in Hfn. apply Z.eqb_neq. congruence. }
  apply nonIncreasing_concat.
  - apply Forall_forall. intros l Hl.
    apply elem_of_lookup_imap_1 in Hl as (i & e & -> & Hi).
    rewrite (Hblock i e Hi). destruct (fst e =? k); [|exact I].
    assert (Hdeg : map (λ fn, AccountNode.degree (fn_data fn))
                       (Clustered.layoutCluster env cc K (Z.of_nat i) (snd e))
                   = map (λ n, Clustered.degree cc (node_id n))
                         (Clustered.sortedNodes cc (snd e))).
    { rewrite <- (layoutCluster_nodes env cc K (Z.of_nat i) (snd e)).
      rewrite map_map. apply map_ext_Forall.
      eapply Forall_impl; [apply layoutCluster_data|].
      intros fn (Hd & _). unfold AccountNode.degree. by rewrite Hd. }
    rewrite Hdeg. apply (sort_nonIncreasing (λ n, Clustered.degree cc (node_id n))).
  - intros i j l l' Hi Hj Hij.
    rewrite list_lookup_imap in Hi, Hj.
    destruct (entries !! i) as [e|] eqn:Hei; [|done].
    destruct (entries !! j) as [e'|] eqn:Hej; [|done].
    injection Hi as <-. injection Hj as <-.
    rewrite (Hblock i e Hei), (Hblock j e' Hej).
    destruct (Z.eqb_spec (fst e) k) as [He|_]; [|by left].
    destruct (Z.eqb_spec (fst e') k) as [He'|_]; [|by right].
    exfalso. apply Hij.
    apply (NoDup_lookup (map fst entries) i j k); [done|..].
    + change (map fst entries) with (fst <$> entries).
      by rewrite list_lookup_fmap, Hei, <- He.
    + change (map fst entries) with (fst <$> entries).
      by rewrite list_lookup_fmap, Hej, <- He'.
Qed.

(** X25, at a cluster of three nodes whose last node has the two edges. *)
Lemma cluster_in_degree_order_witness :
  let ns := [mkNode "a" 0 false (Some 1); mkNode "b" 0 false (Some 1);
             mkNode "c" 0 false (Some 1)] in
  let es := [mkEdge "a" "c"; mkEdge "b" "c"] in
  map (λ fn, (fn_id fn, AccountNode.degree (fn_data fn)))
      (Clustered.layoutNodes noEnv noFilter ns es)
  = [("c", 2); ("a", 1); ("b", 1)]
  ∧ nonIncreasing
      (map (λ fn, AccountNode.degree (fn_data fn))
           (List.filter (λ fn, Clustered.groupKey (nd_node (fn_data fn)) =? 1)
                        (Clustered.layoutNodes noEnv noFilter ns es))).
Proof.
  intros ns es. split; [reflexivity|].
  apply (cluster_in_degree_order noEnv noFilter ns es 1).
  apply (bool_decide_unpack _). vm_compute. exact I.
Defined.

(** ** Missing collections *)

Lemma layout_no_edges (env : Env) (filters : Filters) (ns : list Node) :
  view_edges (Clustered.layout env filters ns []) = [].
Proof. reflexivity. Qed.

(** C9, as the code has it. The page hands the layout what the fetch made
    of the response, and the fetch puts an empty list in the place of a
    missing collection: the data it stores always has both collections,
    and nothing is thrown.  When the node collection is missing, the result
    is the empty layout, no node and no edge, as for an empty graph,
    whatever was laid out before.  When only the edge collection is
    missing, the edge set is empty, but the nodes that pass the filter are
    laid out all the same, each at a finite position. *)
Theorem missing_collection_recovered (env : Env) (filters : Filters)
    (data : option Fetch.Payload) (st : Fetch.PageState) :
  let payload := default Fetch.noPayload data in
  let g := Fetch.graphData payload in
  let st' := Fetch.fetchGraphData env filters (Fetch.Resolved data) st in
  (∃ ns es, Fetch.fullData st' = Some {| nodes := Some ns; edges := Some es |})
  ∧ (Fetch.g_nodes g = None → Fetch.view st' = initialView)
  ∧ (Fetch.g_edges g = None →
     ∃ ns,
       Fetch.fullData st' = Some {| nodes := Some ns; edges := Some [] |}
       ∧ map node_id ns
         = map Fetch.rn_id (default [] (Fetch.g_nodes g))
       ∧ view_edges (Fetch.view st') = []
       ∧ map fn_id (view_nodes (Fetch.view st'))
         ≡ₚ map node_id (Clustered.visibleNodes filters ns)
       ∧ Forall (λ fn, ∃ x y, fn_position fn = Some (x, y))
                (view_nodes (Fetch.view st'))).
Proof.
  intros payload g st'. unfold st'.
  cbn [Fetch.fetchGraphData Fetch.fullData Fetch.view]. fold payload.
  unfold Fetch.normalizedData. fold g.
  set (m := Fetch.muleById _).
  split_and!.
  - by eexists _, _.
  - intros Hn. rewrite Hn.
    cbn [from_option map Clustered.processGraphData nodes edges].
    apply layout_no_nodes.
  - intros He. rewrite He.
    cbn [from_option Clustered.processGraphData nodes edges].
    unfold Datatypes.id.
    exists (map (Fetch.normalizeNode m) (default [] (Fetch.g_nodes g))).
    split; [done|]. split; [by rewrite map_map|].
    split; [apply layout_no_edges|]. split.
    + apply layoutNodes_ids.
    + cbn [Clustered.layout view_nodes]. unfold Clustered.layoutNodes.
      apply flowNodes_Forall. intros K k ms. apply layoutCluster_finite.
Qed.

(** C9, counterexample: a response with one node and no edge collection.
    The layout result is not the empty one: the node is laid out, with no
    edge. *)
Lemma missing_edges_keep_nodes :
  let a := {| Fetch.rn_id := "a"; Fetch.rn_name := None;
              Fetch.rn_label := None; Fetch.rn_risk_score := None;
              Fetch.rn_mule_suspected := None;
              Fetch.rn_cluster_id := None |} in
  let payload := {| Fetch.graph_data := None;
                    Fetch.own := {| Fetch.g_nodes := Some [a];
                                    Fetch.g_edges := None |};
                    Fetch.mule_accounts := None |} in
  let st := {| Fetch.fullData := None; Fetch.view := initialView |} in
  let st' := Fetch.fetchGraphData noEnv noFilter
               (Fetch.Resolved (Some payload)) st in
  Fetch.g_edges (Fetch.graphData payload) = None
  ∧ map fn_id (view_nodes (Fetch.view st')) = ["a"]
  ∧ view_edges (Fetch.view st') = []
  ∧ Fetch.view st' ≠ initialView.
Proof.
  intros a payload st st'.
  assert (Hids : map fn_id (view_nodes (Fetch.view st')) = ["a"])
    by reflexivity.
  split; [reflexivity|]. split; [exact Hids|]. split; [reflexivity|].
  intros H. rewrite H in Hids. discriminate Hids.
Qed.
